(** * go-ds-swift: a datastore on top of an OpenStack Swift container

  Shallow embedding of [swift.go] (the version with the query cache):
  the per-key operations, the paginated [Query] iterator with its
  single-slot cursor cache, and the archive-batched [swiftBatch]; and of
  the configuration parser of the go-ipfs plugin ([plugin/swiftds.go]).

  The Swift client ([github.com/ncw/swift]) and [archive/tar] are
  outside the repository.  The client is an interface record
  ([swift.Connection]) whose calls are logged in a trace; an in-memory
  container ([memConn]) stands for the service where a listing has to be
  computed.  The archive writer is modelled by the records it has
  written. *)

From Stdlib Require Import ZArith List Bool Lia.
From Stdlib.Strings Require Import String Ascii Byte.
From Stdlib Require Import Sorted OrderedTypeEx.
Import ListNotations.

Open Scope Z_scope.

(** ** Go values *)

Definition bytes := list byte.

Inductive error : Type :=
| ObjectNotFound                 (* swift.ObjectNotFound *)
| ErrNotFound                    (* ds.ErrNotFound *)
| Errorf (msg : string)          (* fmt.Errorf(msg) *)
| ErrHeader                      (* tar.ErrHeader and its wrappings *)
| ErrWriteTooLong                (* tar.ErrWriteTooLong *)
| ErrWriteAfterClose             (* tar.ErrWriteAfterClose *)
| ErrMissedWriting (n : Z)       (* archive/tar: missed writing n bytes *)
| Upstream (msg : string).       (* any other failure of the Swift client *)

Inductive result (A : Type) : Type :=
| Ok (a : A)
| Err (e : error).
Arguments Ok {A} a.
Arguments Err {A} e.

(** Go's [int] is [intSize] bits wide (32 or 64), two's complement. *)
Definition wrapInt (intSize : Z) (z : Z) : Z :=
  (z + 2 ^ (intSize - 1)) mod 2 ^ intSize - 2 ^ (intSize - 1).

(** [int64((^uint(0)) >> 1)] *)
Definition maxIntOf (intSize : Z) : Z := Z.shiftr (Z.ones intSize) 1.

(** [len(l)] as an [int]. *)
Definition len {A : Type} (l : list A) : Z := Z.of_nat (List.length l).

(** [strings.TrimPrefix(s, "/")] *)
Definition trimSlash (s : string) : string :=
  match s with
  | String "/"%char rest => rest
  | _ => s
  end.

(** A [ds.Key] is its string, [k.String()]. *)
Definition Key := string.

(** Keys built by [ds.NewKey] or [ds.RawKey] begin with the separator. *)
Definition wellFormedKey (k : Key) : Prop :=
  exists rest, k = String "/"%char rest.

(** Bulk APIs does not allow names starting with "/",
  so we need to normalize them here. *)
Definition keyToName (k : Key) : string := trimSlash k.

(** ** archive/tar, as far as the batch uses it *)
Module tar.

Record Header : Type := mkHeader
  { Typeflag : ascii; Name : string; Size : Z }.

Definition TypeReg : ascii := "0"%char.

(** One record of the archive: its header and the body bytes written. *)
Record Entry : Type := mkEntry { hdr : Header; body : bytes }.

(** The writer with the buffer it writes to: the records so far, whether
    the trailer was written, the bytes still owed to the current record
    and the sticky error.  [Flush] reports bytes still owed without making
    the error sticky; [Close] leaves the writer closed whatever [Flush]
    returned. *)
Record Writer : Type := mkWriter
  { entries : list Entry; trailer : bool; nb : Z; err : option error }.

Definition NewWriter : Writer := mkWriter [] false 0 None.

Definition Flush (tw : Writer) : option error * Writer :=
  match err tw with
  | Some e => (Some e, tw)
  | None =>
      if 0 <? nb tw
      then (Some (ErrMissedWriting (nb tw)), tw)
      else (None, tw)
  end.

Section Encoding.
(** Whether the library can encode a header in one of its formats. *)
Variable encodable : Header -> bool.

Definition WriteHeader (tw : Writer) (h : Header) : option error * Writer :=
  match Flush tw with
  | (Some e, tw') => (Some e, tw')
  | (None, tw') =>
      if encodable h
      then (None, mkWriter (entries tw' ++ [mkEntry h []]) (trailer tw')
                           (Size h) None)
      else (Some ErrHeader, tw')
  end.
End Encoding.

Fixpoint appendBody (es : list Entry) (b : bytes) : list Entry :=
  match es with
  | [] => []
  | [e] => [mkEntry (hdr e) (body e ++ b)]
  | e :: rest => e :: appendBody rest b
  end.

Definition Write (tw : Writer) (b : bytes) : option error * Writer :=
  match err tw with
  | Some e => (Some e, tw)
  | None =>
      if len b <=? nb tw
      then (None, mkWriter (appendBody (entries tw) b) (trailer tw)
                           (nb tw - len b) None)
      else (Some ErrWriteTooLong,
            mkWriter (appendBody (entries tw) (firstn (Z.to_nat (nb tw)) b))
                     (trailer tw) 0 None)
  end.

Definition Close (tw : Writer) : option error * Writer :=
  match err tw with
  | Some ErrWriteAfterClose => (None, tw)
  | Some e => (Some e, tw)
  | None =>
      match Flush tw with
      | (Some e, tw') =>
          (Some e,
           mkWriter (entries tw') (trailer tw') (nb tw')
                    (Some ErrWriteAfterClose))
      | (None, tw') =>
          (None, mkWriter (entries tw') true (nb tw') (Some ErrWriteAfterClose))
      end
  end.

End tar.

(** ** The Swift client *)
Module swift.

Record ObjectsOpts : Type := mkOpts
  { Prefix : string; Marker : string; Limit : Z }.

(** [swift.Object]: only the size is read. *)
Record Object : Type := mkObject { Bytes : Z }.

Definition UploadTar : string := "tar"%string.

(** The calls of [swift.Connection] the datastore makes.  [B] is the state
    of the service behind the connection; every call may change it. *)
Record Connection (B : Type) : Type := mkConnection
  { ObjectGetBytes : string -> string -> B -> result bytes * B;
    ObjectPutBytes : string -> string -> bytes -> string -> B -> option error * B;
    ObjectDelete : string -> string -> B -> option error * B;
    Object_ : string -> string -> B -> result Object * B;
    ObjectNames : string -> ObjectsOpts -> B -> result (list string) * B;
    BulkUpload : string -> list tar.Entry -> string -> B -> option error * B;
    BulkDelete : string -> list string -> B -> option error * B }.

End swift.

Arguments swift.ObjectGetBytes {B} _ _ _ _.
Arguments swift.ObjectPutBytes {B} _ _ _ _ _ _.
Arguments swift.ObjectDelete {B} _ _ _ _.
Arguments swift.Object_ {B} _ _ _ _.
Arguments swift.ObjectNames {B} _ _ _ _.
Arguments swift.BulkUpload {B} _ _ _ _ _.
Arguments swift.BulkDelete {B} _ _ _ _.

(** ** go-datastore/query *)
Module dsq.

Record Query : Type := mkQuery
  { Prefix : string;
    Filters : option (list string);   (* nil or a slice of filters *)
    Orders : option (list string);    (* nil or a slice of orders *)
    Limit : Z;
    Offset : Z;
    KeysOnly : bool }.

Record Entry : Type := mkEntry { Key : string; Value : bytes }.

Record Result : Type := mkResult { entry : Entry; Error : option error }.

(** [dsq.Result{}] *)
Definition noResult : Result := mkResult (mkEntry ""%string []) None.

End dsq.

(** ** The datastore *)

Record QueryCache : Type := mkCache
  { prefix : string; index : Z; name : string }.

(** What the datastore does to the world, in program order: writes of the
  shared cache slot and calls of the Swift client. *)
Inductive Event : Type :=
| CacheInvalidate
| CacheStore (prefix : string) (index : Z) (name : string)
| CallObjectGetBytes (container name : string)
| CallObjectPutBytes (container name : string) (val : bytes) (contentType : string)
| CallObjectDelete (container name : string)
| CallObject (container name : string)
| CallObjectNames (container : string) (opts : swift.ObjectsOpts)
| CallBulkUpload (container : string) (data : list tar.Entry) (format : string)
| CallBulkDelete (container : string) (names : list string).

(** [SwiftContainer]: the service behind [conn], the cache slot, the
  configured container name, and the trace of effects so far. *)
Record SwiftContainer (B : Type) : Type := mkSwift
  { conn : B; cache : QueryCache; Container : string; trace : list Event }.
Arguments mkSwift {B} _ _ _ _.
Arguments conn {B} _.
Arguments cache {B} _.
Arguments Container {B} _.
Arguments trace {B} _.

Section Datastore.

Context {B : Type}.
Variable C : swift.Connection B.
Variable intSize : Z.

(** One call of the client: the service moves on and the call is logged. *)
Definition call {A : Type} (ev : Event) (f : B -> A * B) (s : SwiftContainer B)
  : A * SwiftContainer B :=
  let (a, b') := f (conn s) in
  (a, mkSwift b' (cache s) (Container s) (trace s ++ [ev])).

Definition Invalidate (s : SwiftContainer B) : SwiftContainer B :=
  mkSwift (conn s)
          (mkCache (prefix (cache s)) (index (cache s)) ""%string)
          (Container s) (trace s ++ [CacheInvalidate]).

Definition SwiftContainer_Get (k : Key) (s : SwiftContainer B)
  : result bytes * SwiftContainer B :=
  let (r, s') :=
    call (CallObjectGetBytes (Container s) (keyToName k))
         (swift.ObjectGetBytes C (Container s) (keyToName k)) s in
  match r with
  | Ok data => (Ok data, s')
  | Err ObjectNotFound => (Err ErrNotFound, s')
  | Err e => (Err e, s')
  end.

Definition SwiftContainer_Delete (k : Key) (s : SwiftContainer B)
  : option error * SwiftContainer B :=
  let s1 := Invalidate s in
  call (CallObjectDelete (Container s1) (keyToName k))
       (swift.ObjectDelete C (Container s1) (keyToName k)) s1.

Definition SwiftContainer_Put (k : Key) (val : bytes) (s : SwiftContainer B)
  : option error * SwiftContainer B :=
  let s1 := Invalidate s in
  call (CallObjectPutBytes (Container s1) (keyToName k) val
                           "application/octet-stream"%string)
       (swift.ObjectPutBytes C (Container s1) (keyToName k) val
                             "application/octet-stream"%string) s1.

Definition SwiftContainer_Has (k : Key) (s : SwiftContainer B)
  : result bool * SwiftContainer B :=
  let (r, s') :=
    call (CallObject (Container s) (keyToName k))
         (swift.Object_ C (Container s) (keyToName k)) s in
  match r with
  | Ok _ => (Ok true, s')
  | Err ObjectNotFound => (Ok false, s')
  | Err e => (Err e, s')
  end.

Definition SwiftContainer_GetSize (k : Key) (s : SwiftContainer B)
  : result Z * SwiftContainer B :=
  let (r, s') :=
    call (CallObject (Container s) (keyToName k))
         (swift.Object_ C (Container s) (keyToName k)) s in
  match r with
  | Err ObjectNotFound => (Err ErrNotFound, s')
  | Err e => (Err e, s')
  | Ok info =>
      let maxInt := maxIntOf intSize in
      if maxInt <? swift.Bytes info
      then (Err (Errorf "integer overflow"%string), s')
      else (Ok (wrapInt intSize (swift.Bytes info)), s')
  end.

(** *** Query *)

(** The variables the iterator closures of [Query] capture. *)
Record queryIter : Type := mkIter
  { q : dsq.Query;
    opts : swift.ObjectsOpts;
    offset : Z;
    count : Z;
    names : list string;
    doneFetching : bool }.

Definition SwiftContainer_Query (q : dsq.Query) (s : SwiftContainer B)
  : result queryIter :=
  match dsq.Orders q, dsq.Filters q with
  | None, None =>
      let opts := swift.mkOpts (trimSlash (dsq.Prefix q)) ""%string 10000 in
      let offset := dsq.Offset q in
      let hit := (String.eqb (prefix (cache s)) (swift.Prefix opts))
                 && negb (String.eqb (name (cache s)) ""%string)
                 && (index (cache s) <=? offset) in
      let opts := if hit
                  then swift.mkOpts (swift.Prefix opts) (name (cache s))
                                    (swift.Limit opts)
                  else opts in
      let offset := if hit
                    then wrapInt intSize (index (cache s) - offset)
                    else offset in
      let end_ := wrapInt intSize (offset + dsq.Limit q) in
      let opts := if negb (dsq.Limit q =? 0) && (end_ <? swift.Limit opts)
                  then swift.mkOpts (swift.Prefix opts) (swift.Marker opts) end_
                  else opts in
      Ok (mkIter q opts offset 0 [] false)
  | _, _ => Err (Errorf "swiftds doesnt support filters or orders"%string)
  end.

(** [Close] of the iterator. *)
Definition Close (it : queryIter) (s : SwiftContainer B)
  : option error * queryIter * SwiftContainer B :=
  (None,
   mkIter (q it) (opts it) (offset it) (count it) [] (doneFetching it),
   s).

Definition storeCache (p : string) (i : Z) (n : string) (s : SwiftContainer B)
  : SwiftContainer B :=
  mkSwift (conn s) (mkCache p i n) (Container s)
          (trace s ++ [CacheStore p i n]).

(** How the fetch loop of [Next] ends. *)
Inductive loopResult : Type :=
| LoopReturn (r : dsq.Result) (ok : bool)   (* return from inside the loop *)
| LoopExit                                   (* the loop condition is false *)
| LoopPanic                                  (* index out of range *)
| LoopFuel.                                  (* more iterations than allowed *)

(** One pass through the body of the fetch loop: [Some r] when the body
    leaves [Next] (or panics), [None] when it falls through to the loop
    condition. *)
Definition loopBody (it : queryIter) (s : SwiftContainer B)
  : option loopResult * queryIter * SwiftContainer B :=
  if doneFetching it then (Some (LoopReturn dsq.noResult false), it, s)
  else
    let (r, s1) :=
      call (CallObjectNames (Container s) (opts it))
           (swift.ObjectNames C (Container s) (opts it)) s in
    match r with
    | Err e =>
        (Some (LoopReturn (dsq.mkResult (dsq.mkEntry ""%string []) (Some e)) false),
         it, s1)
    | Ok newNames =>
        let newLen := len newNames in
        let done := if newLen <? swift.Limit (opts it)
                    then true else doneFetching it in
        if (newLen =? 0) && (len (names it) =? 0)
        then (Some (LoopReturn dsq.noResult false),
              mkIter (q it) (opts it) (offset it) (count it) (names it) done,
              s1)
        else
          match newNames with
          | [] => (Some LoopPanic,
                   mkIter (q it) (opts it) (offset it) (count it)
                          (names it) done,
                   s1)
          | _ :: _ =>
              let opts1 := swift.mkOpts (swift.Prefix (opts it))
                                        (last newNames ""%string)
                                        (swift.Limit (opts it)) in
              let newNames1 :=
                if 0 <? offset it
                then if offset it <? newLen
                     then skipn (Z.to_nat (offset it)) newNames
                     else []
                else newNames in
              let offset1 :=
                if 0 <? offset it
                then if offset it <? newLen
                     then 0
                     else wrapInt intSize (offset it - newLen)
                else offset it in
              (None,
               mkIter (q it) opts1 offset1 (count it)
                      (names it ++ newNames1) done,
               s1)
          end
    end.

(** [for len(names) == 0 || offset > 0 { ... }] *)
Fixpoint Next_loop (fuel : nat) (it : queryIter) (s : SwiftContainer B)
  : loopResult * queryIter * SwiftContainer B :=
  if (len (names it) =? 0) || (0 <? offset it) then
    match fuel with
    | O => (LoopFuel, it, s)
    | S fuel' =>
        match loopBody it s with
        | (Some r, it1, s1) => (r, it1, s1)
        | (None, it1, s1) => Next_loop fuel' it1 s1
        end
    end
  else (LoopExit, it, s).

(** What one call of the iterator's [Next] gives. *)
Inductive nextResult : Type :=
| Yield (r : dsq.Result) (ok : bool)
| Panic
| Diverge.

(** [Next] after the fetch loop: take the first buffered name and emit it. *)
Definition emit (it1 : queryIter) (s1 : SwiftContainer B)
  : nextResult * queryIter * SwiftContainer B :=
  let count1 := wrapInt intSize (count it1 + 1) in
  match names it1 with
  | [] => (Panic, it1, s1)
  | name :: names1 =>
      let opts1 :=
        if (len names1 =? 0)
           && (count1 <? dsq.Limit (q it1))
           && (wrapInt intSize (dsq.Limit (q it1) - count1)
               <? swift.Limit (opts it1))
        then swift.mkOpts (swift.Prefix (opts it1))
                          (swift.Marker (opts it1))
                          (wrapInt intSize (dsq.Limit (q it1) - count1))
        else opts it1 in
      (* Cache the last item *)
      let s2 :=
        if doneFetching it1
           || ((0 <? dsq.Limit (q it1)) && (count1 =? dsq.Limit (q it1)))
        then storeCache (swift.Prefix opts1)
                        (wrapInt intSize (dsq.Offset (q it1) + count1))
                        name s1
        else s1 in
      let key := String "/"%char name in
      let it2 := mkIter (q it1) opts1 (offset it1) count1 names1
                        (doneFetching it1) in
      if dsq.KeysOnly (q it1)
      then (Yield (dsq.mkResult (dsq.mkEntry key []) None) true, it2, s2)
      else
        let (r, s3) :=
          call (CallObjectGetBytes (Container s2) name)
               (swift.ObjectGetBytes C (Container s2) name) s2 in
        match r with
        | Err e =>
            (Yield (dsq.mkResult (dsq.mkEntry ""%string []) (Some e)) false,
             it2, s3)
        | Ok b =>
            (Yield (dsq.mkResult (dsq.mkEntry key b) None) true, it2, s3)
        end
  end.

Definition Next (it : queryIter) (s : SwiftContainer B)
  : nextResult * queryIter * SwiftContainer B :=
  if negb (dsq.Limit (q it) =? 0) && (count it =? dsq.Limit (q it))
  then (Yield dsq.noResult false, it, s)
  else
    match Next_loop (S (Z.to_nat (offset it))) it s with
    | (LoopReturn r ok, it1, s1) => (Yield r ok, it1, s1)
    | (LoopPanic, it1, s1) => (Panic, it1, s1)
    | (LoopFuel, it1, s1) => (Diverge, it1, s1)
    | (LoopExit, it1, s1) => emit it1 s1
    end.

(** The consumer of [dsq.Results]: [NextSync] closes the iterator when
    [Next] says it is over, and [Rest] collects entries until then.
    [None] when [fuel] calls were not enough. *)
Fixpoint Rest (fuel : nat) (it : queryIter) (s : SwiftContainer B)
  : option (list dsq.Entry * option error * queryIter * SwiftContainer B) :=
  match fuel with
  | O => None
  | S fuel' =>
      match Next it s with
      | (Yield r false, it1, s1) =>
          let '(_, it2, s2) := Close it1 s1 in
          Some ([], None, it2, s2)
      | (Yield r true, it1, s1) =>
          match dsq.Error r with
          | Some e => Some ([], Some e, it1, s1)
          | None =>
              match Rest fuel' it1 s1 with
              | Some (es, e, it2, s2) => Some (dsq.entry r :: es, e, it2, s2)
              | None => None
              end
          end
      | (_, it1, s1) => None
      end
  end.

(** A consumer that takes at most [n] results and then closes. *)
Fixpoint takeThenClose (n : nat) (it : queryIter) (s : SwiftContainer B)
  : list dsq.Entry * queryIter * SwiftContainer B :=
  match n with
  | O => let '(_, it1, s1) := Close it s in ([], it1, s1)
  | S n' =>
      match Next it s with
      | (Yield r true, it1, s1) =>
          let '(es, it2, s2) := takeThenClose n' it1 s1 in
          (dsq.entry r :: es, it2, s2)
      | (_, it1, s1) => let '(_, it2, s2) := Close it1 s1 in ([], it2, s2)
      end
  end.

(** *** Batching *)

(** [putData] is the buffer [tarWriter] writes to: it is read off the
    writer.  The container the batch points to is the one passed in. *)
Record swiftBatch : Type := mkBatch
  { tarWriter : option tar.Writer; delKeys : list string }.

Definition putData (b : swiftBatch) : option (list tar.Entry) :=
  option_map tar.entries (tarWriter b).

Definition SwiftContainer_Batch : swiftBatch := mkBatch None [].

Variable encodable : tar.Header -> bool.

Definition swiftBatch_Put (k : Key) (val : bytes) (b : swiftBatch)
  (s : SwiftContainer B) : option error * swiftBatch * SwiftContainer B :=
  let tw := match tarWriter b with
            | None => tar.NewWriter
            | Some tw => tw
            end in
  let header := tar.mkHeader tar.TypeReg k (len val) in
  match tar.WriteHeader encodable tw header with
  | (Some e, tw1) => (Some e, mkBatch (Some tw1) (delKeys b), s)
  | (None, tw1) =>
      match tar.Write tw1 val with
      | (Some e, tw2) => (Some e, mkBatch (Some tw2) (delKeys b), s)
      | (None, tw2) => (None, mkBatch (Some tw2) (delKeys b), s)
      end
  end.

Definition swiftBatch_Delete (k : Key) (b : swiftBatch) (s : SwiftContainer B)
  : option error * swiftBatch * SwiftContainer B :=
  (None, mkBatch (tarWriter b) (delKeys b ++ [keyToName k]), s).

Definition commitDeletes (b : swiftBatch) (s : SwiftContainer B)
  : option error * swiftBatch * SwiftContainer B :=
  if 0 <? len (delKeys b)
  then
    let (r, s1) :=
      call (CallBulkDelete (Container s) (delKeys b))
           (swift.BulkDelete C (Container s) (delKeys b)) s in
    (r, b, s1)
  else (None, b, s).

Definition swiftBatch_Commit (b : swiftBatch) (s : SwiftContainer B)
  : option error * swiftBatch * SwiftContainer B :=
  let s1 := Invalidate s in
  match tarWriter b with
  | Some tw =>
      match tar.Close tw with
      | (Some e, tw1) => (Some e, mkBatch (Some tw1) (delKeys b), s1)
      | (None, tw1) =>
          let (r, s2) :=
            call (CallBulkUpload (Container s1) (tar.entries tw1) swift.UploadTar)
                 (swift.BulkUpload C (Container s1) (tar.entries tw1)
                                   swift.UploadTar) s1 in
          match r with
          | Some e => (Some e, mkBatch (Some tw1) (delKeys b), s2)
          | None => commitDeletes (mkBatch (Some tw1) (delKeys b)) s2
          end
      end
  | None => commitDeletes b s1
  end.

End Datastore.

Arguments Close {B} it s.
Arguments storeCache {B} p i n s.
Arguments SwiftContainer_Batch : clear implicits.

(** ** An in-memory container

    The service as §6 of the contract describes it: objects under non-empty
    names, listed in ascending byte order, restricted to a prefix, resumed
    after a marker (an empty marker is no marker) and cut to the page size.
    A limit that is not positive is not sent by the client, and the service
    then answers with its default page of 10000 names. *)

Definition memState := list (string * bytes).

Fixpoint memGet (n : string) (st : memState) : option bytes :=
  match st with
  | [] => None
  | (m, v) :: rest => if String.eqb n m then Some v else memGet n rest
  end.

Fixpoint memPut (n : string) (v : bytes) (st : memState) : memState :=
  match st with
  | [] => [(n, v)]
  | (m, w) :: rest =>
      match String.compare n m with
      | Lt => (n, v) :: st
      | Eq => (n, v) :: rest
      | Gt => (m, w) :: memPut n v rest
      end
  end.

Fixpoint memRemove (n : string) (st : memState) : memState :=
  match st with
  | [] => []
  | (m, w) :: rest =>
      if String.eqb n m then rest else (m, w) :: memRemove n rest
  end.

Definition memListingDefault : Z := 10000.

Definition pageOf (limit : Z) : Z :=
  if (0 <? limit) && (limit <=? memListingDefault)
  then limit else memListingDefault.

Definition listed (p marker n : string) : bool :=
  String.prefix p n && (String.eqb marker ""%string || String.ltb marker n).

(** Every name of the container the listing options select. *)
Definition listing (p marker : string) (st : memState) : list string :=
  filter (listed p marker) (map fst st).

Definition memNames (o : swift.ObjectsOpts) (st : memState) : list string :=
  firstn (Z.to_nat (pageOf (swift.Limit o)))
         (listing (swift.Prefix o) (swift.Marker o) st).

(** The bulk extraction of the service strips the leading separators of a
    record's path. *)
Fixpoint lstripSlash (s : string) : string :=
  match s with
  | String "/"%char rest => lstripSlash rest
  | _ => s
  end.

Definition memConn : swift.Connection memState :=
  swift.mkConnection memState
    (fun _ n st =>
       (match memGet n st with
        | Some v => Ok v
        | None => Err ObjectNotFound
        end, st))
    (fun _ n v _ st => (None, memPut n v st))
    (fun _ n st =>
       match memGet n st with
       | Some _ => (None, memRemove n st)
       | None => (Some ObjectNotFound, st)
       end)
    (fun _ n st =>
       (match memGet n st with
        | Some v => Ok (swift.mkObject (len v))
        | None => Err ObjectNotFound
        end, st))
    (fun _ o st => (Ok (memNames o st), st))
    (fun _ es _ st =>
       (None,
        fold_left (fun acc e =>
                     memPut (lstripSlash (tar.Name (tar.hdr e))) (tar.body e) acc)
                  es st))
    (fun _ ns st => (None, fold_left (fun acc n => memRemove n acc) ns st)).

(** Names in strictly ascending order, none of them empty. *)
Definition wfStore (st : memState) : Prop :=
  StronglySorted (fun a b => String.ltb a b = true) (map fst st)
  /\ Forall (fun n => n <> ""%string) (map fst st).

(** A datastore as [NewSwiftDatastore] returns it, on a given container. *)
Definition newSwift (st : memState) : SwiftContainer memState :=
  mkSwift st (mkCache ""%string 0 ""%string) "swiftds_test"%string [].

(** The datastore with its cache slot set, nothing logged. *)
Definition withCache (st : memState) (c : QueryCache) : SwiftContainer memState :=
  mkSwift st c "swiftds_test"%string [].

(** *** Test data of [swift_test.go] *)

Definition testcases : list (string * string) :=
  [ ("/a", "a"); ("/a/b", "ab"); ("/a/b/c", "abc"); ("/a/b/d", "a/b/d");
    ("/a/c", "ac"); ("/a/d", "ad") ]%string.

(** [addTestCases]: one [Put] per test case. *)
Definition addTestCases (cases : list (string * string))
  (s : SwiftContainer memState) : SwiftContainer memState :=
  fold_left
    (fun acc kv =>
       snd (SwiftContainer_Put memConn (fst kv) (list_byte_of_string (snd kv)) acc))
    cases s.

Definition testStore : memState := conn (addTestCases testcases (newSwift [])).

Definition keysOf (es : list dsq.Entry) : list string := map dsq.Key es.

(** Run a query to its end on the in-memory container: the entries and the
    datastore afterwards. *)
Definition runQuery (intSize : Z) (fuel : nat) (qu : dsq.Query)
  (s : SwiftContainer memState)
  : option (list dsq.Entry * SwiftContainer memState) :=
  match SwiftContainer_Query intSize qu s with
  | Err _ => None
  | Ok it =>
      match Rest memConn intSize fuel it s with
      | Some (es, None, _, s') => Some (es, s')
      | _ => None
      end
  end.

Definition prefixQuery (p : string) (off lim : Z) (keysOnly : bool) : dsq.Query :=
  dsq.mkQuery p None None lim off keysOnly.

(** *** Batches as their callers build them *)

Inductive batchOp : Type :=
| OpPut (k : Key) (val : bytes)
| OpDelete (k : Key).

Definition isPut (op : batchOp) : bool :=
  match op with OpPut _ _ => true | OpDelete _ => false end.


(** [Put] and [Delete] calls issued on a batch, in order; the caller goes on
    whatever an individual call returns. *)
Fixpoint applyOps {B : Type} (encodable : tar.Header -> bool)
  (ops : list batchOp) (b : swiftBatch) (s : SwiftContainer B)
  : swiftBatch * SwiftContainer B :=
  match ops with
  | [] => (b, s)
  | OpPut k val :: rest =>
      let '(_, b1, s1) := swiftBatch_Put encodable k val b s in
      applyOps encodable rest b1 s1
  | OpDelete k :: rest =>
      let '(_, b1, s1) := swiftBatch_Delete k b s in
      applyOps encodable rest b1 s1
  end.

(** The records the archive holds after [ops], and the names to delete. *)
Fixpoint putRecords (encodable : tar.Header -> bool) (ops : list batchOp)
  : list tar.Entry :=
  match ops with
  | [] => []
  | OpPut k val :: rest =>
      let h := tar.mkHeader tar.TypeReg k (len val) in
      if encodable h
      then tar.mkEntry h val :: putRecords encodable rest
      else putRecords encodable rest
  | OpDelete _ :: rest => putRecords encodable rest
  end.

Fixpoint delNames (ops : list batchOp) : list string :=
  match ops with
  | [] => []
  | OpPut _ _ :: rest => delNames rest
  | OpDelete k :: rest => keyToName k :: delNames rest
  end.

(** The records buffered in a batch. *)
Definition bufferOf (b : swiftBatch) : list tar.Entry :=
  match tarWriter b with
  | None => []
  | Some tw => tar.entries tw
  end.

(** The writer a [Put] works on. *)
Definition writerOf (b : swiftBatch) : tar.Writer :=
  match tarWriter b with
  | None => tar.NewWriter
  | Some tw => tw
  end.

(** Between two calls the writer owes no bytes and holds no error. *)
Definition idleWriter (b : swiftBatch) : Prop :=
  forall tw, tarWriter b = Some tw -> tar.nb tw = 0 /\ tar.err tw = None.

(** What the fetch loop leaves alone: the query, the emitted count, the
    listing prefix, the cache slot and the container name; a listing once
    known to be exhausted stays so. *)
Definition loopFrame {B : Type} (it : queryIter) (s : SwiftContainer B)
  (it' : queryIter) (s' : SwiftContainer B) : Prop :=
  q it' = q it
  /\ count it' = count it
  /\ swift.Prefix (opts it') = swift.Prefix (opts it)
  /\ cache s' = cache s
  /\ Container s' = Container s
  /\ (doneFetching it = true -> doneFetching it' = true).

(** No emission of the iterator can write the cache any more for a reason
    that was not yet there: the listing is known to be exhausted, or the
    limit is reached. *)
Definition settled (it : queryIter) : Prop :=
  doneFetching it = true
  \/ (0 < dsq.Limit (q it) /\ count it = dsq.Limit (q it)).

(** *** Paging twice and paging once *)

(** [Query(p, 0, n)] and then [Query(p, n, m)] on the same datastore, both
    read to the end: the entries of the first followed by those of the
    second. *)
Definition twoPages (intSize : Z) (fuel : nat) (p : string) (n m : Z)
  (keysOnly : bool) (s : SwiftContainer memState) : option (list dsq.Entry) :=
  match runQuery intSize fuel (prefixQuery p 0 n keysOnly) s with
  | Some (es1, s1) =>
      match runQuery intSize fuel (prefixQuery p n m keysOnly) s1 with
      | Some (es2, _) => Some (es1 ++ es2)
      | None => None
      end
  | None => None
  end.

(** [Query(p, 0, k)] read to the end. *)
Definition onePage (intSize : Z) (fuel : nat) (p : string) (k : Z)
  (keysOnly : bool) (s : SwiftContainer memState) : option (list dsq.Entry) :=
  option_map fst (runQuery intSize fuel (prefixQuery p 0 k keysOnly) s).

(** The pagination equivalence, by key. *)
Definition pagingAgrees (intSize : Z) (fuel : nat) (p : string) (n m : Z)
  (keysOnly : bool) (s : SwiftContainer memState) : Prop :=
  exists es es',
    twoPages intSize fuel p n m keysOnly s = Some es
    /\ onePage intSize fuel p (n + m) keysOnly s = Some es'
    /\ forall k, In k (keysOf es) <-> In k (keysOf es').

(** *** A container of many names *)

Definition letter (i : nat) : ascii := ascii_of_nat (97 + i).

(** Three letters, in the order of [i]. *)
Definition name3 (i : nat) : string :=
  String (letter (i / 676))
    (String (letter ((i / 26) mod 26)) (String (letter (i mod 26)) ""%string)).

(** [n] empty objects under the first [n] three-letter names. *)
Definition bigStore (n : nat) : memState :=
  map (fun i => (name3 i, [])) (seq 0 n).

Fixpoint ascendingb (l : list string) : bool :=
  match l with
  | [] => true
  | a :: rest =>
      match rest with
      | [] => true
      | b :: _ => String.ltb a b && ascendingb rest
      end
  end.

Definition value (v : string) : bytes := list_byte_of_string v.

(** The page size of [Query], as a number of names. *)
Definition fullPage : nat := Z.to_nat 10000.

(** An unbounded query over a container of exactly one page of names, read
    to the end: what was emitted, how it ended, and the cache afterwards. *)
Definition fullPageRun
  : option (Z * string * option error * bool * QueryCache) :=
  match SwiftContainer_Query 64 (prefixQuery "/" 0 0 true)
          (newSwift (bigStore fullPage)) with
  | Ok it0 =>
      match Rest memConn 64 (S fullPage) it0 (newSwift (bigStore fullPage)) with
      | Some (es, e, it, s') =>
          Some (len es, last (keysOf es) ""%string, e, doneFetching it, cache s')
      | None => None
      end
  | Err _ => None
  end.

(** The cache a one-entry first page leaves behind. *)
Definition afterFirstPage : SwiftContainer memState :=
  withCache testStore (mkCache "a/" 1 "a/b").

(** *** Lists indexed by [int] *)

Definition ztake {A : Type} (z : Z) (l : list A) : list A :=
  firstn (Z.to_nat z) l.

Definition zdrop {A : Type} (z : Z) (l : list A) : list A :=
  skipn (Z.to_nat z) l.

(** The entries a query is to return from the names [S] it lists: skip
    [o], then take [l], or everything when [l] is zero. *)
Definition window (o l : Z) (S : list string) : list string :=
  if l =? 0 then zdrop o S else ztake l (zdrop o S).

(** The entry emitted for a listed name. *)
Definition entryFor (keysOnly : bool) (st : memState) (n : string) : dsq.Entry :=
  dsq.mkEntry (String "/"%char n)
    (if keysOnly then []
     else match memGet n st with
          | Some v => v
          | None => []
          end).

(** *** The state of a running query

    A query on the in-memory container [st] draws from the names [S] its
    listing yields after the initial marker, skipping the first [o] of
    them.  While it runs, the first [pos] names of [S] have been fetched. *)

(** What is known about the pages while the listing is not known to be
    exhausted: every page so far was a full default page, or the page to
    come (or the last one) completes the query's quota. *)
Definition pagesOpen (S : list string) (o : Z) (it : queryIter) (pos : Z) : Prop :=
  (swift.Limit (opts it) = 10000 /\ exists k, pos = 10000 * k)
  \/ (0 < dsq.Limit (q it)
      /\ pos + swift.Limit (opts it) = o + dsq.Limit (q it)
      /\ swift.Limit (opts it) < 10000
      /\ exists k, pos = 10000 * k)
  \/ (0 < dsq.Limit (q it) /\ pos = o + dsq.Limit (q it)).

Record pagingInv (st : memState) (S : list string) (o : Z)
  (it : queryIter) (pos : Z) : Prop := mkPagingInv
  { inv_marker :
      listing (swift.Prefix (opts it)) (swift.Marker (opts it)) st = zdrop pos S;
    inv_pos : 0 <= pos <= len S;
    inv_count : 0 <= count it;
    inv_quota : 0 < dsq.Limit (q it) -> count it <= dsq.Limit (q it);
    inv_emitted : o + count it <= pos \/ count it = 0;
    inv_offset : offset it = Z.max 0 (o - pos);
    inv_names : names it = zdrop (o + count it) (ztake pos S);
    inv_limit : 0 < swift.Limit (opts it) <= 10000;
    inv_open : doneFetching it = false -> pagesOpen S o it pos;
    inv_done :
      doneFetching it = true ->
      pos = len S /\ ((forall k, len S <> 10000 * k) \/ len S <= o + count it) }.

(** Every number the query computes fits an [int]. *)
Record inRange (intSize : Z) (qu : dsq.Query) (o : Z) (S : list string)
  : Prop := mkInRange
  { range_int : intSize = 32 \/ intSize = 64;
    range_skip : 0 <= o;
    range_limit : 0 <= dsq.Limit qu;
    range_offset : 0 <= dsq.Offset qu;
    range_end : o + dsq.Limit qu <= maxIntOf intSize;
    range_index : dsq.Offset qu + len S <= maxIntOf intSize }.

(** What a query that has emitted [c] entries still has to emit. *)
Definition remaining (o l : Z) (S : list string) (c : Z) : list string :=
  if l =? 0 then zdrop (o + c) S else ztake (l - c) (zdrop (o + c) S).

(** Whether the last emission of a query writes the cache: its limit is
    reached, or the listing did not end with a full default page. *)
Definition writesCache (o l : Z) (S : list string) : bool :=
  ((0 <? l) && (o + l <=? len S)) || negb (len S mod 10000 =? 0).

(** The cache when a query that has emitted [c] entries has run to its end,
    [cur] being the cache now. *)
Definition cacheFrom (p : string) (off o l : Z) (S : list string) (c : Z)
  (cur : QueryCache) : QueryCache :=
  match remaining o l S c with
  | [] => cur
  | rest =>
      if writesCache o l S
      then mkCache p (off + (c + len rest)) (last rest ""%string)
      else cur
  end.

(** Whether [Query] resumes from the cache. *)
Definition cacheHit (qu : dsq.Query) (c : QueryCache) : bool :=
  (String.eqb (prefix c) (trimSlash (dsq.Prefix qu)))
  && negb (String.eqb (name c) ""%string)
  && (index c <=? dsq.Offset qu).

(** *** What a query leaves in the trace *)

(** The names whose values were fetched, in order. *)
Definition fetchedNames (evs : list Event) : list string :=
  flat_map (fun ev => match ev with
                      | CallObjectGetBytes _ n => [n]
                      | _ => []
                      end) evs.

(** The effects of a query on [container] under the normalized prefix [p]:
    listing calls under that prefix, value fetches, and stores of a cursor
    for that prefix. *)
Definition queryEvent (container p : string) (ev : Event) : Prop :=
  match ev with
  | CallObjectNames c o => c = container /\ swift.Prefix o = p
  | CallObjectGetBytes c _ => c = container
  | CacheStore p' _ _ => p' = p
  | _ => False
  end.

(** What steps of an iterator add to the trace, from [(it, s)] to
    [(it', s')]: only effects of its query, whose parameters stay. *)
Definition stepTrace {B : Type} (it : queryIter) (s : SwiftContainer B)
  (it' : queryIter) (s' : SwiftContainer B) (evs : list Event) : Prop :=
  trace s' = trace s ++ evs
  /\ Forall (queryEvent (Container s) (swift.Prefix (opts it))) evs
  /\ q it' = q it
  /\ Container s' = Container s
  /\ swift.Prefix (opts it') = swift.Prefix (opts it).

(** The values one call of [Next] fetched: none for a keys-only query, at
    most one otherwise, and the value of the entry when one is emitted. *)
Definition fetchOf (it : queryIter) (r : nextResult) (evs : list Event) : Prop :=
  (dsq.KeysOnly (q it) = true -> fetchedNames evs = [])
  /\ (List.length (fetchedNames evs) <= 1)%nat
  /\ (forall res, r = Yield res true ->
      dsq.KeysOnly (q it) = false ->
      fetchedNames evs = [keyToName (dsq.Key (dsq.entry res))]).

(** The values a consumer fetched while it collected [es]: none for a
    keys-only query; otherwise one per entry, in order, and at most one
    more. *)
Definition fetchedFor (keysOnly : bool) (es : list dsq.Entry)
  (evs : list Event) : Prop :=
  if keysOnly
  then fetchedNames evs = []
  else exists extra,
      fetchedNames evs = map keyToName (keysOf es) ++ extra
      /\ (List.length extra <= 1)%nat.

(** *** Index safety of the iterator

    Names are buffered only once the residual skip is used up. *)
Definition safeIter (it : queryIter) : Prop :=
  names it <> [] -> offset it <= 0.

(** *** Cursors that are right

    The cursor names what is listed under its prefix at position [index],
    counted from one; a cleared cursor holds no position. *)
Definition validCursor (st : memState) (c : QueryCache) : Prop :=
  name c = ""%string
  \/ exists S1 S2,
      listing (prefix c) ""%string st = S1 ++ name c :: S2
      /\ len S1 + 1 = index c.

(** *** A container whose values cannot be read

    The in-memory container behind a client whose [ObjectGetBytes] fails
    with an error of its own. *)
Definition unreadable (e : error) : swift.Connection memState :=
  swift.mkConnection memState
    (fun _ _ st => (Err e, st))
    (swift.ObjectPutBytes memConn)
    (swift.ObjectDelete memConn)
    (swift.Object_ memConn)
    (swift.ObjectNames memConn)
    (swift.BulkUpload memConn)
    (swift.BulkDelete memConn).

(** ** The go-ipfs plugin ([plugin/swiftds.go]) *)
Module plugin.

(** [swiftds.Config] as the parser fills it: the fields of the connection
    it sets, and the container. *)
Record SwiftConfig : Type := mkConfig
  { UserName : string;
    ApiKey : string;
    AuthUrl : string;
    AuthVersion : Z;
    Tenant : string;
    TenantId : string;
    Region : string;
    Container : string }.

(** [DiskSpec]: the map literal, key by key. *)
Definition DiskSpec (sc : SwiftConfig) : list (string * string) :=
  [ ("apiUrl", AuthUrl sc);
    ("container", Container sc);
    ("tenant", Tenant sc) ]%string.

Section Parser.

(** [float64], and the conversion [int(f)]. *)
Variable float64 : Type.
Variable intOfFloat : float64 -> Z.

(** A value of the configuration map, an [interface{}]: a string, a number
    as the decoder of the configuration yields it, or anything else. *)
Inductive Value : Type :=
| VString (s : string)
| VNumber (f : float64)
| VOther.

(** [map[string]interface{}], as far as it is looked up. *)
Definition ConfigMap : Type := string -> option Value.

(** [m[key].(string)] *)
Definition asString (v : option Value) : option string :=
  match v with
  | Some (VString s) => Some s
  | _ => None
  end.

(** [DatastoreConfigParser], the function it returns. *)
Definition DatastoreConfigParser (m : ConfigMap) : result SwiftConfig :=
  match asString (m "userName"%string) with
  | None => Err (Errorf "swiftds: no userName specified")
  | Some username =>
  match asString (m "container"%string) with
  | None => Err (Errorf "swiftds: no container specified")
  | Some container =>
  match asString (m "apiKey"%string) with
  | None => Err (Errorf "swiftds: no apiKey specified")
  | Some apikey =>
  match asString (m "authUrl"%string) with
  | None => Err (Errorf "swiftds: no authUrl specified")
  | Some authUrl =>
  match (match m "tenant"%string with
         | Some v => asString (Some v)
         | None => Some ""%string
         end) with
  | None => Err (Errorf "swiftds: tenant not a string")
  | Some tenant =>
  match (match m "tenantId"%string with
         | Some v => asString (Some v)
         | None => Some ""%string
         end) with
  | None => Err (Errorf "swiftds: tenantId not a string")
  | Some tenantId =>
  match (match m "region"%string with
         | Some v => asString (Some v)
         | None => Some ""%string
         end) with
  | None => Err (Errorf "swiftds: region not a string")
  | Some region =>
  match (match m "authVersion"%string with
         | Some (VNumber f) => Some (intOfFloat f)
         | Some _ => None
         | None => Some 0
         end) with
  | None => Err (Errorf "swiftds: authVersion not a number")
  | Some authVersion =>
      Ok (mkConfig username apikey authUrl authVersion tenant tenantId
                   region container)
  end end end end end end end end.

End Parser.

Arguments VString {float64} s.
Arguments VNumber {float64} f.
Arguments VOther {float64}.
Arguments asString {float64} v.
Arguments DatastoreConfigParser {float64} intOfFloat m.

(** What the parser requires of the map, in the order it checks, each
    requirement with the message of its failure. *)
Definition isString {float64 : Type} (v : option (Value float64)) : bool :=
  match v with
  | Some (VString _) => true
  | _ => false
  end.

Definition isOptionalString {float64 : Type} (v : option (Value float64))
  : bool :=
  match v with
  | None | Some (VString _) => true
  | _ => false
  end.

Definition isOptionalNumber {float64 : Type} (v : option (Value float64))
  : bool :=
  match v with
  | None | Some (VNumber _) => true
  | _ => false
  end.

Definition configChecks {float64 : Type} (m : ConfigMap float64)
  : list (bool * string) :=
  [ (isString (m "userName"), "swiftds: no userName specified");
    (isString (m "container"), "swiftds: no container specified");
    (isString (m "apiKey"), "swiftds: no apiKey specified");
    (isString (m "authUrl"), "swiftds: no authUrl specified");
    (isOptionalString (m "tenant"), "swiftds: tenant not a string");
    (isOptionalString (m "tenantId"), "swiftds: tenantId not a string");
    (isOptionalString (m "region"), "swiftds: region not a string");
    (isOptionalNumber (m "authVersion"), "swiftds: authVersion not a number")
  ]%string.

(** An optional entry of the configuration: absent, or a string. *)
Definition optionalString {float64 : Type} (v : option (Value float64))
  (s : string) : Prop :=
  (v = None /\ s = ""%string) \/ v = Some (VString s).

(** The optional version number: absent, or a number. *)
Definition optionalNumber {float64 : Type} (intOfFloat : float64 -> Z)
  (v : option (Value float64)) (z : Z) : Prop :=
  (v = None /\ z = 0) \/ exists f, v = Some (VNumber f) /\ z = intOfFloat f.

(** A configuration as a user writes it, the version as a number. *)
Definition exampleConfig : ConfigMap Z :=
  fun key =>
    if String.eqb key "userName" then Some (VString "user")
    else if String.eqb key "container" then Some (VString "box")
    else if String.eqb key "apiKey" then Some (VString "secret")
    else if String.eqb key "authUrl" then Some (VString "https://auth")
    else if String.eqb key "authVersion" then Some (VNumber 2)
    else None.

End plugin.

(** * Properties *)

(** ** Integers *)

Lemma maxIntOf_eq (intSize : Z) :
  0 < intSize -> maxIntOf intSize = 2 ^ (intSize - 1) - 1.
Proof.
  intros H. unfold maxIntOf.
  rewrite Z.shiftr_div_pow2 by lia.
  rewrite Z.ones_equiv.
  replace (2 ^ intSize) with (2 * 2 ^ (intSize - 1)).
  2:{ rewrite <- Z.pow_succ_r by lia. f_equal. lia. }
  assert (0 < 2 ^ (intSize - 1)) by (apply Z.pow_pos_nonneg; lia).
  change (2 ^ 1) with 2.
  unfold Z.pred.
  symmetry. apply Z.div_unique with (r := 1); lia.
Qed.

Lemma wrapInt_small (intSize z : Z) :
  0 < intSize ->
  - 2 ^ (intSize - 1) <= z <= maxIntOf intSize ->
  wrapInt intSize z = z.
Proof.
  intros H Hz. rewrite maxIntOf_eq in Hz by assumption.
  unfold wrapInt.
  assert (E : 2 ^ intSize = 2 * 2 ^ (intSize - 1)).
  { rewrite <- Z.pow_succ_r by lia. f_equal. lia. }
  rewrite E. rewrite Z.mod_small; lia.
Qed.

Lemma wrapInt_le (intSize z : Z) :
  0 < intSize -> 0 <= z -> wrapInt intSize z <= z.
Proof.
  intros H Hz. unfold wrapInt.
  assert (0 < 2 ^ (intSize - 1)) by (apply Z.pow_pos_nonneg; lia).
  assert (0 < 2 ^ intSize) by (apply Z.pow_pos_nonneg; lia).
  pose proof (Z.mod_le (z + 2 ^ (intSize - 1)) (2 ^ intSize)).
  lia.
Qed.

Section Generic.

Context {B : Type}.
Variable C : swift.Connection B.
Variable intSize : Z.
Variable encodable : tar.Header -> bool.

Lemma call_trace {A : Type} (ev : Event) (f : B -> A * B) (s : SwiftContainer B) :
  call ev f s
  = (fst (f (conn s)),
     mkSwift (snd (f (conn s))) (cache s) (Container s) (trace s ++ [ev])).
Proof. unfold call. destruct (f (conn s)); reflexivity. Qed.

(** C10: top-level [Put] and [Delete] clear the cache slot before they call
    the object store, so the slot is cleared whatever the call returns:
    the trace is the invalidation followed by the one call on the stripped
    name, the result is the call's result, and the cache keeps its prefix
    and index with an empty name. *)
Theorem C10_put_delete_invalidate_first (k : Key) (val : bytes)
  (s : SwiftContainer B) :
  let invalid := mkCache (prefix (cache s)) (index (cache s)) ""%string in
  let put := swift.ObjectPutBytes C (Container s) (keyToName k) val
               "application/octet-stream"%string (conn s) in
  let del := swift.ObjectDelete C (Container s) (keyToName k) (conn s) in
  (fst (SwiftContainer_Put C k val s) = fst put
   /\ cache (snd (SwiftContainer_Put C k val s)) = invalid
   /\ trace (snd (SwiftContainer_Put C k val s))
      = trace s ++ [CacheInvalidate;
                    CallObjectPutBytes (Container s) (keyToName k) val
                      "application/octet-stream"%string])
  /\ (fst (SwiftContainer_Delete C k s) = fst del
      /\ cache (snd (SwiftContainer_Delete C k s)) = invalid
      /\ trace (snd (SwiftContainer_Delete C k s))
         = trace s ++ [CacheInvalidate;
                       CallObjectDelete (Container s) (keyToName k)]).
Proof.
  unfold SwiftContainer_Put, SwiftContainer_Delete.
  rewrite !call_trace. cbn.
  rewrite <- !app_assoc. cbn. repeat split.
Qed.


(** C9: [GetSize] returns the reported byte count when the object exists
    and the count fits an [int]; the typed not-found error when the object
    is absent; and the explicit "integer overflow" error, which is not the
    not-found error, when the count exceeds the largest [int].  Any other
    error of the store is passed on. *)
Theorem C9_GetSize_outcomes (k : Key) (s : SwiftContainer B) :
  intSize = 32 \/ intSize = 64 ->
  let stat := fst (swift.Object_ C (Container s) (keyToName k) (conn s)) in
  let size := fst (SwiftContainer_GetSize C intSize k s) in
  (forall info, stat = Ok info ->
     - 2 ^ (intSize - 1) <= swift.Bytes info <= maxIntOf intSize ->
     size = Ok (swift.Bytes info))
  /\ (stat = Err ObjectNotFound -> size = Err ErrNotFound)
  /\ (forall info, stat = Ok info ->
        maxIntOf intSize < swift.Bytes info ->
        size = Err (Errorf "integer overflow"%string))
  /\ Errorf "integer overflow"%string <> ErrNotFound
  /\ (forall e, stat = Err e -> e <> ObjectNotFound ->
        size = Err e).
Proof.
  intros Hsz stat size.
  assert (Hpos : 0 < intSize) by lia.
  subst stat size. unfold SwiftContainer_GetSize.
  rewrite call_trace. cbv zeta.
  destruct (swift.Object_ C (Container s) (keyToName k) (conn s)) as [r b'].
  cbn [fst snd]. repeat split.
  - intros info -> Hr.
    destruct (Z.ltb_spec (maxIntOf intSize) (swift.Bytes info)); [lia|].
    cbn [fst]. now rewrite wrapInt_small.
  - intros ->. reflexivity.
  - intros info -> Hr.
    destruct (Z.ltb_spec (maxIntOf intSize) (swift.Bytes info)); [|lia].
    reflexivity.
  - discriminate.
  - intros e -> Hne. destruct e; try reflexivity. congruence.
Qed.


(** ** Batches *)

Lemma appendBody_snoc (es : list tar.Entry) (e : tar.Entry) (b : bytes) :
  tar.appendBody (es ++ [e]) b = es ++ [tar.mkEntry (tar.hdr e) (tar.body e ++ b)].
Proof.
  induction es as [|x es IH]; [reflexivity|].
  cbn [app tar.appendBody]. rewrite IH.
  destruct es; reflexivity.
Qed.

Lemma swiftBatch_Put_idle (k : Key) (val : bytes) (b : swiftBatch)
  (s : SwiftContainer B) :
  idleWriter b ->
  let h := tar.mkHeader tar.TypeReg k (len val) in
  swiftBatch_Put encodable k val b s
  = (if encodable h then None else Some ErrHeader,
     mkBatch (Some (tar.mkWriter
                      (bufferOf b ++ (if encodable h then [tar.mkEntry h val] else []))
                      (tar.trailer (writerOf b)) 0 None))
             (delKeys b),
     s).
Proof.
  intros Hidle h. unfold swiftBatch_Put, bufferOf, writerOf.
  fold h.
  assert (Hw : tar.nb (writerOf b) = 0 /\ tar.err (writerOf b) = None).
  { unfold writerOf. destruct (tarWriter b) as [tw|] eqn:E; [now apply Hidle|].
    split; reflexivity. }
  unfold writerOf in Hw.
  destruct (tarWriter b) as [tw|]; destruct Hw as [Hnb Herr];
    unfold tar.WriteHeader, tar.Flush; rewrite Herr, Hnb; cbn [Z.ltb Z.compare];
    destruct (encodable h) eqn:He.
  - unfold tar.Write. cbn [tar.err tar.nb tar.entries tar.trailer].
    subst h. cbn [tar.Size]. rewrite Z.leb_refl, Z.sub_diag.
    rewrite appendBody_snoc. reflexivity.
  - rewrite app_nil_r. destruct tw; cbn in *; subst; reflexivity.
  - unfold tar.Write. cbn [tar.err tar.nb tar.entries tar.trailer tar.NewWriter].
    subst h. cbn [tar.Size]. rewrite Z.leb_refl, Z.sub_diag.
    reflexivity.
  - reflexivity.
Qed.

Lemma applyOps_spec (ops : list batchOp) :
  forall (b : swiftBatch) (s : SwiftContainer B),
    idleWriter b ->
    snd (applyOps encodable ops b s) = s
    /\ delKeys (fst (applyOps encodable ops b s)) = delKeys b ++ delNames ops
    /\ bufferOf (fst (applyOps encodable ops b s))
       = bufferOf b ++ putRecords encodable ops
    /\ (tarWriter (fst (applyOps encodable ops b s)) = None
        <-> tarWriter b = None /\ existsb isPut ops = false)
    /\ idleWriter (fst (applyOps encodable ops b s)).
Proof.
  induction ops as [|op ops IH]; intros b s Hidle.
  - cbn. rewrite !app_nil_r. intuition.
  - destruct op as [k val|k]; cbn [applyOps].
    + rewrite swiftBatch_Put_idle by assumption. cbv zeta.
      match goal with |- context [applyOps _ _ ?b1 _] => set (b1' := b1) end.
      assert (Hidle1 : idleWriter b1').
      { intros tw E. inversion E; subst. split; reflexivity. }
      destruct (IH b1' s Hidle1) as (Hs & Hd & Hb & Hn & Hi).
      split; [exact Hs|]. split; [exact Hd|]. split; [|split; [|exact Hi]].
      * rewrite Hb. subst b1'. unfold bufferOf at 1. cbn [tarWriter tar.entries].
        rewrite <- app_assoc. cbn [putRecords].
        destruct (encodable _); reflexivity.
      * split.
        -- intros E. apply Hn in E. destruct E as [E _]. discriminate.
        -- intros [_ E]. discriminate.
    + unfold swiftBatch_Delete.
      match goal with |- context [applyOps _ _ ?b1 _] => set (b1' := b1) end.
      assert (Hidle1 : idleWriter b1') by exact Hidle.
      destruct (IH b1' s Hidle1) as (Hs & Hd & Hb & Hn & Hi).
      split; [exact Hs|]. split; [|split; [exact Hb|split; [|exact Hi]]].
      * rewrite Hd. subst b1'. cbn [delKeys delNames]. now rewrite <- app_assoc.
      * exact Hn.
Qed.






(** ** The iterator *)

Lemma loopFrame_refl (it : queryIter) (s : SwiftContainer B) :
  loopFrame it s it s.
Proof. unfold loopFrame. intuition. Qed.

Lemma loopFrame_trans (it1 it2 it3 : queryIter) (s1 s2 s3 : SwiftContainer B) :
  loopFrame it1 s1 it2 s2 -> loopFrame it2 s2 it3 s3 -> loopFrame it1 s1 it3 s3.
Proof.
  unfold loopFrame. intros (A1 & A2 & A3 & A4 & A5 & A6) (B1 & B2 & B3 & B4 & B5 & B6).
  repeat split; try congruence. auto.
Qed.

Lemma loopBody_frame (it : queryIter) (s : SwiftContainer B) r it' s' :
  loopBody C intSize it s = (r, it', s') -> loopFrame it s it' s'.
Proof.
  unfold loopBody. destruct (doneFetching it) eqn:Hd.
  - intros E; inversion E; subst. apply loopFrame_refl.
  - rewrite call_trace.
    destruct (swift.ObjectNames C (Container s) (opts it) (conn s)) as [[newNames|e] b'].
    + cbn [fst snd].
      destruct ((len newNames =? 0) && (len (names it) =? 0)).
      * intros E; inversion E; subst. unfold loopFrame; cbn. intuition congruence.
      * destruct newNames as [|n0 rest].
        -- intros E; inversion E; subst. unfold loopFrame; cbn. intuition congruence.
        -- intros E; inversion E; subst. unfold loopFrame; cbn. intuition congruence.
    + cbn [fst snd]. intros E; inversion E; subst.
      unfold loopFrame; cbn. intuition congruence.
Qed.

Lemma Next_loop_eq (fuel : nat) (it : queryIter) (s : SwiftContainer B) :
  Next_loop C intSize fuel it s
  = if (len (names it) =? 0) || (0 <? offset it) then
      match fuel with
      | O => (LoopFuel, it, s)
      | S fuel' =>
          match loopBody C intSize it s with
          | (Some r, it1, s1) => (r, it1, s1)
          | (None, it1, s1) => Next_loop C intSize fuel' it1 s1
          end
      end
    else (LoopExit, it, s).
Proof. destruct fuel; reflexivity. Qed.

Lemma Next_loop_frame (fuel : nat) :
  forall (it : queryIter) (s : SwiftContainer B) r it' s',
    Next_loop C intSize fuel it s = (r, it', s') -> loopFrame it s it' s'.
Proof.
  induction fuel as [|fuel IH]; intros it s r it' s'; rewrite Next_loop_eq;
    destruct ((len (names it) =? 0) || (0 <? offset it)).
  - intros E; inversion E; subst. apply loopFrame_refl.
  - intros E; inversion E; subst. apply loopFrame_refl.
  - destruct (loopBody C intSize it s) as [[[r1|] it1] s1] eqn:Eb.
    + intros E; inversion E; subst. eapply loopBody_frame; eassumption.
    + intros E. eapply loopFrame_trans.
      * eapply loopBody_frame; eassumption.
      * eapply IH; eassumption.
  - intros E; inversion E; subst. apply loopFrame_refl.
Qed.

Lemma Next_loop_exit (fuel : nat) :
  forall (it : queryIter) (s : SwiftContainer B) it' s',
    Next_loop C intSize fuel it s = (LoopExit, it', s') ->
    names it' <> [] /\ offset it' <= 0.
Proof.
  induction fuel as [|fuel IH]; intros it s it' s'; rewrite Next_loop_eq;
    destruct ((len (names it) =? 0) || (0 <? offset it)) eqn:Hc;
    try discriminate.
  - intros E; inversion E; subst.
    apply orb_false_iff in Hc. destruct Hc as [H1 H2].
    apply Z.eqb_neq in H1. apply Z.ltb_ge in H2. split; [|exact H2].
    intros E'. apply H1. rewrite E'. reflexivity.
  - destruct (loopBody C intSize it s) as [[[r1|] it1] s1] eqn:Eb.
    + intros E; inversion E; subst.
      unfold loopBody in Eb. destruct (doneFetching it); [discriminate|].
      rewrite call_trace in Eb.
      destruct (swift.ObjectNames C (Container s) (opts it) (conn s)) as [[newNames|e] b'];
        cbn [fst snd] in Eb; [|discriminate].
      destruct ((len newNames =? 0) && (len (names it) =? 0)); [discriminate|].
      destruct newNames; discriminate.
    + intros E. eapply IH; eassumption.
  - intros E; inversion E; subst.
    apply orb_false_iff in Hc. destruct Hc as [H1 H2].
    apply Z.eqb_neq in H1. apply Z.ltb_ge in H2. split; [|exact H2].
    intros E'. apply H1. rewrite E'. reflexivity.
Qed.

(** The state of the iterator after an emission. *)
Lemma emit_cache (it1 : queryIter) (s1 : SwiftContainer B) r it2 s2 :
  emit C intSize it1 s1 = (r, it2, s2) ->
  q it2 = q it1
  /\ Container s2 = Container s1
  /\ doneFetching it2 = doneFetching it1
  /\ (cache s2 = cache s1 \/ settled it2).
Proof.
  unfold emit. destruct (names it1) as [|n names1] eqn:En.
  - intros E; inversion E; subst. intuition.
  - cbv zeta.
    set (count1 := wrapInt intSize (count it1 + 1)).
    set (opts1 := if _ : bool then _ else opts it1).
    set (guard := doneFetching it1 || _).
    assert (Hs : forall s', s' = (if guard then storeCache (swift.Prefix opts1)
                          (wrapInt intSize (dsq.Offset (q it1) + count1)) n s1 else s1) ->
                 Container s' = Container s1 /\
                 (cache s' = cache s1 \/
                  settled (mkIter (q it1) opts1 (offset it1) count1 names1 (doneFetching it1)))).
    { intros s' ->. destruct guard eqn:Hg.
      - split; [reflexivity|]. right. unfold settled. cbn.
        subst guard. apply orb_true_iff in Hg. destruct Hg as [Hg|Hg]; [now left|].
        right. apply andb_true_iff in Hg. destruct Hg as [G1 G2].
        apply Z.ltb_lt in G1. apply Z.eqb_eq in G2. split; assumption.
      - split; [reflexivity|]. now left. }
    destruct (dsq.KeysOnly (q it1)).
    + intros E; inversion E; subst. cbn.
      destruct (Hs _ eq_refl) as [H1 H2].
      repeat split; assumption.
    + rewrite call_trace.
      match goal with |- context [swift.ObjectGetBytes C ?c ?n ?b] =>
        destruct (swift.ObjectGetBytes C c n b) as [[v|e] b'] end;
      cbn [fst snd]; intros E; inversion E; subst; cbn;
      destruct (Hs _ eq_refl) as [H1 H2];
      (repeat split; assumption).
Qed.

Lemma Next_settled (it : queryIter) (s : SwiftContainer B) r it' s' :
  Next C intSize it s = (r, it', s') ->
  q it' = q it
  /\ Container s' = Container s
  /\ (settled it -> settled it')
  /\ (cache s' = cache s \/ settled it').
Proof.
  unfold Next.
  destruct (negb (dsq.Limit (q it) =? 0) && (count it =? dsq.Limit (q it))) eqn:Hlim.
  - intros E; inversion E; subst. intuition.
  - destruct (Next_loop C intSize (S (Z.to_nat (offset it))) it s)
      as [[lr it1] s1] eqn:El.
    pose proof (Next_loop_frame _ _ _ _ _ _ El) as (F1 & F2 & F3 & F4 & F5 & F6).
    assert (Hset : settled it -> doneFetching it1 = true).
    { intros [Hd|[Hl Hc]]; [auto|].
      exfalso. rewrite Hc, Z.eqb_refl in Hlim.
      destruct (Z.eqb_spec (dsq.Limit (q it)) 0); [lia|discriminate]. }
    assert (Hset1 : settled it -> settled it1) by (intros H; left; auto).
    destruct lr.
    + intros E; inversion E; subst. repeat split; try assumption. now left.
    + intros E. apply emit_cache in E. destruct E as (E1 & E2 & E3 & E4).
      split; [congruence|]. split; [congruence|]. split.
      * intros Hs. left. rewrite E3. auto.
      * destruct E4 as [E4|E4]; [left; congruence|now right].
    + intros E; inversion E; subst. repeat split; try assumption. now left.
    + intros E; inversion E; subst. repeat split; try assumption. now left.
Qed.

Lemma takeThenClose_cache (n : nat) :
  forall (it : queryIter) (s : SwiftContainer B) (c0 : QueryCache),
    cache s = c0 \/ settled it ->
    let out := takeThenClose C intSize n it s in
    names (snd (fst out)) = []
    /\ q (snd (fst out)) = q it
    /\ (cache (snd out) = c0 \/ settled (snd (fst out))).
Proof.
  induction n as [|n IH]; intros it s c0 H0; cbn [takeThenClose].
  - cbn. repeat split. destruct H0 as [H0|H0]; [now left|right; exact H0].
  - destruct (Next C intSize it s) as [[r it1] s1] eqn:En.
    destruct (Next_settled _ _ _ _ _ En) as (N1 & N2 & N3 & N4).
    assert (H1 : cache s1 = c0 \/ settled it1).
    { destruct H0 as [H0|H0]; [|right; auto].
      destruct N4 as [N4|N4]; [left; congruence|now right]. }
    assert (Hclose : let out := Close it1 s1 in
              names (snd (fst out)) = [] /\ q (snd (fst out)) = q it
              /\ (cache (snd out) = c0 \/ settled (snd (fst out)))).
    { cbn. repeat split; [assumption|]. exact H1. }
    destruct r as [r ok| |]; try exact Hclose.
    destruct ok; [|exact Hclose].
    specialize (IH it1 s1 c0 H1). cbv zeta in IH.
    destruct (takeThenClose C intSize n it1 s1) as [[es it2] s2].
    cbn in *. destruct IH as (I1 & I2 & I3). repeat split; [assumption|congruence|assumption].
Qed.

Lemma loopBody_return (it : queryIter) (s : SwiftContainer B) r ok it' s' :
  loopBody C intSize it s = (Some (LoopReturn r ok), it', s') -> ok = false.
Proof.
  unfold loopBody. destruct (doneFetching it); [intros E; now inversion E|].
  rewrite call_trace.
  destruct (swift.ObjectNames C (Container s) (opts it) (conn s))
    as [[newNames|e] b']; cbn [fst snd]; [|intros E; now inversion E].
  destruct ((len newNames =? 0) && (len (names it) =? 0));
    [intros E; now inversion E|].
  destruct newNames; discriminate.
Qed.

Lemma Next_loop_return (fuel : nat) :
  forall (it : queryIter) (s : SwiftContainer B) r ok it' s',
    Next_loop C intSize fuel it s = (LoopReturn r ok, it', s') -> ok = false.
Proof.
  induction fuel as [|fuel IH]; intros it s r ok it' s'; rewrite Next_loop_eq;
    destruct ((len (names it) =? 0) || (0 <? offset it)); try discriminate.
  destruct (loopBody C intSize it s) as [[[r1|] it1] s1] eqn:Eb.
  - intros E; inversion E; subst. eapply loopBody_return; eassumption.
  - intros E. eapply IH; eassumption.
Qed.

(** An emission that hands out an entry stores the cursor on the entry's
    name exactly when, after it, the listing is known to be exhausted or
    the limit is reached. *)
Lemma emit_store (it1 : queryIter) (s1 : SwiftContainer B) r it2 s2 :
  emit C intSize it1 s1 = (Yield r true, it2, s2) ->
  (settled it2 ->
   cache s2 = mkCache (swift.Prefix (opts it1))
                (wrapInt intSize (dsq.Offset (q it1) + count it2))
                (keyToName (dsq.Key (dsq.entry r))))
  /\ (~ settled it2 -> cache s2 = cache s1).
Proof.
  unfold emit. destruct (names it1) as [|n names1] eqn:En; [discriminate|].
  cbv zeta.
  set (count1 := wrapInt intSize (count it1 + 1)).
  set (opts1 := if _ : bool then _ else opts it1).
  assert (Hp : swift.Prefix opts1 = swift.Prefix (opts it1)).
  { subst opts1. match goal with |- context [if ?b then _ else _] => destruct b end;
      reflexivity. }
  set (guard := doneFetching it1 || _).
  set (it2' := mkIter _ _ _ _ _ _).
  assert (Hg : guard = true <-> settled it2').
  { subst guard it2'. unfold settled. cbn [doneFetching q count].
    rewrite orb_true_iff, andb_true_iff, Z.ltb_lt, Z.eqb_eq. reflexivity. }
  assert (Hs : forall s',
             s' = (if guard
                   then storeCache (swift.Prefix opts1)
                          (wrapInt intSize (dsq.Offset (q it1) + count1)) n s1
                   else s1) ->
             (settled it2' ->
              cache s' = mkCache (swift.Prefix (opts it1))
                           (wrapInt intSize (dsq.Offset (q it1) + count1)) n)
             /\ (~ settled it2' -> cache s' = cache s1)).
  { intros s' ->. destruct guard.
    - split; [intros _; cbn; now rewrite Hp|].
      intros H. exfalso. apply H, Hg. reflexivity.
    - split; [|reflexivity].
      intros H. apply Hg in H. discriminate. }
  destruct (dsq.KeysOnly (q it1)).
  - intros E; inversion E; subst. cbn [dsq.Key dsq.entry keyToName trimSlash].
    now apply Hs.
  - rewrite call_trace.
    match goal with |- context [swift.ObjectGetBytes C ?c ?n ?b] =>
      destruct (swift.ObjectGetBytes C c n b) as [[v|e] b'] end;
      cbn [fst snd]; intros E; inversion E; subst.
    cbn [dsq.Key dsq.entry keyToName trimSlash cache]. now apply Hs.
Qed.

Lemma Next_store (it : queryIter) (s : SwiftContainer B) r it' s' :
  Next C intSize it s = (Yield r true, it', s') ->
  (settled it' ->
   cache s' = mkCache (swift.Prefix (opts it))
                (wrapInt intSize (dsq.Offset (q it) + count it'))
                (keyToName (dsq.Key (dsq.entry r))))
  /\ (~ settled it' -> cache s' = cache s).
Proof.
  unfold Next.
  destruct (negb (dsq.Limit (q it) =? 0) && (count it =? dsq.Limit (q it)));
    [discriminate|].
  destruct (Next_loop C intSize (S (Z.to_nat (offset it))) it s)
    as [[lr it1] s1] eqn:El.
  pose proof (Next_loop_frame _ _ _ _ _ _ El) as (F1 & F2 & F3 & F4 & F5 & F6).
  destruct lr; try discriminate.
  - intros E; inversion E; subst. apply Next_loop_return in El. discriminate.
  - intros E. apply emit_store in E. rewrite F1, F3, F4 in E. exact E.
Qed.

(** C5: closing the result sequence clears the buffered names and does
    nothing else: no call, no cache write.  The cache is written by
    emissions: a call of [Next] that hands out an entry stores the
    normalized prefix, requestedOffset + count and the entry's name exactly
    when, after it, the listing is known to be exhausted or the non-zero
    limit is reached, and leaves the cache as it was otherwise; no call of
    [Next] changes the cache unless one of the two holds after it.  For a
    consumer that takes any number of results and then closes, the cache
    still has the value it had before if, at that point, the listing is not
    known to be exhausted and the limit is not reached. *)
Theorem C5_close_frame (n : nat) (it : queryIter) (s : SwiftContainer B) :
  let out := takeThenClose C intSize n it s in
  Close it s
  = (None, mkIter (q it) (opts it) (offset it) (count it) [] (doneFetching it), s)
  /\ names (snd (fst out)) = []
  /\ (doneFetching (snd (fst out)) = false ->
      ~ (0 < dsq.Limit (q it) /\ count (snd (fst out)) = dsq.Limit (q it)) ->
      cache (snd out) = cache s)
  /\ (forall r it' s',
      Next C intSize it s = (Yield r true, it', s') ->
      (settled it' ->
       cache s' = mkCache (swift.Prefix (opts it))
                    (wrapInt intSize (dsq.Offset (q it) + count it'))
                    (keyToName (dsq.Key (dsq.entry r))))
      /\ (~ settled it' -> cache s' = cache s))
  /\ (forall r it' s',
      Next C intSize it s = (r, it', s') ->
      cache s' = cache s \/ settled it').
Proof.
  intros out. split; [reflexivity|].
  destruct (takeThenClose_cache n it s (cache s) (or_introl eq_refl))
    as (H1 & H2 & H3).
  fold out in H1, H2, H3. split; [exact H1|]. split; [|split].
  - intros Hd Hl. destruct H3 as [H3|[H3|[H3 H4]]]; [exact H3|congruence|].
    exfalso. apply Hl. rewrite <- H2. split; assumption.
  - intros r it' s' E. eapply Next_store; eassumption.
  - intros r it' s' E. eapply Next_settled; eassumption.
Qed.


(** ** Keys and names *)






End Generic.

(** ** Lists indexed by [int] *)

Section ZList.

Context {A : Type}.
Implicit Types l : list A.

Lemma len_nonneg l : 0 <= len l.
Proof. unfold len. lia. Qed.

Lemma len_app l1 l2 : len (l1 ++ l2) = len l1 + len l2.
Proof. unfold len. rewrite length_app. lia. Qed.

Lemma len_zero l : len l = 0 -> l = [].
Proof. unfold len. destruct l; [reflexivity|cbn; lia]. Qed.

Lemma len_cons (a : A) l : len (a :: l) = 1 + len l.
Proof. unfold len. cbn [List.length]. lia. Qed.

Lemma len_ztake z l : 0 <= z -> len (ztake z l) = Z.min z (len l).
Proof. intros H. unfold len, ztake. rewrite length_firstn. lia. Qed.

Lemma len_zdrop z l : 0 <= z -> len (zdrop z l) = Z.max 0 (len l - z).
Proof. intros H. unfold len, zdrop. rewrite length_skipn. lia. Qed.

Lemma ztake_zdrop z l : ztake z l ++ zdrop z l = l.
Proof. apply firstn_skipn. Qed.

Lemma zdrop_0 z l : z <= 0 -> zdrop z l = l.
Proof. intros H. unfold zdrop. replace (Z.to_nat z) with O by lia. reflexivity. Qed.

Lemma zdrop_all z l : len l <= z -> zdrop z l = [].
Proof. intros H. unfold zdrop, len in *. apply skipn_all2. lia. Qed.

Lemma ztake_all z l : len l <= z -> ztake z l = l.
Proof. intros H. unfold ztake, len in *. apply firstn_all2. lia. Qed.

Lemma zdrop_nil_inv z l : 0 <= z -> zdrop z l = [] -> len l <= z.
Proof.
  intros Hz H. pose proof (len_zdrop z l Hz) as E. rewrite H in E.
  unfold len in E at 1. cbn in E. lia.
Qed.

Lemma zdrop_zdrop a b l :
  0 <= a -> 0 <= b -> zdrop a (zdrop b l) = zdrop (a + b) l.
Proof.
  intros Ha Hb. unfold zdrop. rewrite skipn_skipn. f_equal. lia.
Qed.

Lemma zdrop_app_ge a l1 l2 :
  len l1 <= a -> zdrop a (l1 ++ l2) = zdrop (a - len l1) l2.
Proof.
  intros H. unfold zdrop, len in *. rewrite skipn_app.
  rewrite skipn_all2 by lia. cbn [app]. f_equal. lia.
Qed.

Lemma zdrop_app_le a l1 l2 :
  0 <= a <= len l1 -> zdrop a (l1 ++ l2) = zdrop a l1 ++ l2.
Proof.
  intros H. unfold zdrop, len in *. rewrite skipn_app.
  replace (Z.to_nat a - List.length l1)%nat with O by lia. reflexivity.
Qed.

Lemma firstn_plus (a n : nat) :
  forall l, firstn a l ++ firstn n (skipn a l) = firstn (a + n) l.
Proof.
  induction a as [|a IH]; intros l; [reflexivity|].
  destruct l as [|x l]; [now rewrite !firstn_nil|].
  cbn [Nat.add firstn skipn app]. now rewrite IH.
Qed.

Lemma ztake_app_zdrop a n l :
  0 <= a -> 0 <= n -> ztake a l ++ ztake n (zdrop a l) = ztake (a + n) l.
Proof.
  intros Ha Hn. unfold ztake, zdrop. rewrite firstn_plus. f_equal. lia.
Qed.

Lemma zdrop_head a l x r :
  0 <= a -> zdrop a l = x :: r -> zdrop (a + 1) l = r.
Proof.
  intros Ha H. rewrite Z.add_comm, <- zdrop_zdrop by lia. rewrite H.
  reflexivity.
Qed.

Lemma ztake_ztake a b l : ztake a (ztake b l) = ztake (Z.min a b) l.
Proof.
  unfold ztake. rewrite firstn_firstn. f_equal. lia.
Qed.

Lemma zdrop_ztake a b l :
  0 <= a -> zdrop a (ztake b l) = ztake (b - a) (zdrop a l).
Proof.
  intros Ha. unfold zdrop, ztake. rewrite skipn_firstn_comm. f_equal. lia.
Qed.

Lemma ztake_head n l x r :
  0 < n -> l = x :: r -> ztake n l = x :: ztake (n - 1) r.
Proof.
  intros Hn ->. unfold ztake.
  replace (Z.to_nat n) with (S (Z.to_nat (n - 1))) by lia. reflexivity.
Qed.

Lemma ztake_nonpos n l : n <= 0 -> ztake n l = [].
Proof. intros H. unfold ztake. replace (Z.to_nat n) with O by lia. reflexivity. Qed.

End ZList.

(** ** The order of names *)

Lemma compare_refl (a : string) : String.compare a a = Eq.
Proof.
  induction a as [|c a IH]; [reflexivity|].
  cbn. unfold Ascii.compare. rewrite N.compare_refl. exact IH.
Qed.

Lemma ltb_irrefl (a : string) : String.ltb a a = false.
Proof. unfold String.ltb. now rewrite compare_refl. Qed.

Lemma ltb_asym (a b : string) : String.ltb a b = true -> String.ltb b a = false.
Proof.
  unfold String.ltb. rewrite (String.compare_antisym b a).
  destruct (String.compare a b); cbn; congruence.
Qed.

Lemma ltb_trans (a b c : string) :
  String.ltb a b = true -> String.ltb b c = true -> String.ltb a c = true.
Proof.
  unfold String.ltb. intros H1 H2.
  destruct (String.compare a b) eqn:E1; try discriminate.
  destruct (String.compare b c) eqn:E2; try discriminate.
  apply String_as_OT.cmp_lt in E1. apply String_as_OT.cmp_lt in E2.
  pose proof (String_as_OT.lt_trans _ _ _ E1 E2) as E3.
  apply String_as_OT.cmp_lt in E3. unfold String_as_OT.cmp in E3.
  now rewrite E3.
Qed.

(** ** Listings of the in-memory container *)

Lemma StronglySorted_filter {A : Type} (R : A -> A -> Prop) (f : A -> bool)
  (l : list A) :
  StronglySorted R l -> StronglySorted R (filter f l).
Proof.
  induction 1 as [|a l Hs IH Ha]; cbn [filter]; [constructor|].
  destruct (f a); [|exact IH].
  constructor; [exact IH|].
  rewrite Forall_forall in *. intros x Hx. apply filter_In in Hx.
  apply Ha. tauto.
Qed.

Lemma StronglySorted_middle {A : Type} (R : A -> A -> Prop) (l1 : list A) :
  forall x l2,
    StronglySorted R (l1 ++ x :: l2) ->
    Forall (fun y => R y x) l1 /\ Forall (R x) l2.
Proof.
  induction l1 as [|a l1 IH]; intros x l2 H.
  - apply StronglySorted_inv in H. split; [constructor|tauto].
  - cbn [app] in H. apply StronglySorted_inv in H. destruct H as [H Ha].
    destruct (IH _ _ H) as [H1 H2]. split; [|exact H2].
    constructor; [|exact H1].
    rewrite Forall_forall in Ha. apply Ha. apply in_or_app. right. now left.
Qed.

Lemma filter_filter {A : Type} (f g : A -> bool) (l : list A) :
  filter f (filter g l) = filter (fun x => g x && f x) l.
Proof.
  induction l as [|a l IH]; [reflexivity|]. cbn [filter].
  destruct (g a); cbn [filter andb]; [|exact IH].
  destruct (f a); now rewrite IH.
Qed.

Lemma filter_none {A : Type} (f : A -> bool) (l : list A) :
  Forall (fun x => f x = false) l -> filter f l = [].
Proof.
  induction 1 as [|a l Ha Hl IH]; [reflexivity|].
  cbn [filter]. now rewrite Ha.
Qed.

Lemma filter_all {A : Type} (f : A -> bool) (l : list A) :
  Forall (fun x => f x = true) l -> filter f l = l.
Proof.
  induction 1 as [|a l Ha Hl IH]; [reflexivity|].
  cbn [filter]. now rewrite Ha, IH.
Qed.

Section Listing.

Variable st : memState.
Variable p : string.
Hypothesis Hwf : wfStore st.

Lemma listing_sorted (m : string) :
  StronglySorted (fun a b => String.ltb a b = true) (listing p m st).
Proof. apply StronglySorted_filter. apply Hwf. Qed.

Lemma listing_In (m x : string) :
  In x (listing p m st) ->
  In x (map fst st) /\ x <> ""%string /\ listed p m x = true.
Proof.
  unfold listing. intros H. apply filter_In in H. destruct H as [H1 H2].
  repeat split; try assumption.
  destruct Hwf as [_ Hne]. rewrite Forall_forall in Hne. now apply Hne.
Qed.

Lemma memGet_In (x : string) :
  In x (map fst st) -> exists v, memGet x st = Some v.
Proof.
  clear Hwf. induction st as [|[m w] rest IH]; cbn; [tauto|].
  intros [H|H].
  - subst m. rewrite String.eqb_refl. now exists w.
  - destruct (String.eqb x m); [now exists w|now apply IH].
Qed.

(** Listing after a name that was listed gives what followed it. *)
Lemma listing_after (m x : string) (S1 S2 : list string) :
  listing p m st = S1 ++ x :: S2 -> listing p x st = S2.
Proof.
  intros HS.
  assert (Hx : In x (listing p m st)).
  { rewrite HS. apply in_or_app. right. now left. }
  apply listing_In in Hx. destruct Hx as (_ & Hne & Hlx).
  pose proof (listing_sorted m) as Hs. rewrite HS in Hs.
  apply StronglySorted_middle in Hs. destruct Hs as [Hs1 Hs2].
  assert (E : listing p x st = filter (String.ltb x) (listing p m st)).
  { unfold listing. rewrite filter_filter. apply filter_ext_in.
    intros n _. unfold listed in *.
    apply String.eqb_neq in Hne. rewrite Hne. cbn [orb].
    destruct (String.prefix p n); cbn [andb]; [|reflexivity].
    destruct (String.ltb x n) eqn:Hxn; [|now rewrite andb_false_r].
    rewrite andb_true_r. symmetry.
    apply andb_true_iff in Hlx. destruct Hlx as [_ Hlx].
    apply orb_true_iff in Hlx. apply orb_true_iff.
    destruct Hlx as [Hlx|Hlx]; [now left|right].
    eapply ltb_trans; eassumption. }
  rewrite E, HS, filter_app. cbn [filter]. rewrite ltb_irrefl.
  rewrite filter_none, filter_all; [reflexivity|exact Hs2|].
  eapply Forall_impl; [|exact Hs1]. cbn. intros a. apply ltb_asym.
Qed.

End Listing.

(** ** The fetch loop ends *)

Section Termination.

Context {B : Type}.
Variable C : swift.Connection B.
Variable intSize : Z.

Lemma loopBody_progress (it : queryIter) (s : SwiftContainer B) it' s' :
  0 < intSize ->
  loopBody C intSize it s = (None, it', s') ->
  (names it' <> [] /\ offset it' <= 0)
  \/ (0 < offset it /\ offset it' < offset it)
  \/ (names it <> [] /\ offset it' <= 0).
Proof.
  intros Hsz. unfold loopBody. destruct (doneFetching it); [discriminate|].
  rewrite call_trace.
  destruct (swift.ObjectNames C (Container s) (opts it) (conn s))
    as [[newNames|e] b']; cbn [fst snd]; [|discriminate].
  destruct ((len newNames =? 0) && (len (names it) =? 0)); [discriminate|].
  destruct newNames as [|n0 rest] eqn:En; [discriminate|].
  rewrite <- En. intros E; inversion E; subst it' s'; clear E.
  cbn [names offset].
  assert (Hlen : 0 < len newNames) by (rewrite En, len_cons; pose proof (len_nonneg rest); lia).
  destruct (Z.ltb_spec 0 (offset it)) as [Hpos|Hpos].
  - destruct (Z.ltb_spec (offset it) (len newNames)) as [Hlt|Hge].
    + left. split; [|lia]. intros Happ. apply app_eq_nil in Happ.
      destruct Happ as [_ Hskip].
      apply (f_equal len) in Hskip. change (len (@nil string)) with 0 in Hskip.
      change (skipn (Z.to_nat (offset it)) newNames) with (zdrop (offset it) newNames) in Hskip.
      rewrite len_zdrop in Hskip by lia. lia.
    + right. left. split; [exact Hpos|].
      pose proof (wrapInt_le intSize (offset it - len newNames) Hsz). lia.
  - destruct (names it) as [|a l] eqn:Enames.
    + left. cbn [app]. split; [rewrite En; discriminate|exact Hpos].
    + right. right. split; [discriminate|exact Hpos].
Qed.

Lemma Next_loop_fuel (fuel : nat) :
  0 < intSize ->
  forall (it : queryIter) (s : SwiftContainer B),
    (names it <> [] /\ offset it <= 0) \/ (Z.to_nat (offset it) < fuel)%nat ->
    fst (fst (Next_loop C intSize fuel it s)) <> LoopFuel.
Proof.
  intros Hsz. induction fuel as [|fuel IH]; intros it s Hf; rewrite Next_loop_eq;
    destruct ((len (names it) =? 0) || (0 <? offset it)) eqn:Hb;
    try (cbn; discriminate).
  - exfalso. apply orb_true_iff in Hb. destruct Hf as [[H1 H2]|H]; [|lia].
    destruct Hb as [Hb|Hb].
    + apply Z.eqb_eq, len_zero in Hb. contradiction.
    + apply Z.ltb_lt in Hb. lia.
  - destruct (loopBody C intSize it s) as [[[r|] it1] s1] eqn:Eb.
    + cbn [fst]. unfold loopBody in Eb.
      destruct (doneFetching it); [inversion Eb; discriminate|].
      rewrite call_trace in Eb.
      destruct (swift.ObjectNames C (Container s) (opts it) (conn s))
        as [[newNames|e] b']; cbn [fst snd] in Eb; [|inversion Eb; discriminate].
      destruct ((len newNames =? 0) && (len (names it) =? 0));
        [inversion Eb; discriminate|].
      destruct newNames; inversion Eb; discriminate.
    + apply IH.
      destruct (loopBody_progress it s it1 s1 Hsz Eb) as [H|[[H1 H2]|[H1 H2]]].
      * left. exact H.
      * right. destruct Hf as [[F1 F2]|F]; lia.
      * (* a buffer that was not empty: the loop ran for the skip only *)
        apply orb_true_iff in Hb. destruct Hb as [Hb|Hb].
        -- apply Z.eqb_eq, len_zero in Hb. contradiction.
        -- left. split; [|exact H2].
           unfold loopBody in Eb. destruct (doneFetching it); [discriminate|].
           rewrite call_trace in Eb.
           destruct (swift.ObjectNames C (Container s) (opts it) (conn s))
             as [[newNames|e] b']; cbn [fst snd] in Eb; [|discriminate].
           destruct ((len newNames =? 0) && (len (names it) =? 0)); [discriminate|].
           destruct newNames; [discriminate|].
           inversion Eb; subst. cbn [names]. intros Happ.
           apply app_eq_nil in Happ. destruct Happ as [Happ _]. contradiction.
Qed.

(** [Next] always comes back: the fetch loop ends within the iterations its
    residual skip allows. *)
Lemma Next_returns (it : queryIter) (s : SwiftContainer B) :
  0 < intSize ->
  fst (fst (Next C intSize it s)) <> Diverge.
Proof.
  intros Hsz. unfold Next.
  destruct (negb (dsq.Limit (q it) =? 0) && (count it =? dsq.Limit (q it)));
    [cbn; discriminate|].
  pose proof (Next_loop_fuel (Datatypes.S (Z.to_nat (offset it))) Hsz it s
                (or_intror (Nat.lt_succ_diag_r _))) as H.
  destruct (Next_loop C intSize (Datatypes.S (Z.to_nat (offset it))) it s)
    as [[lr it1] s1].
  cbn [fst] in H. destruct lr; try (cbn; discriminate); [|contradiction].
  unfold emit. destruct (names it1); [cbn [fst]; discriminate|].
  cbv zeta. destruct (dsq.KeysOnly (q it1)); [cbn [fst]; discriminate|].
  rewrite call_trace.
  match goal with |- context [swift.ObjectGetBytes C ?c ?n ?b] =>
    destruct (swift.ObjectGetBytes C c n b) as [[v|e] b'] end;
    cbn [fst]; discriminate.
Qed.

End Termination.

(** ** Paging over the in-memory container *)

Lemma ztake_min {A : Type} (z : Z) (l : list A) :
  0 <= z -> ztake z l = ztake (Z.min z (len l)) l.
Proof.
  intros Hz. destruct (Z.le_gt_cases z (len l)) as [H|H].
  - now rewrite Z.min_l.
  - rewrite Z.min_r by lia. rewrite !ztake_all; [reflexivity|lia|lia].
Qed.

Lemma last_split {A : Type} (l : list A) (d : A) :
  l <> [] -> l = removelast l ++ [last l d].
Proof. intros H. now apply app_removelast_last. Qed.

Lemma maxIntOf_big (intSize : Z) :
  intSize = 32 \/ intSize = 64 -> 2147483647 <= maxIntOf intSize.
Proof.
  intros [->| ->]; vm_compute; discriminate.
Qed.

Lemma wrapInt_id (intSize z : Z) :
  intSize = 32 \/ intSize = 64 ->
  - maxIntOf intSize <= z <= maxIntOf intSize ->
  wrapInt intSize z = z.
Proof.
  intros Hs Hz. apply wrapInt_small; [lia|].
  rewrite maxIntOf_eq in * by lia. lia.
Qed.

Section Paging.

Variable intSize : Z.
Variable st : memState.
Variable S : list string.
Variable o : Z.
Hypothesis Hwf : wfStore st.
Hypothesis HSin : forall x, In x S -> In x (map fst st).

(** The page the container returns for the iterator's options. *)
Lemma page_fetched (it : queryIter) (pos : Z) :
  pagingInv st S o it pos ->
  let page := memNames (opts it) st in
  let newLen := Z.min (swift.Limit (opts it)) (len S - pos) in
  len page = newLen
  /\ ztake pos S ++ page = ztake (pos + newLen) S
  /\ (page <> [] ->
      listing (swift.Prefix (opts it)) (last page ""%string) st
      = zdrop (pos + newLen) S).
Proof.
  intros I page newLen.
  destruct I as [Im Ip _ _ _ _ _ Il _ _].
  assert (Epage : page = ztake newLen (zdrop pos S)).
  { subst page newLen. unfold memNames, pageOf, memListingDefault.
    rewrite Im. fold (@ztake string).
    destruct (Z.ltb_spec 0 (swift.Limit (opts it))); [|lia].
    destruct (Z.leb_spec (swift.Limit (opts it)) 10000); [|lia].
    cbn [andb]. change (firstn (Z.to_nat ?z) ?l) with (ztake z l).
    rewrite (ztake_min (swift.Limit (opts it))) by lia.
    rewrite len_zdrop by lia. f_equal. lia. }
  assert (Hlen : len page = newLen).
  { rewrite Epage, len_ztake, len_zdrop by lia. lia. }
  split; [exact Hlen|]. split.
  - rewrite Epage. apply ztake_app_zdrop; lia.
  - intros Hne.
    apply (listing_after st (swift.Prefix (opts it)) Hwf
             (swift.Marker (opts it)) (last page ""%string) (removelast page)).
    rewrite Im. rewrite <- (ztake_zdrop newLen (zdrop pos S)) at 1.
    rewrite <- Epage. rewrite (last_split page ""%string Hne) at 1.
    rewrite <- app_assoc. cbn [app]. f_equal. f_equal.
    rewrite zdrop_zdrop by lia. f_equal. lia.
Qed.


Lemma loopBody_memConn (it : queryIter) (s : SwiftContainer memState) :
  loopBody memConn intSize it s
  = if doneFetching it then (Some (LoopReturn dsq.noResult false), it, s)
    else
      let s1 := mkSwift (conn s) (cache s) (Container s)
                  (trace s ++ [CallObjectNames (Container s) (opts it)]) in
      let newNames := memNames (opts it) (conn s) in
      let newLen := len newNames in
      let done := if newLen <? swift.Limit (opts it)
                  then true else doneFetching it in
      if (newLen =? 0) && (len (names it) =? 0)
      then (Some (LoopReturn dsq.noResult false),
            mkIter (q it) (opts it) (offset it) (count it) (names it) done, s1)
      else
        match newNames with
        | [] => (Some LoopPanic,
                 mkIter (q it) (opts it) (offset it) (count it) (names it) done,
                 s1)
        | _ :: _ =>
            (None,
             mkIter (q it)
               (swift.mkOpts (swift.Prefix (opts it)) (last newNames ""%string)
                             (swift.Limit (opts it)))
               (if 0 <? offset it
                then if offset it <? newLen then 0
                     else wrapInt intSize (offset it - newLen)
                else offset it)
               (count it)
               (names it ++
                (if 0 <? offset it
                 then if offset it <? newLen
                      then skipn (Z.to_nat (offset it)) newNames else []
                 else newNames))
               done,
             s1)
        end.
Proof.
  unfold loopBody. destruct (doneFetching it); [reflexivity|].
  rewrite call_trace. reflexivity.
Qed.

Lemma loopBody_paging (it : queryIter) (s : SwiftContainer memState) (pos : Z) :
  pagingInv st S o it pos ->
  inRange intSize (q it) o S ->
  conn s = st ->
  names it = [] \/ 0 < offset it ->
  dsq.Limit (q it) = 0 \/ count it < dsq.Limit (q it) ->
  exists r it' s' pos',
    loopBody memConn intSize it s = (r, it', s')
    /\ pagingInv st S o it' pos'
    /\ conn s' = st
    /\ ((r = None
         /\ (offset it' < offset it \/ (names it' <> [] /\ offset it' = 0)))
        \/ (r = Some (LoopReturn dsq.noResult false) /\ len S <= o + count it)).
Proof.
  intros I R Hc Hloop Hlim.
  pose proof (page_fetched it pos I) as Hpage. cbv zeta in Hpage.
  destruct Hpage as (Hlen & Happ & Hmark).
  pose proof I as [Im Ip Ic Iq Ie Io In Il Iopen Idone].
  destruct R as [Rint Rskip Rlimit Roffset Rend Rindex].
  pose proof (maxIntOf_big intSize Rint) as Hmax.
  pose proof (len_nonneg S) as HS.
  assert (Hnames0 : names it = []).
  { destruct Hloop as [H|H]; [exact H|].
    rewrite In. apply zdrop_all. rewrite len_ztake by lia. lia. }
  rewrite loopBody_memConn. rewrite Hc.
  destruct (doneFetching it) eqn:Hd.
  - (* the listing was known to be exhausted *)
    exists (Some (LoopReturn dsq.noResult false)), it, s, pos.
    split; [reflexivity|]. split; [exact I|]. split; [exact Hc|]. right.
    split; [reflexivity|].
    destruct (Idone eq_refl) as [Hp _].
    rewrite In in Hnames0. apply zdrop_nil_inv in Hnames0; [|lia].
    rewrite len_ztake in Hnames0 by lia. lia.
  - cbv zeta. rewrite Hlen.
    set (newLen := Z.min (swift.Limit (opts it)) (len S - pos)) in *.
    set (page := memNames (opts it) st) in *.
    rewrite Hnames0. change (len (@nil string)) with 0. rewrite Z.eqb_refl, andb_true_r.
    destruct (Z.eqb_spec newLen 0) as [H0|H0].
    + (* an empty page *)
      eexists _, _, _, pos. split; [reflexivity|].
      assert (Hp : pos = len S) by lia.
      assert (Hlt : (newLen <? swift.Limit (opts it)) = true) by (apply Z.ltb_lt; lia).
      rewrite Hlt.
      assert (HT : len S <= o + count it).
      { rewrite In in Hnames0. apply zdrop_nil_inv in Hnames0; [|lia].
        rewrite len_ztake in Hnames0 by lia. lia. }
      split; [|split; [reflexivity|right; split; [reflexivity|exact HT]]].
      constructor; cbn [q opts offset count names doneFetching]; try assumption.
      * congruence.
      * discriminate.
      * intros _. split; [exact Hp|right; exact HT].
    + (* a page of names *)
      assert (Hpos : 0 < newLen) by lia.
      assert (Hne : page <> []).
      { intros E. rewrite E in Hlen. change (len (@nil string)) with 0 in Hlen. lia. }
      specialize (Hmark Hne).
      destruct page as [|n0 rest] eqn:Epage; [congruence|].
      rewrite <- Epage in *. clear Epage n0 rest.
      eexists None, _, _, (pos + newLen). split; [reflexivity|].
      assert (Hfull : pagesOpen S o it pos) by (apply Iopen; reflexivity).
      assert (Hnot3 : ~ (0 < dsq.Limit (q it) /\ pos = o + dsq.Limit (q it))).
      { intros [H1 H2].
        destruct Hlim as [Hl|Hl]; [lia|].
        rewrite In in Hnames0. apply zdrop_nil_inv in Hnames0; [|lia].
        rewrite len_ztake in Hnames0 by lia. lia. }
      split; [|split; [reflexivity|left; split; [reflexivity|]]].
      * constructor; cbn [q opts offset count names doneFetching swift.Prefix
                            swift.Marker swift.Limit].
        -- exact Hmark.
        -- lia.
        -- exact Ic.
        -- exact Iq.
        -- lia.
        -- destruct (Z.ltb_spec 0 (offset it)).
           ++ destruct (Z.ltb_spec (offset it) newLen); [lia|].
              rewrite wrapInt_id by (try assumption; lia). lia.
           ++ lia.
        -- cbn [app]. rewrite <- Happ.
           destruct (Z.ltb_spec 0 (offset it)).
           ++ assert (Hc0 : count it = 0) by lia.
              destruct (Z.ltb_spec (offset it) newLen).
              ** rewrite zdrop_app_ge by (rewrite len_ztake by lia; lia).
                 rewrite len_ztake by lia. unfold zdrop. f_equal. lia.
              ** symmetry. apply zdrop_all. rewrite len_app, len_ztake by lia. lia.
           ++ assert (Hp : pos = o + count it).
              { rewrite In in Hnames0. apply zdrop_nil_inv in Hnames0; [|lia].
                rewrite len_ztake in Hnames0 by lia. lia. }
              rewrite zdrop_app_ge by (rewrite len_ztake by lia; lia).
              rewrite len_ztake by lia. symmetry. apply zdrop_0. lia.
        -- exact Il.
        -- destruct (Z.ltb_spec newLen (swift.Limit (opts it))); [discriminate|].
           intros _. unfold pagesOpen in *.
           cbn [q opts swift.Limit].
           destruct Hfull as [[H1 [k Hk]]|[[H1 [H2 [H3 [k Hk]]]]|H3]].
           ++ left. split; [exact H1|]. exists (k + 1). lia.
           ++ right. right. split; [exact H1|]. lia.
           ++ contradiction.
        -- destruct (Z.ltb_spec newLen (swift.Limit (opts it))); [|discriminate].
           intros _. split; [lia|]. left. intros k' Hk'.
           unfold pagesOpen in Hfull.
           destruct Hfull as [[H1 [k Hk]]|[[H1 [H2 [H3 [k Hk]]]]|H3]];
             [lia|lia|contradiction].
      * cbn [offset names].
        destruct (Z.ltb_spec 0 (offset it)).
        -- left. destruct (Z.ltb_spec (offset it) newLen); [lia|].
           rewrite wrapInt_id by (try assumption; lia). lia.
        -- right. cbn [app]. split; [exact Hne|lia].
Qed.


Lemma Next_loop_paging (fuel : nat) :
  forall (it : queryIter) (s : SwiftContainer memState) (pos : Z),
    pagingInv st S o it pos ->
    inRange intSize (q it) o S ->
    conn s = st ->
    dsq.Limit (q it) = 0 \/ count it < dsq.Limit (q it) ->
    (names it <> [] /\ offset it <= 0) \/ (Z.to_nat (offset it) < fuel)%nat ->
    exists r it' s' pos',
      Next_loop memConn intSize fuel it s = (r, it', s')
      /\ pagingInv st S o it' pos'
      /\ conn s' = st
      /\ ((r = LoopExit /\ names it' <> [])
          \/ (r = LoopReturn dsq.noResult false /\ len S <= o + count it)).
Proof.
  induction fuel as [|fuel IH]; intros it s pos I R Hc Hlim Hfuel;
    rewrite Next_loop_eq;
    destruct ((len (names it) =? 0) || (0 <? offset it)) eqn:Hb.
  - exfalso. apply orb_true_iff in Hb.
    destruct Hfuel as [[H1 H2]|H]; [|lia].
    destruct Hb as [Hb|Hb].
    + apply Z.eqb_eq in Hb. apply len_zero in Hb. contradiction.
    + apply Z.ltb_lt in Hb. lia.
  - apply orb_false_iff in Hb. destruct Hb as [Hb _].
    apply Z.eqb_neq in Hb.
    exists LoopExit, it, s, pos.
    split; [reflexivity|]. split; [exact I|]. split; [exact Hc|].
    left. split; [reflexivity|]. intros E. rewrite E in Hb. now apply Hb.
  - assert (Hloop : names it = [] \/ 0 < offset it).
    { apply orb_true_iff in Hb. destruct Hb as [Hb|Hb].
      - left. apply Z.eqb_eq in Hb. now apply len_zero.
      - right. now apply Z.ltb_lt. }
    assert (Hf : (Z.to_nat (offset it) < Datatypes.S fuel)%nat).
    { destruct Hfuel as [[H1 H2]|H]; [|exact H].
      destruct Hloop as [H|H]; [contradiction|lia]. }
    destruct (loopBody_paging it s pos I R Hc Hloop Hlim)
      as (r & it1 & s1 & pos1 & Eb & I1 & Hc1 & Hr).
    rewrite Eb.
    pose proof (loopBody_frame _ _ _ _ _ _ _ Eb) as (F1 & F2 & _).
    destruct Hr as [[-> Hprog]|[-> HT]].
    + assert (R1 : inRange intSize (q it1) o S) by now rewrite F1.
      assert (Hlim1 : dsq.Limit (q it1) = 0 \/ count it1 < dsq.Limit (q it1))
        by now rewrite F1, F2.
      assert (Hfuel1 : (names it1 <> [] /\ offset it1 <= 0)
                       \/ (Z.to_nat (offset it1) < fuel)%nat).
      { destruct Hprog as [H|[H1 H2]]; [|left; split; [exact H1|lia]].
        right. pose proof (inv_offset _ _ _ _ _ I1). lia. }
      destruct (IH it1 s1 pos1 I1 R1 Hc1 Hlim1 Hfuel1)
        as (r & it2 & s2 & pos2 & E2 & I2 & Hc2 & Hr2).
      exists r, it2, s2, pos2. rewrite F2 in Hr2.
      split; [exact E2|]. split; [exact I2|]. split; [exact Hc2|exact Hr2].
    + exists (LoopReturn dsq.noResult false), it1, s1, pos1.
      split; [reflexivity|]. split; [exact I1|]. split; [exact Hc1|].
      right. split; [reflexivity|exact HT].
  - apply orb_false_iff in Hb. destruct Hb as [Hb _].
    apply Z.eqb_neq in Hb.
    exists LoopExit, it, s, pos.
    split; [reflexivity|]. split; [exact I|]. split; [exact Hc|].
    left. split; [reflexivity|]. intros E. rewrite E in Hb. now apply Hb.
Qed.


Lemma emit_paging (it1 : queryIter) (s1 : SwiftContainer memState) (pos : Z) :
  pagingInv st S o it1 pos ->
  inRange intSize (q it1) o S ->
  conn s1 = st ->
  names it1 <> [] ->
  dsq.Limit (q it1) = 0 \/ count it1 < dsq.Limit (q it1) ->
  exists x it2 s2,
    emit memConn intSize it1 s1
    = (Yield (dsq.mkResult (entryFor (dsq.KeysOnly (q it1)) st x) None) true,
       it2, s2)
    /\ zdrop (o + count it1) S = x :: zdrop (o + count it1 + 1) S
    /\ pagingInv st S o it2 pos
    /\ conn s2 = st
    /\ q it2 = q it1
    /\ count it2 = count it1 + 1
    /\ swift.Prefix (opts it2) = swift.Prefix (opts it1)
    /\ doneFetching it2 = doneFetching it1
    /\ cache s2
       = (if doneFetching it1
             || ((0 <? dsq.Limit (q it1))
                 && (count it1 + 1 =? dsq.Limit (q it1)))
          then mkCache (swift.Prefix (opts it1))
                       (dsq.Offset (q it1) + (count it1 + 1)) x
          else cache s1)
    /\ (doneFetching it1 = true -> forall k, len S <> 10000 * k).
Proof.
  intros I R Hc Hne Hlim.
  pose proof I as [Im Ip Ic Iq Ie Io Inm Il Iopen Idone].
  destruct R as [Rint Rskip Rlimit Roffset Rend Rindex].
  pose proof (maxIntOf_big intSize Rint) as Hmax.
  pose proof (len_nonneg S) as HT.
  destruct (names it1) as [|x names1] eqn:En; [congruence|]. clear Hne.
  symmetry in Inm.
  assert (Hlt : o + count it1 < pos).
  { destruct (Z.lt_ge_cases (o + count it1) pos) as [H|H]; [exact H|].
    rewrite zdrop_all in Inm by (rewrite len_ztake by lia; lia). discriminate. }
  assert (Hdrop : zdrop (o + count it1) S = x :: names1 ++ zdrop pos S).
  { rewrite <- (ztake_zdrop pos S) at 1.
    rewrite zdrop_app_le by (rewrite len_ztake by lia; lia).
    now rewrite Inm. }
  assert (Hnext : zdrop (o + count it1 + 1) S = names1 ++ zdrop pos S).
  { eapply zdrop_head; [lia|exact Hdrop]. }
  assert (Hnames1 : names1 = zdrop (o + (count it1 + 1)) (ztake pos S)).
  { symmetry. rewrite Z.add_assoc. eapply zdrop_head; [lia|exact Inm]. }
  assert (Hx : In x S).
  { rewrite <- (ztake_zdrop (o + count it1) S), Hdrop.
    apply in_or_app. right. now left. }
  destruct (memGet_In st x (HSin x Hx)) as [v Hv].
  assert (Hc1 : wrapInt intSize (count it1 + 1) = count it1 + 1)
    by (apply wrapInt_id; [assumption|lia]).
  assert (Hq1 : wrapInt intSize (dsq.Limit (q it1) - (count it1 + 1))
                = dsq.Limit (q it1) - (count it1 + 1))
    by (apply wrapInt_id; [assumption|lia]).
  assert (Hi1 : wrapInt intSize (dsq.Offset (q it1) + (count it1 + 1))
                = dsq.Offset (q it1) + (count it1 + 1))
    by (apply wrapInt_id; [assumption|lia]).
  unfold emit. rewrite En. cbv zeta. rewrite Hc1, Hq1, Hi1.
  set (shrink := (len names1 =? 0) && (count it1 + 1 <? dsq.Limit (q it1))
                 && (dsq.Limit (q it1) - (count it1 + 1) <? swift.Limit (opts it1))).
  set (opts1 := if shrink then _ else opts it1).
  set (guard := doneFetching it1 || _).
  assert (Hp1 : swift.Prefix opts1 = swift.Prefix (opts it1))
    by (subst opts1; destruct shrink; reflexivity).
  assert (Hm1 : swift.Marker opts1 = swift.Marker (opts it1))
    by (subst opts1; destruct shrink; reflexivity).
  set (it2 := mkIter (q it1) opts1 (offset it1) (count it1 + 1) names1
                     (doneFetching it1)).
  set (s2 := if guard then storeCache _ _ x s1 else s1).
  assert (Hs2 : conn s2 = st /\ Container s2 = Container s1
                /\ cache s2 = (if guard
                               then mkCache (swift.Prefix (opts it1))
                                      (dsq.Offset (q it1) + (count it1 + 1)) x
                               else cache s1)).
  { subst s2. destruct guard; cbn; rewrite ?Hp1; auto. }
  destruct Hs2 as (Hs2a & Hs2b & Hs2c).
  assert (I2 : pagingInv st S o it2 pos).
  { unfold it2. constructor; cbn [q opts offset count names doneFetching].
    - now rewrite Hp1, Hm1.
    - exact Ip.
    - lia.
    - intros Hl. lia.
    - left. lia.
    - exact Io.
    - exact Hnames1.
    - subst opts1. destruct shrink eqn:Hsh; [|exact Il].
      cbn [swift.Limit]. subst shrink.
      apply andb_true_iff in Hsh. destruct Hsh as [Hsh H3].
      apply andb_true_iff in Hsh. destruct Hsh as [H1 H2].
      apply Z.ltb_lt in H2, H3. lia.
    - intros Hd. specialize (Iopen Hd). unfold pagesOpen in *.
      cbn [q opts]. subst opts1. destruct shrink eqn:Hsh; [|exact Iopen].
      cbn [swift.Limit]. subst shrink.
      apply andb_true_iff in Hsh. destruct Hsh as [Hsh H3].
      apply andb_true_iff in Hsh. destruct Hsh as [H1 H2].
      apply Z.ltb_lt in H2, H3. apply Z.eqb_eq in H1. apply len_zero in H1.
      assert (Hpos : pos = o + (count it1 + 1)).
      { rewrite H1 in Hnames1. symmetry in Hnames1.
        apply zdrop_nil_inv in Hnames1; [|lia].
        rewrite len_ztake in Hnames1 by lia. lia. }
      destruct Iopen as [[E1 [k Hk]]|[[E1 [E2 [E3 [k Hk]]]]|[E1 E2]]].
      + right. left. split; [lia|]. split; [lia|]. split; [lia|]. now exists k.
      + lia.
      + lia.
    - intros Hd. destruct (Idone Hd) as [E1 E2]. split; [exact E1|].
      destruct E2 as [E2|E2]; [now left|right; lia]. }
  assert (Hdone : doneFetching it1 = true -> forall k, len S <> 10000 * k).
  { intros Hd. destruct (Idone Hd) as [E1 [E2|E2]]; [exact E2|lia]. }
  unfold entryFor. destruct (dsq.KeysOnly (q it1)).
  - exists x, it2, s2.
    split; [reflexivity|]. split; [now rewrite Hnext|].
    repeat (split; [first [assumption|reflexivity]|]). exact Hdone.
  - rewrite call_trace. cbn [memConn swift.ObjectGetBytes fst snd].
    rewrite Hs2a, Hv.
    eexists x, it2, _. rewrite Hv.
    split; [reflexivity|]. split; [now rewrite Hnext|].
    cbn [conn cache].
    repeat (split; [first [assumption|reflexivity]|]). exact Hdone.
Qed.


Lemma Next_paging (it : queryIter) (s : SwiftContainer memState) (pos : Z) :
  pagingInv st S o it pos ->
  inRange intSize (q it) o S ->
  conn s = st ->
  exists r it' s' pos',
    Next memConn intSize it s = (r, it', s')
    /\ pagingInv st S o it' pos'
    /\ conn s' = st
    /\ q it' = q it
    /\ swift.Prefix (opts it') = swift.Prefix (opts it)
    /\ ((exists res,
           r = Yield res false
           /\ cache s' = cache s
           /\ count it' = count it
           /\ ((0 < dsq.Limit (q it) /\ count it = dsq.Limit (q it))
               \/ len S <= o + count it))
        \/ (exists x,
              r = Yield (dsq.mkResult (entryFor (dsq.KeysOnly (q it)) st x) None)
                        true
              /\ zdrop (o + count it) S = x :: zdrop (o + count it + 1) S
              /\ (dsq.Limit (q it) = 0 \/ count it < dsq.Limit (q it))
              /\ count it' = count it + 1
              /\ cache s'
                 = (if doneFetching it'
                       || ((0 <? dsq.Limit (q it))
                           && (count it + 1 =? dsq.Limit (q it)))
                    then mkCache (swift.Prefix (opts it))
                                 (dsq.Offset (q it) + (count it + 1)) x
                    else cache s)
              /\ (doneFetching it' = true -> forall k, len S <> 10000 * k))).
Proof.
  intros I R Hc. unfold Next.
  destruct (negb (dsq.Limit (q it) =? 0) && (count it =? dsq.Limit (q it)))
    eqn:Hlim.
  - apply andb_true_iff in Hlim. destruct Hlim as [H1 H2].
    apply negb_true_iff, Z.eqb_neq in H1. apply Z.eqb_eq in H2.
    exists (Yield dsq.noResult false), it, s, pos.
    split; [reflexivity|]. split; [exact I|]. split; [exact Hc|].
    split; [reflexivity|]. split; [reflexivity|]. left.
    exists dsq.noResult. repeat split. left.
    pose proof (range_limit _ _ _ _ R). lia.
  - assert (Hl : dsq.Limit (q it) = 0 \/ count it < dsq.Limit (q it)).
    { apply andb_false_iff in Hlim. destruct Hlim as [H|H].
      - left. apply negb_false_iff, Z.eqb_eq in H. exact H.
      - apply Z.eqb_neq in H.
        destruct (Z.eq_dec (dsq.Limit (q it)) 0) as [E|E]; [now left|right].
        pose proof (range_limit _ _ _ _ R).
        pose proof (inv_quota _ _ _ _ _ I). lia. }
    destruct (Next_loop_paging (Datatypes.S (Z.to_nat (offset it))) it s pos I R Hc Hl)
      as (lr & it1 & s1 & pos1 & El & I1 & Hc1 & Hr); [right; lia|].
    rewrite El.
    pose proof (Next_loop_frame _ _ _ _ _ _ _ _ El) as (F1 & F2 & F3 & F4 & F5 & F6).
    destruct Hr as [[-> Hne]|[-> HT]].
    + assert (R1 : inRange intSize (q it1) o S) by now rewrite F1.
      assert (Hl1 : dsq.Limit (q it1) = 0 \/ count it1 < dsq.Limit (q it1))
        by now rewrite F1, F2.
      destruct (emit_paging it1 s1 pos1 I1 R1 Hc1 Hne Hl1)
        as (x & it2 & s2 & Ee & Hd & I2 & Hc2 & G1 & G2 & G3 & G4 & G5 & G6).
      rewrite Ee. rewrite F1, F2, F3, F4, <- G4 in *.
      exists (Yield (dsq.mkResult (entryFor (dsq.KeysOnly (q it)) st x) None) true),
        it2, s2, pos1.
      split; [reflexivity|]. split; [exact I2|]. split; [exact Hc2|].
      split; [exact G1|]. split; [exact G3|]. right.
      exists x. repeat split; assumption.
    + exists (Yield dsq.noResult false), it1, s1, pos1.
      split; [reflexivity|]. split; [exact I1|]. split; [exact Hc1|].
      split; [exact F1|]. split; [exact F3|]. left.
      exists dsq.noResult. repeat split; try assumption. now right.
Qed.


Lemma remaining_nil (l c : Z) :
  0 <= o + c ->
  (0 < l /\ c = l) \/ len S <= o + c ->
  remaining o l S c = [].
Proof.
  intros H0 H. unfold remaining.
  destruct (Z.eqb_spec l 0) as [E|E].
  - destruct H as [H|H]; [lia|]. now apply zdrop_all.
  - destruct H as [[_ H]|H].
    + apply ztake_nonpos. lia.
    + rewrite zdrop_all by exact H. unfold ztake. apply firstn_nil.
Qed.

Lemma remaining_cons (l c : Z) (x : string) :
  0 <= l ->
  l = 0 \/ c < l ->
  zdrop (o + c) S = x :: zdrop (o + c + 1) S ->
  remaining o l S c = x :: remaining o l S (c + 1).
Proof.
  intros Hl H E. unfold remaining.
  rewrite Z.add_assoc.
  destruct (Z.eqb_spec l 0) as [E0|E0]; [exact E|].
  rewrite (ztake_head (l - c) _ x (zdrop (o + c + 1) S)) by (try exact E; lia).
  do 2 f_equal. lia.
Qed.

Lemma multiple_iff (T : Z) :
  (forall k, T <> 10000 * k) <-> negb (T mod 10000 =? 0) = true.
Proof.
  rewrite negb_true_iff, Z.eqb_neq. split.
  - intros H E. apply (H (T / 10000)).
    pose proof (Z.div_mod T 10000). lia.
  - intros H k E. apply H. subst T. rewrite Z.mul_comm. apply Z_mod_mult.
Qed.

Lemma Rest_paging (n : nat) :
  forall (it : queryIter) (s : SwiftContainer memState) (pos : Z),
    pagingInv st S o it pos ->
    inRange intSize (q it) o S ->
    conn s = st ->
    List.length (remaining o (dsq.Limit (q it)) S (count it)) = n ->
    forall fuel, (n < fuel)%nat ->
    exists it' s',
      Rest memConn intSize fuel it s
      = Some (map (entryFor (dsq.KeysOnly (q it)) st)
                  (remaining o (dsq.Limit (q it)) S (count it)),
              None, it', s')
      /\ conn s' = st
      /\ cache s'
         = cacheFrom (swift.Prefix (opts it)) (dsq.Offset (q it)) o
                     (dsq.Limit (q it)) S (count it) (cache s).
Proof.
  induction n as [|n IH]; intros it s pos I R Hc Hn fuel Hfuel;
    (destruct fuel as [|fuel]; [lia|]); cbn [Rest];
    destruct (Next_paging it s pos I R Hc)
      as (r & it1 & s1 & pos1 & En & I1 & Hc1 & Hq & Hp & Hr);
    rewrite En;
    pose proof (inv_count _ _ _ _ _ I) as Ic;
    pose proof (range_skip _ _ _ _ R) as Ro;
    pose proof (range_limit _ _ _ _ R) as Rl.
  - destruct Hr as [(res & -> & Hcache & Hcount & Hend)|(x & -> & Hd & Hl & _)].
    + cbn. eexists _, _. split; [|split; [exact Hc1|]].
      * rewrite remaining_nil by (try assumption; lia). reflexivity.
      * unfold cacheFrom. rewrite remaining_nil by (try assumption; lia).
        exact Hcache.
    + rewrite (remaining_cons _ _ x) in Hn by assumption. discriminate.
  - destruct Hr as [(res & -> & Hcache & Hcount & Hend)
                   |(x & -> & Hd & Hl & Hcount & Hcache & Hdone)].
    + rewrite remaining_nil in Hn by (try assumption; lia). discriminate.
    + cbn [dsq.Error dsq.entry].
      pose proof (remaining_cons _ _ x Rl Hl Hd) as Hrem.
      assert (R1 : inRange intSize (q it1) o S) by now rewrite Hq.
      assert (Hn1 : List.length (remaining o (dsq.Limit (q it1)) S (count it1)) = n).
      { rewrite Hq, Hcount. rewrite Hrem in Hn. cbn in Hn. lia. }
      destruct (IH it1 s1 pos1 I1 R1 Hc1 Hn1 fuel ltac:(lia))
        as (it2 & s2 & Er & Hc2 & Hcache2).
      rewrite Er. rewrite Hq, Hcount, Hp in *.
      exists it2, s2. split; [now rewrite Hrem|]. split; [exact Hc2|].
      rewrite Hcache2. unfold cacheFrom. rewrite Hrem.
      set (l := dsq.Limit (q it)) in *.
      remember (remaining o l S (count it + 1)) as rest eqn:Erest.
      symmetry in Erest.
      pose proof I1 as [_ Ip1 _ _ Ie1 _ In1 _ Iopen1 _].
      rewrite Hcount in *.
      pose proof (len_nonneg S) as HT.
      assert (Hlt : o + count it < len S).
      { destruct (Z.lt_ge_cases (o + count it) (len S)) as [H|H]; [exact H|].
        rewrite zdrop_all in Hd by exact H. discriminate. }
      destruct rest as [|y rest'].
      * (* [x] is the last entry *)
        rewrite Hcache. change (len [x]) with 1. cbn [last].
        assert (Hiff : doneFetching it1
                       || ((0 <? l) && (count it + 1 =? l))
                       = writesCache o l S).
        { unfold writesCache.
          assert (Hlast : (0 < l /\ count it + 1 = l) \/ len S = o + count it + 1).
          { unfold remaining in Erest.
            destruct (Z.eqb_spec l 0) as [E0|E0].
            - right. apply zdrop_nil_inv in Erest; lia.
            - destruct (Z.eq_dec (count it + 1) l) as [E1|E1]; [left; lia|].
              right.
              destruct (Z.lt_ge_cases (o + (count it + 1)) (len S)) as [H|H]; [|lia].
              exfalso.
              assert (Hl' : 0 < len (ztake (l - (count it + 1))
                                      (zdrop (o + (count it + 1)) S))).
              { rewrite len_ztake, len_zdrop by lia. lia. }
              rewrite Erest in Hl'. change (len (@nil string)) with 0 in Hl'. lia. }
          apply eq_true_iff_eq. rewrite !orb_true_iff, !andb_true_iff.
          rewrite <- multiple_iff.
          rewrite !Z.ltb_lt, Z.eqb_eq, Z.leb_le.
          split.
          - intros [H|[H1 H2]]; [right; now apply Hdone|left; lia].
          - intros [[H1 H2]|H].
            + destruct Hlast as [Hlast|Hlast]; [now right|]. right. lia.
            + destruct (Z.eq_dec (count it + 1) l) as [Ecl|Ecl]; [right; lia|].
              destruct Hlast as [Hlast|Hlast]; [now right|]. left.
              destruct (doneFetching it1) eqn:Hdn; [reflexivity|exfalso].
              assert (Hpos1 : pos1 = len S) by lia.
              destruct (Iopen1 eq_refl) as [[E1 [k Hk]]|[[E1 [E2 [E3 [k Hk]]]]|[E1 E2]]].
              * apply (H k). lia.
              * apply (H k). lia.
              * rewrite Hq in *. fold l in E1, E2. lia. }
        rewrite Hiff. destruct (writesCache o l S); [|reflexivity].
        f_equal; lia.
      * (* more entries follow *)
        destruct (writesCache o l S) eqn:Hw.
        -- f_equal. rewrite !len_cons. lia.
        -- rewrite Hcache.
           assert (Hno : doneFetching it1
                         || ((0 <? l) && (count it + 1 =? l)) = false).
           { apply orb_false_iff. unfold writesCache in Hw.
             apply orb_false_iff in Hw. destruct Hw as [Hw1 Hw2]. split.
             - destruct (doneFetching it1) eqn:Hdn; [|reflexivity].
               apply multiple_iff in Hdone; [|reflexivity]. congruence.
             - apply andb_false_iff.
               destruct (Z.eqb_spec (count it + 1) l) as [E|E]; [|now right].
               exfalso. unfold remaining in Erest.
               destruct (Z.eqb_spec l 0) as [E0|E0]; [lia|].
               rewrite ztake_nonpos in Erest by lia. discriminate. }
           now rewrite Hno.
Qed.

End Paging.

(** ** Queries from their start *)

Lemma remaining_0 (o l : Z) (S : list string) :
  remaining o l S 0 = window o l S.
Proof. unfold remaining, window. now rewrite Z.add_0_r, Z.sub_0_r. Qed.

Lemma Query_eq (intSize : Z) (qu : dsq.Query) (s : SwiftContainer memState) :
  dsq.Orders qu = None -> dsq.Filters qu = None ->
  let hit := cacheHit qu (cache s) in
  let off := if hit then wrapInt intSize (index (cache s) - dsq.Offset qu)
             else dsq.Offset qu in
  let end_ := wrapInt intSize (off + dsq.Limit qu) in
  SwiftContainer_Query intSize qu s
  = Ok (mkIter qu
          (swift.mkOpts (trimSlash (dsq.Prefix qu))
             (if hit then name (cache s) else ""%string)
             (if negb (dsq.Limit qu =? 0) && (end_ <? 10000) then end_ else 10000))
          off 0 [] false).
Proof.
  intros Ho Hf. unfold SwiftContainer_Query, cacheHit. rewrite Ho, Hf.
  cbv zeta. cbn [swift.Prefix swift.Marker swift.Limit].
  destruct (String.eqb (prefix (cache s)) (trimSlash (dsq.Prefix qu))
            && negb (String.eqb (name (cache s)) ""%string)
            && (index (cache s) <=? dsq.Offset qu));
    cbn [swift.Prefix swift.Marker swift.Limit];
    match goal with |- context [if ?b then _ else _] => destruct b end;
    reflexivity.
Qed.

Lemma Query_paging (intSize : Z) (st : memState) (qu : dsq.Query)
  (s : SwiftContainer memState) :
  dsq.Orders qu = None -> dsq.Filters qu = None ->
  cacheHit qu (cache s) = false \/ index (cache s) = dsq.Offset qu ->
  let p := trimSlash (dsq.Prefix qu) in
  let marker := if cacheHit qu (cache s) then name (cache s) else ""%string in
  let o := if cacheHit qu (cache s) then 0 else dsq.Offset qu in
  let S := listing p marker st in
  inRange intSize qu o S ->
  exists it,
    SwiftContainer_Query intSize qu s = Ok it
    /\ q it = qu /\ count it = 0 /\ swift.Prefix (opts it) = p
    /\ pagingInv st S o it 0.
Proof.
  intros Ho Hf Hhit p marker o S R.
  destruct R as [Rint Rskip Rlimit Roffset Rend Rindex].
  pose proof (maxIntOf_big intSize Rint) as Hmax.
  rewrite Query_eq by assumption. cbv zeta.
  assert (Eo : (if cacheHit qu (cache s)
                then wrapInt intSize (index (cache s) - dsq.Offset qu)
                else dsq.Offset qu) = o).
  { subst o. destruct (cacheHit qu (cache s)); [|reflexivity].
    destruct Hhit as [H|H]; [discriminate|].
    rewrite H, Z.sub_diag. apply wrapInt_id; [assumption|lia]. }
  rewrite Eo.
  assert (Ee : wrapInt intSize (o + dsq.Limit qu) = o + dsq.Limit qu)
    by (apply wrapInt_id; [assumption|lia]).
  rewrite Ee. fold marker p.
  set (L := if negb (dsq.Limit qu =? 0) && (o + dsq.Limit qu <? 10000)
            then o + dsq.Limit qu else 10000).
  assert (Hlim : 0 < L <= 10000
                 /\ (L = 10000
                     \/ (0 < dsq.Limit qu /\ L = o + dsq.Limit qu /\ L < 10000))).
  { subst L.
    destruct (Z.eqb_spec (dsq.Limit qu) 0); cbn [negb andb]; [lia|].
    destruct (Z.ltb_spec (o + dsq.Limit qu) 10000); lia. }
  pose proof (len_nonneg S) as HT.
  eexists. split; [reflexivity|]. cbn [q count opts swift.Prefix].
  split; [reflexivity|]. split; [reflexivity|]. split; [reflexivity|].
  constructor;
    cbn [q opts offset count names doneFetching swift.Prefix swift.Marker swift.Limit].
  - subst S. rewrite zdrop_0 by lia. reflexivity.
  - lia.
  - lia.
  - lia.
  - now right.
  - lia.
  - symmetry. apply zdrop_all. rewrite len_ztake by lia. lia.
  - apply Hlim.
  - intros _. unfold pagesOpen.
    cbn [q opts swift.Limit].
    destruct Hlim as [_ [H|[H1 [H2 H3]]]].
    + left. split; [exact H|]. exists 0. lia.
    + right. left. repeat split; try lia. exists 0. lia.
  - discriminate.
Qed.

Lemma runQuery_paging (intSize : Z) (st : memState) (qu : dsq.Query)
  (s : SwiftContainer memState) :
  wfStore st ->
  conn s = st ->
  dsq.Orders qu = None -> dsq.Filters qu = None ->
  cacheHit qu (cache s) = false \/ index (cache s) = dsq.Offset qu ->
  let p := trimSlash (dsq.Prefix qu) in
  let marker := if cacheHit qu (cache s) then name (cache s) else ""%string in
  let o := if cacheHit qu (cache s) then 0 else dsq.Offset qu in
  let S := listing p marker st in
  inRange intSize qu o S ->
  forall fuel,
    (List.length (window o (dsq.Limit qu) S) < fuel)%nat ->
    exists s',
      runQuery intSize fuel qu s
      = Some (map (entryFor (dsq.KeysOnly qu) st) (window o (dsq.Limit qu) S), s')
      /\ conn s' = st
      /\ cache s' = cacheFrom p (dsq.Offset qu) o (dsq.Limit qu) S 0 (cache s).
Proof.
  intros Hwf Hc Ho Hf Hhit p marker o S R fuel Hfuel.
  destruct (Query_paging intSize st qu s Ho Hf Hhit R)
    as (it & Eq & Hq & Hcount & Hp & I).
  fold p marker o S in I.
  assert (HSin : forall x, In x S -> In x (map fst st)).
  { intros x Hx. apply (listing_In st p Hwf marker x Hx). }
  assert (R' : inRange intSize (q it) o S) by now rewrite Hq.
  assert (Hn : List.length (remaining o (dsq.Limit (q it)) S (count it))
               = List.length (window o (dsq.Limit qu) S)).
  { now rewrite Hq, Hcount, remaining_0. }
  destruct (Rest_paging intSize st S o Hwf HSin _ it s 0 I R' Hc Hn fuel Hfuel)
    as (it' & s' & Er & Hc' & Hcache).
  unfold runQuery. rewrite Eq, Er.
  rewrite Hq, Hcount, Hp, remaining_0 in *.
  exists s'. repeat split; assumption.
Qed.

(** ** Whole queries *)

Lemma length_window (o l : Z) (S : list string) :
  (List.length (window o l S) <= List.length S)%nat.
Proof.
  unfold window, ztake, zdrop. destruct (l =? 0).
  - rewrite length_skipn. lia.
  - rewrite length_firstn, length_skipn. lia.
Qed.

Lemma length_listing (p m : string) (st : memState) :
  (List.length (listing p m st) <= List.length st)%nat.
Proof.
  unfold listing. rewrite <- (length_map fst st). apply filter_length_le.
Qed.

Lemma len_window_limit (o l : Z) (S : list string) :
  0 <= o -> 0 < l ->
  (len (window o l S) = l <-> o + l <= len S).
Proof.
  intros Ho Hl. unfold window.
  destruct (Z.eqb_spec l 0); [lia|].
  rewrite len_ztake, len_zdrop by lia. lia.
Qed.

Lemma last_map {A B : Type} (f : A -> B) (l : list A) (d : A) (e : B) :
  l <> [] -> last (map f l) e = f (last l d).
Proof.
  induction l as [|a l IH]; [congruence|]. intros _.
  destruct l as [|b l]; [reflexivity|].
  cbn [map last] in *. apply IH. discriminate.
Qed.

Lemma keysOf_entries (keysOnly : bool) (st : memState) (w : list string) :
  keysOf (map (entryFor keysOnly st) w) = map (String "/"%char) w.
Proof. unfold keysOf. rewrite map_map. reflexivity. Qed.

(** What a whole query leaves in the cache, as the code has it.  A query
    over a fixed key set that starts from the beginning of the listing, or
    exactly at the cached index, and is read to its end returns the window
    [offset, offset + limit) of the listing.
    If it emitted at least one entry and either reached its non-zero limit
    or learnt of the exhaustion from a short page (the listing it draws from
    does not hold a multiple of 10000 names), the cache then holds exactly
    the normalized prefix, requestedOffset + emittedCount, and the storage
    name of the last emitted key.  If it emitted nothing, or ended by
    exhaustion right after a full page of 10000, the cache is untouched. *)
Lemma cache_after_query (intSize : Z) (st : memState) (qu : dsq.Query)
  (s : SwiftContainer memState) :
  wfStore st ->
  conn s = st ->
  dsq.Orders qu = None -> dsq.Filters qu = None ->
  cacheHit qu (cache s) = false \/ index (cache s) = dsq.Offset qu ->
  let p := trimSlash (dsq.Prefix qu) in
  let marker := if cacheHit qu (cache s) then name (cache s) else ""%string in
  let o := if cacheHit qu (cache s) then 0 else dsq.Offset qu in
  let S := listing p marker st in
  inRange intSize qu o S ->
  forall fuel,
    (List.length S < fuel)%nat ->
    exists es s',
      runQuery intSize fuel qu s = Some (es, s')
      /\ es = map (entryFor (dsq.KeysOnly qu) st) (window o (dsq.Limit qu) S)
      /\ (es = [] -> cache s' = cache s)
      /\ (es <> [] ->
          (0 < dsq.Limit qu /\ len es = dsq.Limit qu) \/ len S mod 10000 <> 0 ->
          cache s'
          = mkCache p (dsq.Offset qu + len es)
                    (keyToName (last (keysOf es) ""%string)))
      /\ (es <> [] ->
          ~ (0 < dsq.Limit qu /\ len es = dsq.Limit qu) ->
          len S mod 10000 = 0 ->
          cache s' = cache s).
Proof.
  intros Hwf Hc Ho Hf Hhit p marker o S R fuel Hfuel.
  pose proof (length_window o (dsq.Limit qu) S) as Hw.
  destruct (runQuery_paging intSize st qu s Hwf Hc Ho Hf Hhit R fuel ltac:(fold p marker o S; lia))
    as (s' & Er & Hc' & Hcache).
  fold p marker o S in Er, Hcache.
  set (w := window o (dsq.Limit qu) S) in *.
  exists (map (entryFor (dsq.KeysOnly qu) st) w), s'.
  split; [exact Er|]. split; [reflexivity|].
  unfold cacheFrom in Hcache. rewrite remaining_0 in Hcache. fold w in Hcache.
  assert (Hlen : len (map (entryFor (dsq.KeysOnly qu) st) w) = len w)
    by (unfold len; now rewrite length_map).
  rewrite Hlen.
  pose proof (range_skip _ _ _ _ R) as Rskip.
  destruct w as [|x w'] eqn:Ew.
  - split; [intros _; exact Hcache|]. split; intros H; now contradiction H.
  - rewrite <- Ew in *.
    assert (Hne : w <> []) by (rewrite Ew; discriminate).
    assert (Hname : keyToName (last (keysOf (map (entryFor (dsq.KeysOnly qu) st) w))
                                    ""%string)
                    = last w ""%string).
    { rewrite keysOf_entries. now rewrite (last_map _ w ""%string). }
    assert (Hcache' : cache s'
                      = if writesCache o (dsq.Limit qu) S
                        then mkCache p (dsq.Offset qu + (0 + len w)) (last w ""%string)
                        else cache s).
    { rewrite Hcache. rewrite Ew. reflexivity. }
    assert (Hwrites : writesCache o (dsq.Limit qu) S = true
                      <-> (0 < dsq.Limit qu /\ len w = dsq.Limit qu)
                          \/ len S mod 10000 <> 0).
    { unfold writesCache. rewrite orb_true_iff, andb_true_iff.
      rewrite negb_true_iff, Z.eqb_neq, Z.ltb_lt, Z.leb_le.
      split.
      - intros [[H1 H2]|H]; [left|now right].
        split; [exact H1|]. subst w. now apply len_window_limit.
      - intros [[H1 H2]|H]; [left|now right].
        split; [exact H1|]. subst w. now apply len_window_limit in H2. }
    split; [intros E; apply map_eq_nil in E; contradiction|]. split.
    + intros _ H. apply Hwrites in H. rewrite Hcache', H, Hname.
      f_equal; lia.
    + intros _ H1 H2. rewrite Hcache'.
      destruct (writesCache o (dsq.Limit qu) S) eqn:E; [|reflexivity].
      exfalso. destruct (proj1 Hwrites eq_refl) as [H|H]; contradiction.
Qed.

Lemma cacheHit_miss (qu : dsq.Query) (c : QueryCache) :
  name c = ""%string \/ prefix c <> trimSlash (dsq.Prefix qu) ->
  cacheHit qu c = false.
Proof.
  unfold cacheHit. intros [H|H].
  - rewrite H. cbn. now rewrite andb_false_r.
  - apply String.eqb_neq in H. now rewrite H.
Qed.

(** A query that resumes after the last listed name emits nothing, whatever
    its residual skip and page size are. *)
Lemma runQuery_after_last (intSize : Z) (st : memState) (qu : dsq.Query)
  (s : SwiftContainer memState) (fuel : nat) :
  conn s = st ->
  dsq.Orders qu = None -> dsq.Filters qu = None ->
  cacheHit qu (cache s) = true ->
  listing (trimSlash (dsq.Prefix qu)) (name (cache s)) st = [] ->
  0 < dsq.Limit qu ->
  (0 < fuel)%nat ->
  exists s', runQuery intSize fuel qu s = Some ([], s').
Proof.
  intros Hc Ho Hf Hhit Hl Hlim Hfuel.
  unfold runQuery. rewrite Query_eq by assumption. cbv zeta. rewrite Hhit.
  destruct fuel as [|fuel]; [lia|]. cbn [Rest].
  unfold Next. cbn [q count offset].
  destruct (Z.eqb_spec 0 (dsq.Limit qu)) as [E|E]; [lia|].
  rewrite andb_false_r. rewrite Next_loop_eq. cbn [names offset].
  change (len (@nil string)) with 0. cbn [Z.eqb orb].
  rewrite loopBody_memConn. cbn [doneFetching opts names]. cbv zeta.
  rewrite Hc. unfold memNames at 1 2 3. cbn [swift.Prefix swift.Marker].
  rewrite Hl, firstn_nil. change (len (@nil string)) with 0.
  cbn [Z.eqb andb]. cbn. eexists. reflexivity.
Qed.

(** C2, for page lengths that bound the query: on a fixed key set, with
    positive [n] and [m] (limit 0 is unbounded) and a cache slot that holds
    no position for the prefix when the first query starts,
    [Query(p, 0, n)] followed by [Query(p, n, m)] returns, in order, exactly
    the entries of [Query(p, 0, n + m)]: the first [n + m] names of the
    listing, none skipped and none twice, whatever the first query leaves in
    the cache. *)
Theorem C2_paging_equivalence (intSize : Z) (st : memState) (p : string)
  (n m : Z) (keysOnly : bool) (s : SwiftContainer memState) :
  wfStore st ->
  conn s = st ->
  intSize = 32 \/ intSize = 64 ->
  0 < n -> 0 < m ->
  n + m + len st <= maxIntOf intSize ->
  name (cache s) = ""%string \/ prefix (cache s) <> trimSlash p ->
  forall fuel,
    (List.length st < fuel)%nat ->
    exists es,
      twoPages intSize fuel p n m keysOnly s = Some es
      /\ onePage intSize fuel p (n + m) keysOnly s = Some es
      /\ es = map (entryFor keysOnly st)
                  (ztake (n + m) (listing (trimSlash p) ""%string st)).
Proof.
  intros Hwf Hc Hint Hn Hm Hmax Hmiss fuel Hfuel.
  set (p' := trimSlash p).
  set (L := listing p' ""%string st).
  pose proof (length_listing p' ""%string st) as HL. fold L in HL.
  assert (HLz : len L <= len st) by (unfold len; lia).
  pose proof (len_nonneg L) as HL0.
  (* the first page *)
  pose (q1 := prefixQuery p 0 n keysOnly).
  assert (Hmiss1 : cacheHit q1 (cache s) = false) by now apply cacheHit_miss.
  assert (R1 : inRange intSize q1 0 L)
    by (constructor; unfold q1, prefixQuery; cbn [dsq.Limit dsq.Offset]; lia).
  pose proof (runQuery_paging intSize st q1 s Hwf Hc eq_refl eq_refl
                (or_introl Hmiss1)) as H1.
  cbv zeta in H1. rewrite Hmiss1 in H1. cbn [q1 prefixQuery dsq.Prefix dsq.Limit
    dsq.Offset dsq.KeysOnly] in H1. fold p' L in H1.
  pose proof (length_window 0 n L) as Hw1.
  destruct (H1 R1 fuel ltac:(lia)) as (s1 & E1 & Hc1 & Hcache1). clear H1.
  (* the single query *)
  pose (q3 := prefixQuery p 0 (n + m) keysOnly).
  assert (Hmiss3 : cacheHit q3 (cache s) = false) by now apply cacheHit_miss.
  assert (R3 : inRange intSize q3 0 L)
    by (constructor; unfold q3, prefixQuery; cbn [dsq.Limit dsq.Offset]; lia).
  pose proof (runQuery_paging intSize st q3 s Hwf Hc eq_refl eq_refl
                (or_introl Hmiss3)) as H3.
  cbv zeta in H3. rewrite Hmiss3 in H3. cbn [q3 prefixQuery dsq.Prefix dsq.Limit
    dsq.Offset dsq.KeysOnly] in H3. fold p' L in H3.
  pose proof (length_window 0 (n + m) L) as Hw3.
  destruct (H3 R3 fuel ltac:(lia)) as (s3 & E3 & _ & _). clear H3.
  assert (W1 : window 0 n L = ztake n L).
  { unfold window. destruct (Z.eqb_spec n 0); [lia|]. now rewrite zdrop_0. }
  assert (W3 : window 0 (n + m) L = ztake (n + m) L).
  { unfold window. destruct (Z.eqb_spec (n + m) 0); [lia|]. now rewrite zdrop_0. }
  assert (W2 : window n m L = ztake m (zdrop n L)).
  { unfold window. destruct (Z.eqb_spec m 0); [lia|]. reflexivity. }
  rewrite W1 in E1. rewrite W3 in E3.
  unfold onePage. fold q3. rewrite E3. cbn [option_map fst].
  unfold twoPages. fold q1. rewrite E1.
  pose (q2 := prefixQuery p n m keysOnly). fold q2.
  (* the second page, when it starts from the beginning *)
  assert (Hfresh : cacheHit q2 (cache s1) = false ->
            exists es,
              match runQuery intSize fuel q2 s1 with
              | Some (es2, _) =>
                  Some (map (entryFor keysOnly st) (ztake n L) ++ es2)
              | None => None
              end = Some es
              /\ Some (map (entryFor keysOnly st) (ztake (n + m) L)) = Some es
              /\ es = map (entryFor keysOnly st) (ztake (n + m) L)).
  { intros Hmiss2.
    assert (R2 : inRange intSize q2 n L)
      by (constructor; unfold q2, prefixQuery; cbn [dsq.Limit dsq.Offset]; lia).
    pose proof (runQuery_paging intSize st q2 s1 Hwf Hc1 eq_refl eq_refl
                  (or_introl Hmiss2)) as H2.
    cbv zeta in H2. rewrite Hmiss2 in H2. cbn [q2 prefixQuery dsq.Prefix dsq.Limit
      dsq.Offset dsq.KeysOnly] in H2. fold p' L in H2.
    pose proof (length_window n m L) as Hw2.
    destruct (H2 R2 fuel ltac:(lia)) as (s2 & E2 & _ & _).
    rewrite E2, W2, <- map_app, ztake_app_zdrop by lia.
    eexists. repeat split. }
  unfold cacheFrom in Hcache1. rewrite remaining_0, W1 in Hcache1.
  cbn [q1 prefixQuery dsq.Prefix dsq.Limit dsq.Offset] in Hcache1.
  destruct (ztake n L) as [|x w'] eqn:Ew.
  { (* nothing under the prefix *)
    apply Hfresh. rewrite Hcache1. now apply cacheHit_miss. }
  rewrite <- Ew in *.
  assert (Hne : ztake n L <> []) by (rewrite Ew; discriminate).
  destruct (writesCache 0 n L) eqn:Hwc.
  2:{ apply Hfresh. rewrite Hcache1. now apply cacheHit_miss. }
  (* the first page has written the cache *)
  set (w := ztake n L) in *.
  assert (Hcache : cache s1 = mkCache p' (len w) (last w ""%string)).
  { rewrite Hcache1. rewrite Ew. fold w. rewrite <- Ew. f_equal. }
  assert (Hlenw : len w = Z.min n (len L)) by (subst w; apply len_ztake; lia).
  assert (Hsplit : L = removelast w ++ last w ""%string :: zdrop n L).
  { rewrite <- (ztake_zdrop n L) at 1. fold w.
    rewrite (last_split w ""%string Hne) at 1.
    now rewrite <- app_assoc. }
  assert (Hafter : listing p' (last w ""%string) st = zdrop n L).
  { apply (listing_after st p' Hwf ""%string _ (removelast w)). exact Hsplit. }
  assert (Hlast : last w ""%string <> ""%string).
  { apply (listing_In st p' Hwf ""%string). fold L. rewrite Hsplit.
    apply in_or_app. right. now left. }
  assert (Hhit2 : cacheHit q2 (cache s1) = true).
  { rewrite Hcache. unfold cacheHit.
    cbn [prefix name index q2 prefixQuery dsq.Prefix dsq.Offset].
    fold p'. rewrite String.eqb_refl.
    apply String.eqb_neq in Hlast. rewrite Hlast. cbn [negb andb].
    apply Z.leb_le. lia. }
  destruct (Z.eq_dec (len w) n) as [Hfullw|Hshort].
  - (* the limit was reached: the second page resumes right there *)
    assert (Hidx : index (cache s1) = dsq.Offset q2) by (rewrite Hcache; exact Hfullw).
    pose proof (runQuery_paging intSize st q2 s1 Hwf Hc1 eq_refl eq_refl
                  (or_intror Hidx)) as H2.
    cbv zeta in H2. rewrite Hhit2 in H2.
    cbn [q2 prefixQuery dsq.Prefix dsq.Limit dsq.Offset dsq.KeysOnly] in H2.
    fold p' in H2.
    assert (Hname1 : name (cache s1) = last w ""%string) by now rewrite Hcache.
    rewrite Hname1, Hafter in H2.
    assert (R2 : inRange intSize q2 0 (zdrop n L)).
    { constructor; unfold q2, prefixQuery; cbn [dsq.Limit dsq.Offset]; try lia.
      rewrite len_zdrop by lia. lia. }
    pose proof (length_window 0 m (zdrop n L)) as Hw2.
    assert (Hd : (List.length (zdrop n L) <= List.length L)%nat).
    { unfold zdrop. rewrite length_skipn. lia. }
    destruct (H2 R2 fuel ltac:(lia)) as (s2 & E2 & _ & _).
    rewrite E2. unfold window. destruct (Z.eqb_spec m 0); [lia|].
    rewrite zdrop_0 by lia. rewrite <- map_app. fold w.
    unfold w. rewrite ztake_app_zdrop by lia.
    eexists. repeat split.
  - (* the listing ended before the limit: nothing follows the marker *)
    assert (Hall : len L < n) by lia.
    assert (Hnil : zdrop n L = []) by (apply zdrop_all; lia).
    assert (Hl2 : listing (trimSlash (dsq.Prefix q2)) (name (cache s1)) st = []).
    { rewrite Hcache. cbn [name q2 prefixQuery dsq.Prefix]. fold p'.
      now rewrite Hafter. }
    destruct (runQuery_after_last intSize st q2 s1 fuel Hc1 eq_refl eq_refl
                Hhit2 Hl2 Hm ltac:(lia)) as (s2 & E2).
    rewrite E2, app_nil_r.
    assert (Ew' : w = ztake (n + m) L).
    { unfold w. rewrite !ztake_all by lia. reflexivity. }
    rewrite <- Ew'. eexists. repeat split.
Qed.

(** ** The test scenario *)

(** C4: on the container holding exactly the six test keys with their
    values, with an empty cache, [Query(prefix "/a/", offset 2, limit 2)]
    returns /a/b/d and /a/c (with their values); the cache then records
    prefix "a/", name "a/c", index 4; and the following
    [Query(prefix "/a/", offset 4, limit 2)] returns /a/d alone. *)
Theorem C4_example_scenario :
  testStore
  = [ ("a", value "a"); ("a/b", value "ab"); ("a/b/c", value "abc");
      ("a/b/d", value "a/b/d"); ("a/c", value "ac"); ("a/d", value "ad") ]%string
  /\ exists s1 s2,
      runQuery 64 3 (prefixQuery "/a/" 2 2 false) (newSwift testStore)
      = Some ([ dsq.mkEntry "/a/b/d" (value "a/b/d");
                dsq.mkEntry "/a/c" (value "ac") ]%string, s1)
      /\ cache s1 = mkCache "a/" 4 "a/c"
      /\ runQuery 64 3 (prefixQuery "/a/" 4 2 false) s1
         = Some ([ dsq.mkEntry "/a/d" (value "ad") ]%string, s2).
Proof.
  split; [vm_compute; reflexivity|].
  eexists. eexists. split; [vm_compute; reflexivity|].
  split; vm_compute; reflexivity.
Qed.

(** C1, the code at the failing input: after a first page of one entry the
    cache is (a/, 1, a/b).  [Query(prefix "/a/", offset 3)] then resumes
    from the marker a/b with the residual skip computed as
    cachedIndex - requestedOffset = -2 instead of 2, so nothing is skipped
    and four keys are emitted, where the same query without the cache emits
    the two keys /a/c and /a/d. *)
Theorem C1_resume_skip_reversed :
  option_map (fun r => cache (snd r))
    (runQuery 64 3 (prefixQuery "/a/" 0 1 true) (newSwift testStore))
  = Some (cache afterFirstPage)
  /\ SwiftContainer_Query 64 (prefixQuery "/a/" 3 0 true) afterFirstPage
     = Ok (mkIter (prefixQuery "/a/" 3 0 true)
                  (swift.mkOpts "a/" "a/b" 10000) (-2) 0 [] false)
  /\ option_map (fun r => keysOf (fst r))
       (runQuery 64 6 (prefixQuery "/a/" 3 0 true) afterFirstPage)
     = Some ["/a/b/c"; "/a/b/d"; "/a/c"; "/a/d"]%string
  /\ option_map (fun r => keysOf (fst r))
       (runQuery 64 6 (prefixQuery "/a/" 3 0 true) (newSwift testStore))
     = Some ["/a/c"; "/a/d"]%string.
Proof. repeat split; vm_compute; reflexivity. Qed.

(** C2 fails for a zero page length: limit 0 is unbounded, so the first
    query already returns all five keys under /a/ while [Query(0, 0 + 1)]
    returns one. *)
Lemma C2_unbounded_limit_counterexample :
  ~ pagingAgrees 64 8 "/a/" 0 1 true (newSwift testStore).
Proof.
  intros (es & es' & H1 & H2 & H3).
  vm_compute in H1. vm_compute in H2.
  inversion H1; subst es; clear H1. inversion H2; subst es'; clear H2.
  specialize (H3 "/a/c"%string). cbn in H3.
  assert (F : "/a/b"%string = "/a/c"%string \/ False).
  { apply H3. right. right. right. left. reflexivity. }
  destruct F as [F|[]]. discriminate.
Qed.

(** C5 fails for the cache: the first page is short, the listing is known
    to be exhausted, and the first emission writes the cache before the
    consumer closes. *)
Lemma C5_emission_before_close_counterexample :
  exists it,
    SwiftContainer_Query 64 (prefixQuery "/a/" 0 0 true) (newSwift testStore) = Ok it
    /\ let out := takeThenClose memConn 64 1 it (newSwift testStore) in
       keysOf (fst (fst out)) = ["/a/b"]%string
       /\ cache (newSwift testStore) = mkCache "" 0 ""
       /\ cache (snd out) = mkCache "a/" 1 "a/b"
       /\ cache (snd out) <> cache (newSwift testStore).
Proof.
  eexists. split; [vm_compute; reflexivity|].
  vm_compute. repeat split. discriminate.
Qed.


(** C3, the code at the failing input: the unbounded query over exactly
    10000 names, from a cleared cache and read to its end, emits them all
    and learns of the exhaustion only from the empty page that follows, when
    no name is left to emit: the cache is left as it was, where the claim
    has it hold the prefix, index 10000 and the last name.  When the
    exhaustion shows in a short page, as in the test, the last emission
    does store the cursor. *)
Theorem C3_full_page_cursor_missed :
  ascendingb (map fst (bigStore fullPage)) = true
  /\ fullPageRun
     = Some (10000, "/oup"%string, None, true, mkCache "" 0 "")
  /\ mkCache "" 0 "" <> mkCache "" (0 + 10000) "oup"
  /\ option_map (fun r => (keysOf (fst r), cache (snd r)))
       (runQuery 64 3 (prefixQuery "/a/" 4 2 true)
          (withCache testStore (mkCache "a/" 4 "a/c")))
     = Some (["/a/d"]%string, mkCache "a/" (4 + 1) "a/d").
Proof.
  split; [vm_compute; reflexivity|].
  split; [vm_compute; reflexivity|].
  split; [discriminate|vm_compute; reflexivity].
Qed.

(** ** Witnesses *)

Lemma C9_GetSize_outcomes_witness :
  (64 = 32 \/ 64 = 64)
  /\ fst (SwiftContainer_GetSize memConn 64 "/a/b"%string (newSwift testStore))
     = Ok 2.
Proof.
  split; [right; reflexivity|].
  apply (proj1 (C9_GetSize_outcomes memConn 64 "/a/b"%string (newSwift testStore)
                  (or_intror eq_refl)) (swift.mkObject 2)).
  - reflexivity.
  - vm_compute. split; discriminate.
Defined.


Lemma wfStore_testStore : wfStore testStore.
Proof.
  split.
  - vm_compute. repeat constructor.
  - vm_compute. repeat (constructor; [discriminate|]). constructor.
Qed.

Lemma C2_paging_equivalence_witness :
  wfStore testStore
  /\ exists es,
      twoPages 64 7 "/a/" 2 2 true (newSwift testStore) = Some es
      /\ onePage 64 7 "/a/" (2 + 2) true (newSwift testStore) = Some es
      /\ keysOf es = ["/a/b"; "/a/b/c"; "/a/b/d"; "/a/c"]%string.
Proof.
  split; [exact wfStore_testStore|].
  destruct (C2_paging_equivalence 64 testStore "/a/" 2 2 true
              (newSwift testStore) wfStore_testStore eq_refl
              (or_intror eq_refl) ltac:(lia) ltac:(lia)
              ltac:(vm_compute; discriminate) (or_introl eq_refl)
              7%nat ltac:(vm_compute; lia))
    as (es & E1 & E2 & Ees).
  exists es. split; [exact E1|]. split; [exact E2|].
  rewrite Ees. vm_compute. reflexivity.
Defined.

Lemma C5_close_frame_witness :
  exists it,
    SwiftContainer_Query 64 (prefixQuery "/a/" 0 2 true) (newSwift testStore) = Ok it
    /\ keysOf (fst (fst (takeThenClose memConn 64 1 it (newSwift testStore))))
       = ["/a/b"]%string
    /\ cache (snd (takeThenClose memConn 64 1 it (newSwift testStore)))
       = cache (newSwift testStore).
Proof.
  eexists. split; [vm_compute; reflexivity|]. split; [vm_compute; reflexivity|].
  apply (C5_close_frame memConn 64 1).
  - vm_compute. reflexivity.
  - vm_compute. intros [_ H]. discriminate.
Defined.

(** * Further properties

    The effects of a query and its failures, single objects and batches on
    the in-memory container, cursors across queries and writes, and the
    plugin's configuration. *)

(** ** The trace of a query *)

Section QueryTrace.

Context {B : Type}.
Variable C : swift.Connection B.
Variable intSize : Z.

Lemma fetchedNames_app (l1 l2 : list Event) :
  fetchedNames (l1 ++ l2) = fetchedNames l1 ++ fetchedNames l2.
Proof. unfold fetchedNames. apply flat_map_app. Qed.

Lemma stepTrace_nil (it : queryIter) (s : SwiftContainer B) :
  stepTrace it s it s [].
Proof.
  split; [now rewrite app_nil_r|]. split; [constructor|]. now repeat split.
Qed.

Lemma stepTrace_app (it it1 it2 : queryIter) (s s1 s2 : SwiftContainer B)
  (e1 e2 : list Event) :
  stepTrace it s it1 s1 e1 ->
  stepTrace it1 s1 it2 s2 e2 ->
  stepTrace it s it2 s2 (e1 ++ e2).
Proof.
  intros (T1 & F1 & Q1 & C1 & P1) (T2 & F2 & Q2 & C2 & P2).
  split; [rewrite T2, T1; now rewrite app_assoc|].
  split; [apply Forall_app; split; [exact F1|now rewrite <- C1, <- P1]|].
  split; [congruence|]. split; congruence.
Qed.

Lemma stepTrace_frame (it it' : queryIter) (s s' : SwiftContainer B)
  (evs : list Event) :
  loopFrame it s it' s' ->
  trace s' = trace s ++ evs ->
  Forall (queryEvent (Container s) (swift.Prefix (opts it))) evs ->
  stepTrace it s it' s' evs.
Proof.
  intros (F1 & F2 & F3 & F4 & F5 & F6) T F. now repeat split.
Qed.

Lemma loopBody_trace (it : queryIter) (s : SwiftContainer B) r it' s' :
  loopBody C intSize it s = (r, it', s') ->
  exists evs, stepTrace it s it' s' evs /\ fetchedNames evs = [].
Proof.
  intros E. pose proof (loopBody_frame _ _ _ _ _ _ _ E) as Fr.
  revert E. unfold loopBody. destruct (doneFetching it).
  - intros E; inversion E; subst. exists []. split; [apply stepTrace_nil|reflexivity].
  - rewrite call_trace.
    assert (H : forall s1 : SwiftContainer B,
               s1 = s' ->
               trace s1 = trace s ++ [CallObjectNames (Container s) (opts it)] ->
               exists evs, stepTrace it s it' s' evs /\ fetchedNames evs = []).
    { intros s1 -> T. exists [CallObjectNames (Container s) (opts it)].
      split; [|reflexivity].
      apply stepTrace_frame; [exact Fr|exact T|].
      constructor; [|constructor]. split; reflexivity. }
    destruct (swift.ObjectNames C (Container s) (opts it) (conn s))
      as [[newNames|e] b']; cbn [fst snd].
    + destruct ((len newNames =? 0) && (len (names it) =? 0));
        [|destruct newNames];
        intros E; inversion E; subst; (eapply H; [reflexivity|reflexivity]).
    + intros E; inversion E; subst. eapply H; reflexivity.
Qed.

Lemma Next_loop_trace (fuel : nat) :
  forall (it : queryIter) (s : SwiftContainer B) r it' s',
    Next_loop C intSize fuel it s = (r, it', s') ->
    exists evs, stepTrace it s it' s' evs /\ fetchedNames evs = [].
Proof.
  induction fuel as [|fuel IH]; intros it s r it' s'; rewrite Next_loop_eq;
    destruct ((len (names it) =? 0) || (0 <? offset it));
    try (intros E; inversion E; subst; exists [];
         split; [apply stepTrace_nil|reflexivity]).
  destruct (loopBody C intSize it s) as [[[r1|] it1] s1] eqn:Eb.
  - intros E; inversion E; subst. eapply loopBody_trace; eassumption.
  - intros E.
    destruct (loopBody_trace _ _ _ _ _ Eb) as (e1 & T1 & H1).
    destruct (IH _ _ _ _ _ E) as (e2 & T2 & H2).
    exists (e1 ++ e2). split.
    + eapply stepTrace_app; eassumption.
    + now rewrite fetchedNames_app, H1, H2.
Qed.

Lemma fetchOf_nil (it : queryIter) (r : nextResult) (evs : list Event) :
  fetchedNames evs = [] ->
  (forall res, r <> Yield res true) ->
  fetchOf it r evs.
Proof.
  intros H Hr. unfold fetchOf. rewrite H. cbn. split; [auto|]. split; [lia|].
  intros res E. now apply Hr in E.
Qed.

Lemma emit_trace (it1 : queryIter) (s1 : SwiftContainer B) r it2 s2 :
  emit C intSize it1 s1 = (r, it2, s2) ->
  exists evs, stepTrace it1 s1 it2 s2 evs /\ fetchOf it1 r evs.
Proof.
  unfold emit. destruct (names it1) as [|n names1].
  - intros E; inversion E; subst. exists [].
    split; [apply stepTrace_nil|]. apply fetchOf_nil; [reflexivity|discriminate].
  - cbv zeta.
    set (count1 := wrapInt intSize (count it1 + 1)).
    set (opts1 := if _ : bool then _ else opts it1).
    assert (Hp : swift.Prefix opts1 = swift.Prefix (opts it1)).
    { subst opts1. match goal with |- context [if ?b then _ else _] => destruct b end;
        reflexivity. }
    set (guard := doneFetching it1 || _).
    set (s2' := if guard then storeCache _ _ n s1 else s1).
    set (it2' := mkIter _ _ _ _ _ _).
    assert (Hs : exists e0,
               stepTrace it1 s1 it2' s2' e0 /\ fetchedNames e0 = []).
    { subst s2'. destruct guard.
      - exists [CacheStore (swift.Prefix opts1)
                  (wrapInt intSize (dsq.Offset (q it1) + count1)) n].
        split; [|reflexivity].
        split; [reflexivity|]. split; [|now repeat split].
        constructor; [|constructor]. exact Hp.
      - exists []. split; [|reflexivity].
        split; [now rewrite app_nil_r|]. split; [constructor|now repeat split]. }
    destruct Hs as (e0 & T0 & H0).
    destruct (dsq.KeysOnly (q it1)) eqn:Ek.
    + intros E; inversion E; subst. exists e0. split; [exact T0|].
      unfold fetchOf. rewrite H0, Ek. cbn. split; [auto|]. split; [lia|].
      discriminate.
    + rewrite call_trace.
      assert (T1 : forall b' : B,
                 stepTrace it1 s1 it2'
                   (mkSwift b' (cache s2') (Container s2')
                      (trace s2' ++ [CallObjectGetBytes (Container s2') n]))
                   (e0 ++ [CallObjectGetBytes (Container s2') n])).
      { intros b'. destruct T0 as (T0 & F0 & Q0 & C0 & P0).
        split; [cbn [trace]; rewrite T0; now rewrite app_assoc|].
        split; [|now repeat split].
        apply Forall_app. split; [exact F0|]. constructor; [|constructor].
        exact C0. }
      match goal with |- context [swift.ObjectGetBytes C ?c ?n ?b] =>
        destruct (swift.ObjectGetBytes C c n b) as [[v|e] b'] end;
        cbn [fst snd]; intros E; inversion E; subst;
        (eexists; split; [apply T1|]);
        unfold fetchOf; rewrite fetchedNames_app, H0, Ek; cbn;
        (split; [discriminate|]); (split; [lia|]).
      * intros res Hres _. inversion Hres; subst. reflexivity.
      * discriminate.
Qed.

Lemma Next_trace (it : queryIter) (s : SwiftContainer B) r it' s' :
  Next C intSize it s = (r, it', s') ->
  exists evs, stepTrace it s it' s' evs /\ fetchOf it r evs.
Proof.
  unfold Next.
  destruct (negb (dsq.Limit (q it) =? 0) && (count it =? dsq.Limit (q it))).
  - intros E; inversion E; subst. exists [].
    split; [apply stepTrace_nil|]. apply fetchOf_nil; [reflexivity|discriminate].
  - destruct (Next_loop C intSize (Datatypes.S (Z.to_nat (offset it))) it s)
      as [[lr it1] s1] eqn:El.
    destruct (Next_loop_trace _ _ _ _ _ _ El) as (e1 & T1 & H1).
    destruct lr.
    + intros E; inversion E; subst. exists e1. split; [exact T1|].
      apply fetchOf_nil; [exact H1|].
      intros res Hr. inversion Hr; subst.
      apply Next_loop_return in El. discriminate.
    + intros E. destruct (emit_trace _ _ _ _ _ E) as (e2 & T2 & K2 & L2 & R2).
      exists (e1 ++ e2). split; [eapply stepTrace_app; eassumption|].
      destruct T1 as (_ & _ & Q1 & _).
      unfold fetchOf. rewrite fetchedNames_app, H1. cbn [app]. rewrite <- Q1.
      now repeat split.
    + intros E; inversion E; subst. exists e1. split; [exact T1|].
      apply fetchOf_nil; [exact H1|discriminate].
    + intros E; inversion E; subst. exists e1. split; [exact T1|].
      apply fetchOf_nil; [exact H1|discriminate].
Qed.

Lemma fetchedFor_last (it : queryIter) (r : nextResult) (evs : list Event) :
  fetchOf it r evs -> fetchedFor (dsq.KeysOnly (q it)) [] evs.
Proof.
  intros (K & L & R). unfold fetchedFor.
  destruct (dsq.KeysOnly (q it)); [auto|]. now exists (fetchedNames evs).
Qed.

Lemma fetchedFor_cons (it it1 : queryIter) (res : dsq.Result)
  (es : list dsq.Entry) (e1 e2 : list Event) :
  q it1 = q it ->
  fetchOf it (Yield res true) e1 ->
  fetchedFor (dsq.KeysOnly (q it1)) es e2 ->
  fetchedFor (dsq.KeysOnly (q it)) (dsq.entry res :: es) (e1 ++ e2).
Proof.
  intros Q (K & L & R). unfold fetchedFor. rewrite Q, fetchedNames_app.
  destruct (dsq.KeysOnly (q it)).
  - intros ->. now rewrite K.
  - intros (extra & E & Le). exists extra. split; [|exact Le].
    rewrite (R res eq_refl eq_refl), E. reflexivity.
Qed.

Lemma Close_trace (it : queryIter) (s : SwiftContainer B) :
  stepTrace it s (snd (fst (Close it s))) (snd (Close it s)) [].
Proof.
  cbn. split; [now rewrite app_nil_r|]. split; [constructor|now repeat split].
Qed.

Lemma Rest_trace (fuel : nat) :
  forall (it : queryIter) (s : SwiftContainer B) es e it' s',
    Rest C intSize fuel it s = Some (es, e, it', s') ->
    exists evs, stepTrace it s it' s' evs /\ fetchedFor (dsq.KeysOnly (q it)) es evs.
Proof.
  induction fuel as [|fuel IH]; intros it s es e it' s'; cbn [Rest];
    [discriminate|].
  destruct (Next C intSize it s) as [[r it1] s1] eqn:En.
  destruct (Next_trace _ _ _ _ _ En) as (e1 & T1 & H1).
  destruct r as [res [|]| |]; try discriminate.
  - destruct (dsq.Error res).
    + intros E; inversion E; subst. exists e1. split; [exact T1|].
      eapply fetchedFor_last; eassumption.
    + destruct (Rest C intSize fuel it1 s1) as [[[[es2 e2] it2] s2]|] eqn:Er;
        [|discriminate].
      intros E; inversion E; subst.
      destruct (IH _ _ _ _ _ _ Er) as (ev2 & T2 & H2).
      exists (e1 ++ ev2). split; [eapply stepTrace_app; eassumption|].
      destruct T1 as (_ & _ & Q1 & _).
      eapply fetchedFor_cons; eassumption.
  - intros E; inversion E; subst. exists e1. split.
    + rewrite <- (app_nil_r e1). eapply stepTrace_app; [exact T1|].
      apply Close_trace.
    + eapply fetchedFor_last; eassumption.
Qed.

Lemma takeThenClose_trace (n : nat) :
  forall (it : queryIter) (s : SwiftContainer B) es it' s',
    takeThenClose C intSize n it s = (es, it', s') ->
    exists evs, stepTrace it s it' s' evs /\ fetchedFor (dsq.KeysOnly (q it)) es evs.
Proof.
  induction n as [|n IH]; intros it s es it' s'; cbn [takeThenClose].
  - intros E; inversion E; subst. exists []. split; [apply Close_trace|].
    unfold fetchedFor. destruct (dsq.KeysOnly (q it)); [reflexivity|].
    exists []. cbn. split; [reflexivity|lia].
  - destruct (Next C intSize it s) as [[r it1] s1] eqn:En.
    destruct (Next_trace _ _ _ _ _ En) as (e1 & T1 & H1).
    assert (Hend : (es, it', s')
                   = ([], snd (fst (Close it1 s1)), snd (Close it1 s1)) ->
                   exists evs, stepTrace it s it' s' evs /\ fetchedFor (dsq.KeysOnly (q it)) es evs).
    { intros E; inversion E; subst. exists e1. split.
      - rewrite <- (app_nil_r e1). eapply stepTrace_app; [exact T1|].
        apply Close_trace.
      - eapply fetchedFor_last; eassumption. }
    destruct r as [res [|]| |]; try (intros E; apply Hend; now rewrite <- E).
    destruct (takeThenClose C intSize n it1 s1) as [[es2 it2] s2] eqn:Er.
    intros E; inversion E; subst.
    destruct (IH _ _ _ _ _ Er) as (ev2 & T2 & H2).
    exists (e1 ++ ev2). split; [eapply stepTrace_app; eassumption|].
    destruct T1 as (_ & _ & Q1 & _).
    eapply fetchedFor_cons; eassumption.
Qed.

Lemma Query_iter (qu : dsq.Query) (s : SwiftContainer B) (it : queryIter) :
  SwiftContainer_Query intSize qu s = Ok it ->
  q it = qu
  /\ swift.Prefix (opts it) = trimSlash (dsq.Prefix qu)
  /\ count it = 0 /\ names it = [] /\ doneFetching it = false.
Proof.
  unfold SwiftContainer_Query.
  destruct (dsq.Orders qu); [discriminate|].
  destruct (dsq.Filters qu); [discriminate|].
  cbv zeta. intros E; inversion E; subst; clear E. cbn.
  repeat match goal with |- context [if ?b then _ else _] => destruct b end;
    now repeat split.
Qed.

(** X1: whatever a consumer does with the results of a query, reading them
    to the end or taking some and closing, the datastore only lists names of
    its container under the normalized prefix of the query, reads values of
    that container, and stores cursors for that prefix: it never writes or
    deletes an object, never invalidates the cache, and never touches
    another prefix's cursor. *)
Theorem Query_effects_scoped (qu : dsq.Query) (s : SwiftContainer B)
  (it : queryIter) :
  SwiftContainer_Query intSize qu s = Ok it ->
  (forall n, exists evs,
      trace (snd (takeThenClose C intSize n it s)) = trace s ++ evs
      /\ Forall (queryEvent (Container s) (trimSlash (dsq.Prefix qu))) evs)
  /\ (forall fuel es e it' s',
      Rest C intSize fuel it s = Some (es, e, it', s') ->
      exists evs,
        trace s' = trace s ++ evs
        /\ Forall (queryEvent (Container s) (trimSlash (dsq.Prefix qu))) evs).
Proof.
  intros Hq. destruct (Query_iter _ _ _ Hq) as (Q1 & Q2 & _). split.
  - intros n.
    destruct (takeThenClose C intSize n it s) as [[es it'] s'] eqn:E.
    destruct (takeThenClose_trace _ _ _ _ _ _ E) as (evs & (T & F & _) & _).
    exists evs. rewrite Q2 in F. now split.
  - intros fuel es e it' s' E.
    destruct (Rest_trace _ _ _ _ _ _ _ E) as (evs & (T & F & _) & _).
    exists evs. rewrite Q2 in F. now split.
Qed.

(** X2: the values a query reads are those of the entries it hands out, in
    their order: a keys-only query reads no value at all; otherwise each
    entry's value is read exactly once, under the entry's key without its
    separator, and at most one further value is read; names that are
    skipped as offset are never read. *)
Theorem Query_values_fetched (qu : dsq.Query) (s : SwiftContainer B)
  (it : queryIter) :
  SwiftContainer_Query intSize qu s = Ok it ->
  (forall n, exists evs,
      trace (snd (takeThenClose C intSize n it s)) = trace s ++ evs
      /\ fetchedFor (dsq.KeysOnly qu)
           (fst (fst (takeThenClose C intSize n it s))) evs)
  /\ (forall fuel es e it' s',
      Rest C intSize fuel it s = Some (es, e, it', s') ->
      exists evs,
        trace s' = trace s ++ evs /\ fetchedFor (dsq.KeysOnly qu) es evs).
Proof.
  intros Hq. destruct (Query_iter _ _ _ Hq) as (Q1 & _). split.
  - intros n.
    destruct (takeThenClose C intSize n it s) as [[es it'] s'] eqn:E.
    destruct (takeThenClose_trace _ _ _ _ _ _ E) as (evs & (T & _) & H).
    exists evs. rewrite Q1 in H. now split.
  - intros fuel es e it' s' E.
    destruct (Rest_trace _ _ _ _ _ _ _ E) as (evs & (T & _) & H).
    exists evs. rewrite Q1 in H. now split.
Qed.

End QueryTrace.

Lemma Query_effects_scoped_witness :
  SwiftContainer_Query 64 (prefixQuery "/a/" 1 2 false) (newSwift testStore)
  = Ok (mkIter (prefixQuery "/a/" 1 2 false) (swift.mkOpts "a/" "" 3) 1 0 [] false)
  /\ exists evs,
      trace (snd (takeThenClose memConn 64 5
                    (mkIter (prefixQuery "/a/" 1 2 false)
                       (swift.mkOpts "a/" "" 3) 1 0 [] false)
                    (newSwift testStore)))
      = trace (newSwift testStore) ++ evs
      /\ Forall (queryEvent "swiftds_test" "a/") evs.
Proof.
  split; [vm_compute; reflexivity|].
  apply (Query_effects_scoped memConn 64 (prefixQuery "/a/" 1 2 false)
           (newSwift testStore)).
  vm_compute. reflexivity.
Defined.

Lemma Query_values_fetched_witness :
  SwiftContainer_Query 64 (prefixQuery "/a/" 1 2 false) (newSwift testStore)
  = Ok (mkIter (prefixQuery "/a/" 1 2 false) (swift.mkOpts "a/" "" 3) 1 0 [] false)
  /\ exists evs,
      trace (snd (takeThenClose memConn 64 5
                    (mkIter (prefixQuery "/a/" 1 2 false)
                       (swift.mkOpts "a/" "" 3) 1 0 [] false)
                    (newSwift testStore)))
      = trace (newSwift testStore) ++ evs
      /\ fetchedFor false
           (fst (fst (takeThenClose memConn 64 5
                        (mkIter (prefixQuery "/a/" 1 2 false)
                           (swift.mkOpts "a/" "" 3) 1 0 [] false)
                        (newSwift testStore)))) evs.
Proof.
  split; [vm_compute; reflexivity|].
  apply (Query_values_fetched memConn 64 (prefixQuery "/a/" 1 2 false)
           (newSwift testStore)).
  vm_compute. reflexivity.
Defined.

(** ** Reads, writes and the cursor *)

Section ReadsAndWrites.

Context {B : Type}.
Variable C : swift.Connection B.
Variable intSize : Z.
Variable encodable : tar.Header -> bool.

(** The iterator a query starts with when it does not resume. *)
Lemma Query_from_start (qu : dsq.Query) (s : SwiftContainer B) :
  dsq.Orders qu = None -> dsq.Filters qu = None ->
  name (cache s) = ""%string ->
  let end_ := wrapInt intSize (dsq.Offset qu + dsq.Limit qu) in
  SwiftContainer_Query intSize qu s
  = Ok (mkIter qu
          (swift.mkOpts (trimSlash (dsq.Prefix qu)) ""
             (if negb (dsq.Limit qu =? 0) && (end_ <? 10000) then end_ else 10000))
          (dsq.Offset qu) 0 [] false).
Proof.
  intros Ho Hf Hn. unfold SwiftContainer_Query. rewrite Ho, Hf, Hn.
  cbv zeta. cbn [swift.Prefix swift.Marker swift.Limit String.eqb negb].
  rewrite andb_false_r. cbn [andb swift.Prefix swift.Marker swift.Limit].
  destruct (negb (dsq.Limit qu =? 0)
            && (wrapInt intSize (dsq.Offset qu + dsq.Limit qu) <? 10000));
    reflexivity.
Qed.

Lemma commitDeletes_cache (b : swiftBatch) (s : SwiftContainer B) :
  cache (snd (commitDeletes C b s)) = cache s.
Proof.
  unfold commitDeletes. destruct (0 <? len (delKeys b)); [|reflexivity].
  rewrite call_trace. reflexivity.
Qed.

Lemma Commit_cache (b : swiftBatch) (s : SwiftContainer B) :
  name (cache (snd (swiftBatch_Commit C b s))) = ""%string.
Proof.
  unfold swiftBatch_Commit. destruct (tarWriter b) as [tw|].
  - destruct (tar.Close tw) as [[e|] tw1]; [reflexivity|].
    rewrite call_trace. cbn [fst snd].
    match goal with |- context [swift.BulkUpload C ?c ?d ?f ?x] =>
      destruct (swift.BulkUpload C c d f x) as [[e|] b'] end; cbn [fst snd];
      [reflexivity|].
    rewrite commitDeletes_cache. reflexivity.
  - rewrite commitDeletes_cache. reflexivity.
Qed.

(** X3: a query issued after a [Put], a [Delete] or a batch [Commit] never
    resumes from the cursor, whatever the cursor was and whatever the write
    returned: it lists from the beginning of the prefix and skips exactly
    the requested offset. *)
Theorem Query_restarts_after_write (k : Key) (val : bytes) (b : swiftBatch)
  (qu : dsq.Query) (s : SwiftContainer B) :
  dsq.Orders qu = None -> dsq.Filters qu = None ->
  let end_ := wrapInt intSize (dsq.Offset qu + dsq.Limit qu) in
  let fromStart :=
    Ok (mkIter qu
          (swift.mkOpts (trimSlash (dsq.Prefix qu)) ""
             (if negb (dsq.Limit qu =? 0) && (end_ <? 10000) then end_ else 10000))
          (dsq.Offset qu) 0 [] false) in
  SwiftContainer_Query intSize qu (snd (SwiftContainer_Put C k val s)) = fromStart
  /\ SwiftContainer_Query intSize qu (snd (SwiftContainer_Delete C k s)) = fromStart
  /\ SwiftContainer_Query intSize qu (snd (swiftBatch_Commit C b s)) = fromStart.
Proof.
  intros Ho Hf end_ fromStart. subst fromStart end_.
  split; [|split]; apply Query_from_start; try assumption.
  - unfold SwiftContainer_Put. rewrite call_trace. reflexivity.
  - unfold SwiftContainer_Delete. rewrite call_trace. reflexivity.
  - apply Commit_cache.
Qed.

(** X4: [Get] and [Has] make one call on the stripped name and leave the
    cursor alone.  [Get] returns the bytes read, the datastore's not-found
    error when the object is absent, and any other error as it is; [Has]
    answers true when the object exists, false without an error when it is
    absent, and passes any other error on. *)
Theorem Get_Has_outcomes (k : Key) (s : SwiftContainer B) :
  let read := swift.ObjectGetBytes C (Container s) (keyToName k) (conn s) in
  let stat := swift.Object_ C (Container s) (keyToName k) (conn s) in
  let get := SwiftContainer_Get C k s in
  let has := SwiftContainer_Has C k s in
  ((forall data, fst read = Ok data -> fst get = Ok data)
   /\ (fst read = Err ObjectNotFound -> fst get = Err ErrNotFound)
   /\ (forall e, fst read = Err e -> e <> ObjectNotFound -> fst get = Err e)
   /\ snd get = mkSwift (snd read) (cache s) (Container s)
                  (trace s ++ [CallObjectGetBytes (Container s) (keyToName k)]))
  /\ ((forall info, fst stat = Ok info -> fst has = Ok true)
      /\ (fst stat = Err ObjectNotFound -> fst has = Ok false)
      /\ (forall e, fst stat = Err e -> e <> ObjectNotFound -> fst has = Err e)
      /\ snd has = mkSwift (snd stat) (cache s) (Container s)
                     (trace s ++ [CallObject (Container s) (keyToName k)])).
Proof.
  cbv zeta. split.
  - unfold SwiftContainer_Get. rewrite call_trace.
    destruct (swift.ObjectGetBytes C (Container s) (keyToName k) (conn s))
      as [[data|e] b1]; cbn [fst snd].
    + split; [congruence|]. split; [discriminate|]. split; [discriminate|reflexivity].
    + split; [discriminate|]. split; [intros E; inversion E; reflexivity|].
      split; [|destruct e; reflexivity].
      intros e0 E Hne. inversion E; subst. destruct e0; try reflexivity.
      congruence.
  - unfold SwiftContainer_Has. rewrite call_trace.
    destruct (swift.Object_ C (Container s) (keyToName k) (conn s))
      as [[info|e] b1]; cbn [fst snd].
    + split; [reflexivity|]. split; [discriminate|]. split; [discriminate|reflexivity].
    + split; [discriminate|]. split; [intros E; inversion E; reflexivity|].
      split; [|destruct e; reflexivity].
      intros e0 E Hne. inversion E; subst. destruct e0; try reflexivity.
      congruence.
Qed.

(** ** Index safety of the iterator *)

Lemma safe_loop (it : queryIter) :
  safeIter it ->
  (len (names it) =? 0) || (0 <? offset it) = true ->
  names it = [].
Proof.
  intros Hs Hc. destruct (names it) as [|n l] eqn:E; [reflexivity|].
  exfalso. apply orb_true_iff in Hc. destruct Hc as [Hc|Hc].
  - apply Z.eqb_eq in Hc. unfold len in Hc. cbn [List.length] in Hc. lia.
  - apply Z.ltb_lt in Hc. assert (offset it <= 0) by (apply Hs; congruence). lia.
Qed.

Lemma loopBody_safe (it : queryIter) (s : SwiftContainer B) r it' s' :
  names it = [] ->
  loopBody C intSize it s = (r, it', s') ->
  r <> Some LoopPanic /\ safeIter it'.
Proof.
  intros Hn. unfold loopBody, safeIter. destruct (doneFetching it).
  - intros E; inversion E; subst. split; [discriminate|]. congruence.
  - rewrite call_trace.
    destruct (swift.ObjectNames C (Container s) (opts it) (conn s))
      as [[newNames|e] b']; cbn [fst snd].
    + rewrite Hn. change (len (@nil string) =? 0) with true.
      rewrite andb_true_r.
      destruct (len newNames =? 0) eqn:El.
      * intros E; inversion E; subst. cbn. split; [discriminate|]. congruence.
      * destruct newNames as [|n0 rest] eqn:En; [discriminate|].
        rewrite <- En. intros E; inversion E; subst it' s' r; clear E.
        split; [discriminate|]. cbn [names offset app].
        destruct (0 <? offset it) eqn:Ho.
        -- destruct (offset it <? len newNames); [lia|]. congruence.
        -- intros _. now apply Z.ltb_ge in Ho.
    + intros E; inversion E; subst. split; [discriminate|]. congruence.
Qed.

Lemma Next_loop_safe (fuel : nat) :
  forall (it : queryIter) (s : SwiftContainer B) r it' s',
    safeIter it ->
    Next_loop C intSize fuel it s = (r, it', s') ->
    r <> LoopPanic /\ safeIter it'.
Proof.
  induction fuel as [|fuel IH]; intros it s r it' s' Hs; rewrite Next_loop_eq;
    destruct ((len (names it) =? 0) || (0 <? offset it)) eqn:Hc;
    try (intros E; inversion E; subst; split; [discriminate|exact Hs]).
  pose proof (safe_loop _ Hs Hc) as Hn.
  destruct (loopBody C intSize it s) as [[[r1|] it1] s1] eqn:Eb;
    destruct (loopBody_safe _ _ _ _ _ Hn Eb) as [P1 S1].
  - intros E; inversion E; subst. split; [congruence|exact S1].
  - intros E. eapply IH; eassumption.
Qed.

Lemma emit_safe (it1 : queryIter) (s1 : SwiftContainer B) :
  names it1 <> [] ->
  safeIter it1 ->
  fst (fst (emit C intSize it1 s1)) <> Panic
  /\ safeIter (snd (fst (emit C intSize it1 s1))).
Proof.
  intros Hn Hs. unfold emit. destruct (names it1) as [|n names1] eqn:En;
    [contradiction|].
  cbv zeta. assert (Ho : offset it1 <= 0) by (apply Hs; congruence).
  destruct (dsq.KeysOnly (q it1)).
  - cbn [fst snd]. split; [discriminate|]. intros _. exact Ho.
  - rewrite call_trace.
    match goal with |- context [swift.ObjectGetBytes C ?c ?n ?b] =>
      destruct (swift.ObjectGetBytes C c n b) as [[v|e] b'] end;
      cbn [fst snd]; (split; [discriminate|]); intros _; exact Ho.
Qed.

(** X5: the iterator of a query never indexes out of range and its fetch
    loop always ends, against any object store.  Names are buffered only
    once the residual skip is used up; this holds of the iterator [Query]
    returns and is kept by [Next] and [Close], and under it every call of
    [Next] returns a result. *)
Theorem Next_never_panics :
  0 < intSize ->
  (forall qu (s : SwiftContainer B) it,
      SwiftContainer_Query intSize qu s = Ok it -> safeIter it)
  /\ (forall it (s : SwiftContainer B),
      safeIter it ->
      (exists r ok, fst (fst (Next C intSize it s)) = Yield r ok)
      /\ safeIter (snd (fst (Next C intSize it s))))
  /\ (forall it (s : SwiftContainer B), safeIter (snd (fst (Close it s)))).
Proof.
  intros Hsz. split; [|split].
  - intros qu s it. unfold SwiftContainer_Query.
    destruct (dsq.Orders qu); [discriminate|].
    destruct (dsq.Filters qu); [discriminate|].
    cbv zeta. intros E; inversion E; subst. intros H. now contradiction H.
  - intros it s Hs.
    pose proof (Next_returns C intSize it s Hsz) as Hd. revert Hd.
    unfold Next.
    destruct (negb (dsq.Limit (q it) =? 0) && (count it =? dsq.Limit (q it))).
    + intros _. cbn [fst snd]. split; [now eexists; eexists|exact Hs].
    + destruct (Next_loop C intSize (Datatypes.S (Z.to_nat (offset it))) it s)
        as [[lr it1] s1] eqn:El.
      destruct (Next_loop_safe _ _ _ _ _ _ Hs El) as [P1 S1].
      destruct lr; try contradiction.
      * intros _. cbn [fst snd]. split; [now eexists; eexists|exact S1].
      * intros Hd. apply Next_loop_exit in El. destruct El as [Hn _].
        destruct (emit_safe it1 s1 Hn S1) as [P2 S2]. split; [|exact S2].
        destruct (fst (fst (emit C intSize it1 s1))) as [r ok| |];
          [now eexists; eexists|contradiction|contradiction].
  - intros it s H. cbn in H. now contradiction H.
Qed.

(** ** A batch after its commit *)

(** X6: [Commit] does not reset the batch.  For a batch built by any
    sequence of [Put] and [Delete] calls, the names to delete are still
    recorded in the batch after the commit; and when a [Put] was issued
    before the commit, the archive writer is closed:
    every later [Put] fails with the writer's write-after-close error and
    buffers nothing. *)
Theorem Commit_keeps_batch (ops : list batchOp) (s : SwiftContainer B) :
  let b := fst (applyOps encodable ops SwiftContainer_Batch s) in
  let b' := snd (fst (swiftBatch_Commit C b s)) in
  delKeys b' = delNames ops
  /\ (existsb isPut ops = true ->
      forall k val (s' : SwiftContainer B),
        swiftBatch_Put encodable k val b' s' = (Some ErrWriteAfterClose, b', s')).
Proof.
  intros b b'.
  assert (Hidle0 : idleWriter SwiftContainer_Batch) by (intros tw E; discriminate).
  destruct (applyOps_spec encodable ops SwiftContainer_Batch s Hidle0)
    as (_ & Hd & Hb & Hn & Hi).
  fold b in Hd, Hb, Hn, Hi. cbn [delKeys SwiftContainer_Batch app] in Hd.
  subst b'. unfold swiftBatch_Commit.
  destruct (tarWriter b) as [tw|] eqn:Etw.
  - destruct (Hi tw Etw) as [Hnb Herr].
    unfold tar.Close, tar.Flush. rewrite Herr, Hnb. cbn [Z.ltb Z.compare].
    rewrite call_trace. cbn [fst snd].
    match goal with |- context [swift.BulkUpload C ?c ?d ?f ?x] =>
      destruct (swift.BulkUpload C c d f x) as [[e|] b1] end; cbn [fst snd].
    + split; [exact Hd|]. intros _ k val s'. reflexivity.
    + unfold commitDeletes. cbn [delKeys].
      destruct (0 <? len (delKeys b)); [rewrite call_trace|]; cbn [fst snd];
        (split; [exact Hd|]); intros _ k val s'; reflexivity.
  - assert (Hput : existsb isPut ops = false) by (apply Hn; reflexivity).
    unfold commitDeletes.
    destruct (0 <? len (delKeys b)); [rewrite call_trace|]; cbn [fst snd];
      (split; [exact Hd|]); rewrite Hput; discriminate.
Qed.

End ReadsAndWrites.

Lemma Query_restarts_after_write_witness :
  SwiftContainer_Query 64 (prefixQuery "/a/" 2 0 true)
    (snd (SwiftContainer_Put memConn "/a/e"%string []
            (withCache testStore (mkCache "a/" 2 "a/b/d"))))
  = Ok (mkIter (prefixQuery "/a/" 2 0 true)
          (swift.mkOpts "a/" "" 10000) 2 0 [] false).
Proof.
  apply (Query_restarts_after_write memConn 64 "/a/e"%string []
           SwiftContainer_Batch (prefixQuery "/a/" 2 0 true)
           (withCache testStore (mkCache "a/" 2 "a/b/d"))); reflexivity.
Defined.

Lemma Next_never_panics_witness :
  0 < 64
  /\ exists r ok,
      fst (fst (Next memConn 64
                  (mkIter (prefixQuery "/a/" 2 0 true)
                     (swift.mkOpts "a/" "" 10000) 2 0 [] false)
                  (newSwift testStore)))
      = Yield r ok.
Proof.
  split; [lia|].
  apply (Next_never_panics memConn 64); [lia|].
  intros H. now contradiction H.
Defined.

(** ** Failures during a query *)

Section QueryFailures.

Context {B : Type}.
Variable C : swift.Connection B.
Variable intSize : Z.

Lemma emit_ok (it1 : queryIter) (s1 : SwiftContainer B) r it2 s2 :
  emit C intSize it1 s1 = (Yield r true, it2, s2) -> dsq.Error r = None.
Proof.
  unfold emit. destruct (names it1) as [|n names1]; [discriminate|].
  cbv zeta. destruct (dsq.KeysOnly (q it1)).
  - intros E; inversion E; subst. reflexivity.
  - rewrite call_trace.
    match goal with |- context [swift.ObjectGetBytes C ?c ?n ?b] =>
      destruct (swift.ObjectGetBytes C c n b) as [[v|e] b'] end;
      cbn [fst snd]; intros E; inversion E; subst; reflexivity.
Qed.

Lemma Next_ok (it : queryIter) (s : SwiftContainer B) r it' s' :
  Next C intSize it s = (Yield r true, it', s') -> dsq.Error r = None.
Proof.
  unfold Next.
  destruct (negb (dsq.Limit (q it) =? 0) && (count it =? dsq.Limit (q it)));
    [discriminate|].
  destruct (Next_loop C intSize (Datatypes.S (Z.to_nat (offset it))) it s)
    as [[lr it1] s1] eqn:El.
  destruct lr; try discriminate.
  - intros E; inversion E; subst. apply Next_loop_return in El. discriminate.
  - apply emit_ok.
Qed.

(** X7: a failure of the object store during a query is never reported as
    an entry: every result of [Next] that carries an error comes with the
    end-of-results flag.  A consumer that reads the results to the end
    therefore gets the entries emitted before the failure and no error. *)
Theorem Rest_never_reports_errors :
  (forall (it : queryIter) (s : SwiftContainer B) r ok,
      fst (fst (Next C intSize it s)) = Yield r ok ->
      dsq.Error r <> None -> ok = false)
  /\ (forall fuel (it : queryIter) (s : SwiftContainer B) es e it' s',
      Rest C intSize fuel it s = Some (es, e, it', s') -> e = None).
Proof.
  split.
  - intros it s r ok H He.
    destruct (Next C intSize it s) as [[r0 it1] s1] eqn:En. cbn [fst] in H.
    subst r0. destruct ok; [|reflexivity].
    apply Next_ok in En. contradiction.
  - induction fuel as [|fuel IH]; intros it s es e it' s'; cbn [Rest];
      [discriminate|].
    destruct (Next C intSize it s) as [[r it1] s1] eqn:En.
    destruct r as [res [|]| |]; try discriminate.
    + rewrite (Next_ok _ _ _ _ _ En).
      destruct (Rest C intSize fuel it1 s1) as [[[[es2 e2] it2] s2]|] eqn:Er;
        [|discriminate].
      intros E; inversion E; subst. eapply IH; eassumption.
    + intros E; inversion E; subst. reflexivity.
Qed.

(** X8: the cursor moves before the value is read.  When [Next] hands out
    the last name of the listing, or the name that completes the limit, it
    stores the cursor on that name and only then reads the value: if the
    read fails, the call returns the error with the end-of-results flag,
    the name is consumed, and the cursor already records it as emitted. *)
Theorem cursor_moves_before_read (it : queryIter) (s : SwiftContainer B)
  (n : string) (rest : list string) (e : error) :
  names it = n :: rest ->
  offset it <= 0 ->
  dsq.KeysOnly (q it) = false ->
  dsq.Limit (q it) = 0 \/ count it <> dsq.Limit (q it) ->
  doneFetching it = true
  \/ (0 < dsq.Limit (q it) /\ wrapInt intSize (count it + 1) = dsq.Limit (q it)) ->
  fst (swift.ObjectGetBytes C (Container s) n (conn s)) = Err e ->
  let out := Next C intSize it s in
  fst (fst out) = Yield (dsq.mkResult (dsq.mkEntry "" []) (Some e)) false
  /\ names (snd (fst out)) = rest
  /\ count (snd (fst out)) = wrapInt intSize (count it + 1)
  /\ cache (snd out)
     = mkCache (swift.Prefix (opts it))
         (wrapInt intSize (dsq.Offset (q it) + wrapInt intSize (count it + 1))) n
  /\ trace (snd out)
     = trace s ++ [CacheStore (swift.Prefix (opts it))
                     (wrapInt intSize
                        (dsq.Offset (q it) + wrapInt intSize (count it + 1))) n;
                   CallObjectGetBytes (Container s) n].
Proof.
  intros Hn Ho Hk Hlim Hset Hget out. subst out. unfold Next.
  assert (Hl : negb (dsq.Limit (q it) =? 0) && (count it =? dsq.Limit (q it))
               = false).
  { destruct Hlim as [->|Hc]; [reflexivity|].
    apply Z.eqb_neq in Hc. rewrite Hc. apply andb_false_r. }
  rewrite Hl. rewrite Next_loop_eq. rewrite Hn.
  assert (Hcond : (len (n :: rest) =? 0) || (0 <? offset it) = false).
  { apply orb_false_iff. split.
    - apply Z.eqb_neq. unfold len. cbn [List.length]. lia.
    - now apply Z.ltb_ge. }
  rewrite Hcond. unfold emit. rewrite Hn, Hk. cbv zeta.
  assert (Hguard : doneFetching it
                   || ((0 <? dsq.Limit (q it))
                       && (wrapInt intSize (count it + 1) =? dsq.Limit (q it)))
                   = true).
  { destruct Hset as [->|[H1 H2]]; [reflexivity|].
    apply Z.ltb_lt in H1. apply Z.eqb_eq in H2. rewrite H1, H2.
    apply orb_true_r. }
  rewrite Hguard.
  assert (Hp : forall b : bool,
             swift.Prefix (if b then swift.mkOpts (swift.Prefix (opts it))
                                       (swift.Marker (opts it))
                                       (wrapInt intSize
                                          (dsq.Limit (q it)
                                           - wrapInt intSize (count it + 1)))
                           else opts it)
             = swift.Prefix (opts it)) by (intros [|]; reflexivity).
  rewrite Hp. rewrite call_trace.
  cbn [storeCache conn cache Container trace fst snd].
  destruct (swift.ObjectGetBytes C (Container s) n (conn s)) as [r b'].
  cbn [fst] in Hget. subst r. cbn [fst snd names count cache trace].
  rewrite <- app_assoc. repeat split.
Qed.

End QueryFailures.

Lemma cursor_moves_before_read_witness :
  cache (snd (Next (unreadable (Upstream "timeout")) 64
                (mkIter (prefixQuery "/a/" 0 1 false)
                   (swift.mkOpts "a/" "a/b" 1) 0 0 ["a/b"%string] false)
                (newSwift testStore)))
  = mkCache "a/" 1 "a/b".
Proof.
  apply (cursor_moves_before_read (unreadable (Upstream "timeout")) 64
           (mkIter (prefixQuery "/a/" 0 1 false)
              (swift.mkOpts "a/" "a/b" 1) 0 0 ["a/b"%string] false)
           (newSwift testStore) "a/b"%string [] (Upstream "timeout")).
  - reflexivity.
  - cbn. lia.
  - reflexivity.
  - right. cbn. lia.
  - right. split; [cbn; lia|reflexivity].
  - reflexivity.
Defined.

(** ** Objects of the in-memory container *)

Lemma compare_Gt_ltb (a b : string) :
  String.compare a b = Gt -> String.ltb b a = true.
Proof.
  intros H. unfold String.ltb. rewrite (String.compare_antisym b a), H.
  reflexivity.
Qed.

Lemma compare_neq (a b : string) : String.compare a b <> Eq -> a <> b.
Proof. intros H E. apply H. subst. apply compare_refl. Qed.

Lemma memGet_memPut_same (n : string) (v : bytes) (st : memState) :
  memGet n (memPut n v st) = Some v.
Proof.
  induction st as [|[m w] rest IH]; cbn [memPut memGet].
  - now rewrite String.eqb_refl.
  - destruct (String.compare n m) eqn:E; cbn [memGet].
    + now rewrite String.eqb_refl.
    + now rewrite String.eqb_refl.
    + assert (Hne : n <> m) by (apply compare_neq; congruence).
      apply String.eqb_neq in Hne. now rewrite Hne.
Qed.

Lemma memGet_memPut_other (n' n : string) (v : bytes) (st : memState) :
  n' <> n -> memGet n' (memPut n v st) = memGet n' st.
Proof.
  intros Hne. pose proof Hne as Hb. apply String.eqb_neq in Hb.
  induction st as [|[m w] rest IH]; cbn [memPut memGet].
  - now rewrite Hb.
  - destruct (String.compare n m) eqn:E; cbn [memGet].
    + apply String.compare_eq_iff in E. subst m. now rewrite Hb.
    + now rewrite Hb.
    + now rewrite IH.
Qed.

Lemma names_memPut (n : string) (v : bytes) (st : memState) (x : string) :
  In x (map fst (memPut n v st)) <-> x = n \/ In x (map fst st).
Proof.
  induction st as [|[m w] rest IH]; cbn [memPut map fst In].
  - intuition.
  - destruct (String.compare n m) eqn:E; cbn [map fst In].
    + apply String.compare_eq_iff in E. subst m. intuition.
    + intuition.
    + rewrite IH. intuition.
Qed.

Lemma sorted_memPut (n : string) (v : bytes) (st : memState) :
  StronglySorted (fun a b => String.ltb a b = true) (map fst st) ->
  StronglySorted (fun a b => String.ltb a b = true) (map fst (memPut n v st)).
Proof.
  induction st as [|[m w] rest IH]; cbn [memPut map fst]; intros Hs.
  - repeat constructor.
  - apply StronglySorted_inv in Hs. destruct Hs as [Hs Hm].
    destruct (String.compare n m) eqn:E; cbn [map fst].
    + apply String.compare_eq_iff in E. subst m. now constructor.
    + assert (Hlt : String.ltb n m = true) by (unfold String.ltb; now rewrite E).
      constructor; [now constructor|].
      constructor; [exact Hlt|].
      rewrite Forall_forall in *. intros x Hx.
      eapply ltb_trans; [exact Hlt|now apply Hm].
    + constructor; [now apply IH|].
      rewrite Forall_forall in *. intros x Hx. apply names_memPut in Hx.
      destruct Hx as [->|Hx]; [now apply compare_Gt_ltb|now apply Hm].
Qed.

Lemma wfStore_memPut (n : string) (v : bytes) (st : memState) :
  wfStore st -> n <> ""%string -> wfStore (memPut n v st).
Proof.
  intros [Hs Hne] Hn. split; [now apply sorted_memPut|].
  rewrite Forall_forall in *. intros x Hx. apply names_memPut in Hx.
  destruct Hx as [->|Hx]; [exact Hn|now apply Hne].
Qed.

Lemma memGet_absent (n : string) (st : memState) :
  ~ In n (map fst st) -> memGet n st = None.
Proof.
  induction st as [|[m w] rest IH]; cbn [memGet map fst In]; [reflexivity|].
  intros H. destruct (String.eqb_spec n m) as [->|Hne]; [tauto|].
  apply IH. tauto.
Qed.

Lemma memGet_present (n : string) (st : memState) (v : bytes) :
  memGet n st = Some v -> In n (map fst st).
Proof.
  induction st as [|[m w] rest IH]; cbn [memGet map fst In]; [discriminate|].
  destruct (String.eqb_spec n m) as [->|Hne]; [now left|].
  intros H. right. now apply IH.
Qed.

Lemma memGet_memRemove_other (n' n : string) (st : memState) :
  n' <> n -> memGet n' (memRemove n st) = memGet n' st.
Proof.
  intros Hne. pose proof Hne as Hb. apply String.eqb_neq in Hb.
  induction st as [|[m w] rest IH]; cbn [memRemove memGet]; [reflexivity|].
  destruct (String.eqb_spec n m) as [->|Hm]; cbn [memGet].
  - now rewrite Hb.
  - now rewrite IH.
Qed.

Lemma names_memRemove_incl (n : string) (st : memState) (x : string) :
  In x (map fst (memRemove n st)) -> In x (map fst st).
Proof.
  induction st as [|[m w] rest IH]; cbn [memRemove map fst In]; [tauto|].
  destruct (String.eqb n m); cbn [map fst In]; intuition.
Qed.

Lemma names_memRemove (n : string) (st : memState) (x : string) :
  StronglySorted (fun a b => String.ltb a b = true) (map fst st) ->
  (In x (map fst (memRemove n st)) <-> x <> n /\ In x (map fst st)).
Proof.
  induction st as [|[m w] rest IH]; cbn [memRemove map fst In]; intros Hs;
    [tauto|].
  apply StronglySorted_inv in Hs. destruct Hs as [Hs Hm].
  rewrite Forall_forall in Hm.
  destruct (String.eqb_spec n m) as [->|Hne]; cbn [map fst In].
  - split.
    + intros Hx. split; [|now right].
      intros ->. apply Hm in Hx. now rewrite ltb_irrefl in Hx.
    + intros [Hx [E|H]]; [congruence|exact H].
  - rewrite (IH Hs). split.
    + intros [->|[H1 H2]]; [split; [congruence|now left]|split; [exact H1|now right]].
    + intros [H1 [->|H2]]; [now left|now right].
Qed.

Lemma sorted_memRemove (n : string) (st : memState) :
  StronglySorted (fun a b => String.ltb a b = true) (map fst st) ->
  StronglySorted (fun a b => String.ltb a b = true) (map fst (memRemove n st)).
Proof.
  induction st as [|[m w] rest IH]; cbn [memRemove map fst]; intros Hs;
    [constructor|].
  apply StronglySorted_inv in Hs. destruct Hs as [Hs Hm].
  destruct (String.eqb n m); cbn [map fst]; [exact Hs|].
  constructor; [now apply IH|].
  rewrite Forall_forall in *. intros x Hx. apply Hm.
  eapply names_memRemove_incl; eassumption.
Qed.

Lemma wfStore_memRemove (n : string) (st : memState) :
  wfStore st -> wfStore (memRemove n st).
Proof.
  intros [Hs Hne]. split; [now apply sorted_memRemove|].
  rewrite Forall_forall in *. intros x Hx. apply Hne.
  eapply names_memRemove_incl; eassumption.
Qed.

Lemma memGet_memRemove_same (n : string) (st : memState) :
  StronglySorted (fun a b => String.ltb a b = true) (map fst st) ->
  memGet n (memRemove n st) = None.
Proof.
  intros Hs. apply memGet_absent. rewrite (names_memRemove n st n Hs). tauto.
Qed.

(** Distinct keys that begin with the separator have distinct names. *)
Lemma keyToName_inj (k k' : Key) :
  wellFormedKey k -> wellFormedKey k' -> keyToName k = keyToName k' -> k = k'.
Proof. intros [r ->] [r' ->]. cbn. congruence. Qed.

(** ** Single objects, end to end *)

(** X9: what is put under a key is what the key gives back, on any
    container and whatever was there before: after a successful [Put] of
    [val], [Get] returns [val] (the empty value included), [Has] answers
    true and [GetSize] returns the length of [val]; putting again
    replaces the value. *)
Theorem Put_Get_round_trip (intSize : Z) (k : Key) (val val' : bytes)
  (s : SwiftContainer memState) :
  let s1 := snd (SwiftContainer_Put memConn k val s) in
  fst (SwiftContainer_Put memConn k val s) = None
  /\ fst (SwiftContainer_Get memConn k s1) = Ok val
  /\ fst (SwiftContainer_Has memConn k s1) = Ok true
  /\ (intSize = 32 \/ intSize = 64 ->
      len val <= maxIntOf intSize ->
      fst (SwiftContainer_GetSize memConn intSize k s1) = Ok (len val))
  /\ fst (SwiftContainer_Get memConn k
            (snd (SwiftContainer_Put memConn k val' s1))) = Ok val'.
Proof.
  cbv zeta.
  unfold SwiftContainer_Put, SwiftContainer_Get, SwiftContainer_Has,
    SwiftContainer_GetSize.
  rewrite ?call_trace.
  cbn [fst snd conn memConn swift.ObjectGetBytes swift.ObjectPutBytes
         swift.Object_ Invalidate].
  rewrite ?call_trace.
  cbn [fst snd conn memConn swift.ObjectGetBytes swift.ObjectPutBytes
         swift.Object_ Invalidate].
  rewrite !memGet_memPut_same. cbn [fst swift.Bytes].
  repeat split.
  intros Hsz Hlen.
  destruct (Z.ltb_spec (maxIntOf intSize) (len val)); [lia|]. cbn [fst].
  rewrite wrapInt_id; [reflexivity|exact Hsz|].
  unfold len in *. lia.
Qed.

(** X10: a [Put] or a [Delete] under one key changes nothing under another:
    for two different keys that begin with the separator, what [Get], [Has]
    and [GetSize] return for the one is the same before and after the other
    is written or deleted. *)
Theorem other_keys_untouched (intSize : Z) (k k' : Key) (val : bytes)
  (s : SwiftContainer memState) :
  wellFormedKey k -> wellFormedKey k' -> k <> k' ->
  let put := snd (SwiftContainer_Put memConn k val s) in
  let del := snd (SwiftContainer_Delete memConn k s) in
  (fst (SwiftContainer_Get memConn k' put) = fst (SwiftContainer_Get memConn k' s)
   /\ fst (SwiftContainer_Has memConn k' put) = fst (SwiftContainer_Has memConn k' s)
   /\ fst (SwiftContainer_GetSize memConn intSize k' put)
      = fst (SwiftContainer_GetSize memConn intSize k' s))
  /\ (fst (SwiftContainer_Get memConn k' del) = fst (SwiftContainer_Get memConn k' s)
      /\ fst (SwiftContainer_Has memConn k' del) = fst (SwiftContainer_Has memConn k' s)
      /\ fst (SwiftContainer_GetSize memConn intSize k' del)
         = fst (SwiftContainer_GetSize memConn intSize k' s)).
Proof.
  intros Hk Hk' Hne. cbv zeta.
  assert (Hn : keyToName k' <> keyToName k).
  { intros E. apply Hne. symmetry. now apply keyToName_inj. }
  assert (Hd : memGet (keyToName k')
                 (snd (swift.ObjectDelete memConn (Container s) (keyToName k) (conn s)))
               = memGet (keyToName k') (conn s)).
  { cbn [memConn swift.ObjectDelete].
    destruct (memGet (keyToName k) (conn s)); cbn [snd]; [|reflexivity].
    now apply memGet_memRemove_other. }
  unfold SwiftContainer_Put, SwiftContainer_Delete, SwiftContainer_Get,
    SwiftContainer_Has, SwiftContainer_GetSize.
  rewrite ?call_trace.
  cbn [fst snd conn Container Invalidate].
  rewrite ?call_trace.
  cbn [fst snd conn Container].
  split.
  - cbn [memConn swift.ObjectGetBytes swift.ObjectPutBytes swift.Object_ fst snd].
    rewrite !(memGet_memPut_other _ _ val (conn s) Hn).
    destruct (memGet (keyToName k') (conn s)) as [v|]; cbn [fst snd swift.Bytes];
      repeat split;
      match goal with |- context [if ?c then _ else _] => destruct c end;
      reflexivity.
  - cbn [memConn swift.ObjectGetBytes swift.Object_ fst snd] in *.
    rewrite !Hd.
    destruct (memGet (keyToName k') (conn s)) as [v|]; cbn [fst snd swift.Bytes];
      repeat split;
      match goal with |- context [if ?c then _ else _] => destruct c end;
      reflexivity.
Qed.

(** X11: after a [Delete] the key is gone, on a container whose names are
    unique: [Has] answers false and [Get] and [GetSize] return the
    datastore's not-found error.  Deleting a key that is there returns no
    error; deleting a key that is not there returns the object store's own
    not-found error, unmapped, and leaves the container as it is.  In both
    cases the cursor is cleared. *)
Theorem Delete_removes (intSize : Z) (k : Key) (s : SwiftContainer memState) :
  wfStore (conn s) ->
  let out := SwiftContainer_Delete memConn k s in
  fst (SwiftContainer_Has memConn k (snd out)) = Ok false
  /\ fst (SwiftContainer_Get memConn k (snd out)) = Err ErrNotFound
  /\ fst (SwiftContainer_GetSize memConn intSize k (snd out)) = Err ErrNotFound
  /\ (fst (SwiftContainer_Has memConn k s) = Ok true -> fst out = None)
  /\ (fst (SwiftContainer_Has memConn k s) = Ok false ->
      fst out = Some ObjectNotFound /\ conn (snd out) = conn s)
  /\ name (cache (snd out)) = ""%string.
Proof.
  intros [Hs _]. cbv zeta.
  assert (Hd : memGet (keyToName k)
                 (snd (swift.ObjectDelete memConn (Container s) (keyToName k) (conn s)))
               = None).
  { cbn [memConn swift.ObjectDelete].
    destruct (memGet (keyToName k) (conn s)) eqn:E; cbn [snd]; [|exact E].
    now apply memGet_memRemove_same. }
  unfold SwiftContainer_Delete, SwiftContainer_Get, SwiftContainer_Has,
    SwiftContainer_GetSize.
  rewrite ?call_trace.
  cbn [fst snd conn Container cache Invalidate name].
  rewrite ?call_trace.
  cbn [fst snd conn Container].
  cbn [memConn swift.ObjectGetBytes swift.Object_ swift.ObjectDelete fst snd] in *.
  rewrite !Hd. cbn [fst].
  split; [reflexivity|]. split; [reflexivity|]. split; [reflexivity|].
  destruct (memGet (keyToName k) (conn s)); cbn [fst snd].
  - split; [reflexivity|]. split; [discriminate|reflexivity].
  - split; [discriminate|]. split; [|reflexivity]. intros _. split; reflexivity.
Qed.

Lemma other_keys_untouched_witness :
  fst (SwiftContainer_Get memConn "/a/c"%string
         (snd (SwiftContainer_Put memConn "/a/b"%string [] (newSwift testStore))))
  = fst (SwiftContainer_Get memConn "/a/c"%string (newSwift testStore)).
Proof.
  apply (other_keys_untouched 64 "/a/b"%string "/a/c"%string []
           (newSwift testStore)).
  - now exists "a/b"%string.
  - now exists "a/c"%string.
  - discriminate.
Defined.

Lemma Delete_removes_witness :
  wfStore (conn (newSwift testStore))
  /\ fst (SwiftContainer_Has memConn "/a/b"%string
            (snd (SwiftContainer_Delete memConn "/a/b"%string (newSwift testStore))))
     = Ok false.
Proof.
  split; [exact wfStore_testStore|].
  apply (Delete_removes 64 "/a/b"%string (newSwift testStore)).
  exact wfStore_testStore.
Defined.

(** ** Whole scans and right cursors *)

Lemma listed_no_marker (p n : string) : listed p "" n = String.prefix p n.
Proof. unfold listed. cbn. now rewrite andb_true_r. Qed.

Lemma listing_all_In (p : string) (st : memState) (n : string) :
  In n (listing p "" st) <-> In n (map fst st) /\ String.prefix p n = true.
Proof.
  unfold listing. rewrite filter_In, listed_no_marker. reflexivity.
Qed.

Lemma sorted_NoDup (l : list string) :
  StronglySorted (fun a b => String.ltb a b = true) l -> NoDup l.
Proof.
  induction 1 as [|a l Hs IH Ha]; constructor; [|exact IH].
  intros Hin. rewrite Forall_forall in Ha. apply Ha in Hin.
  now rewrite ltb_irrefl in Hin.
Qed.

Lemma window_whole (S : list string) : window 0 0 S = S.
Proof. reflexivity. Qed.

(** A whole scan of a prefix, when the query does not resume. *)
Lemma scan_all (intSize : Z) (st : memState) (p : string) (keysOnly : bool)
  (s : SwiftContainer memState) :
  wfStore st ->
  conn s = st ->
  intSize = 32 \/ intSize = 64 ->
  len st <= maxIntOf intSize ->
  cacheHit (prefixQuery p 0 0 keysOnly) (cache s) = false ->
  forall fuel,
    (List.length st < fuel)%nat ->
    exists s',
      runQuery intSize fuel (prefixQuery p 0 0 keysOnly) s
      = Some (map (entryFor keysOnly st) (listing (trimSlash p) "" st), s')
      /\ conn s' = st.
Proof.
  intros Hwf Hc Hsz Hlen Hmiss fuel Hfuel.
  pose proof (length_listing (trimSlash p) "" st) as Hl.
  pose proof (maxIntOf_big intSize Hsz) as Hbig.
  assert (R : inRange intSize (prefixQuery p 0 0 keysOnly) 0
                (listing (trimSlash p) "" st)).
  { constructor; cbn [prefixQuery dsq.Limit dsq.Offset]; try lia; try assumption.
    unfold len in *. lia. }
  pose proof (runQuery_paging intSize st (prefixQuery p 0 0 keysOnly) s
                Hwf Hc eq_refl eq_refl (or_introl Hmiss)) as H.
  cbv zeta in H. rewrite Hmiss in H.
  cbn [prefixQuery dsq.Limit dsq.Offset dsq.Prefix dsq.KeysOnly] in H.
  rewrite window_whole in H.
  destruct (H R fuel ltac:(lia)) as (s' & Er & Hc' & _).
  exists s'. split; assumption.
Qed.

Lemma keys_of_scan (keysOnly : bool) (st : memState) (S : list string) (n : string) :
  In (String "/"%char n) (keysOf (map (entryFor keysOnly st) S)) <-> In n S.
Proof.
  rewrite keysOf_entries, in_map_iff. split.
  - intros (x & E & Hx). inversion E; subst. exact Hx.
  - intros Hx. now exists n.
Qed.

(** X12: a query for a prefix, without offset and limit and read to its
    end, returns exactly the keys of the container under the normalized
    prefix: every stored name with that prefix appears, as the name behind
    the separator, nothing else appears, no key appears twice, the keys come
    in ascending order of their names, and each entry carries the stored
    value unless only keys were asked for. *)
Theorem Query_lists_prefix (intSize : Z) (st : memState) (p : string)
  (keysOnly : bool) (s : SwiftContainer memState) :
  wfStore st ->
  conn s = st ->
  intSize = 32 \/ intSize = 64 ->
  len st <= maxIntOf intSize ->
  name (cache s) = ""%string \/ 0 < index (cache s) ->
  forall fuel,
    (List.length st < fuel)%nat ->
    exists es s',
      runQuery intSize fuel (prefixQuery p 0 0 keysOnly) s = Some (es, s')
      /\ (forall n, In (String "/"%char n) (keysOf es)
                    <-> In n (map fst st) /\ String.prefix (trimSlash p) n = true)
      /\ (forall k, In k (keysOf es) -> wellFormedKey k)
      /\ NoDup (keysOf es)
      /\ StronglySorted (fun a b => String.ltb a b = true)
           (map keyToName (keysOf es))
      /\ (forall e, In e es ->
          if keysOnly then dsq.Value e = []
          else memGet (keyToName (dsq.Key e)) st = Some (dsq.Value e)).
Proof.
  intros Hwf Hc Hsz Hlen Hcur fuel Hfuel.
  assert (Hmiss : cacheHit (prefixQuery p 0 0 keysOnly) (cache s) = false).
  { unfold cacheHit. cbn [prefixQuery dsq.Offset dsq.Prefix].
    destruct Hcur as [E|Hi].
    - rewrite E. cbn. now rewrite andb_false_r.
    - destruct (Z.leb_spec (index (cache s)) 0); [lia|]. now rewrite andb_false_r. }
  destruct (scan_all intSize st p keysOnly s Hwf Hc Hsz Hlen Hmiss fuel Hfuel)
    as (s' & Er & _).
  set (S := listing (trimSlash p) "" st) in *.
  pose proof (listing_sorted st (trimSlash p) Hwf ""%string) as Hsorted.
  fold S in Hsorted.
  assert (Hnames : map keyToName (keysOf (map (entryFor keysOnly st) S)) = S).
  { rewrite keysOf_entries, map_map. cbn. apply map_id. }
  exists (map (entryFor keysOnly st) S), s'.
  split; [exact Er|]. split; [|split; [|split; [|split]]].
  - intros n. rewrite keys_of_scan. apply listing_all_In.
  - intros k Hk. rewrite keysOf_entries in Hk. apply in_map_iff in Hk.
    destruct Hk as (n & <- & _). now exists n.
  - rewrite keysOf_entries. apply NoDup_map_NoDup_ForallPairs.
    + intros a b _ _ E. now inversion E.
    + now apply sorted_NoDup.
  - now rewrite Hnames.
  - intros e He. apply in_map_iff in He. destruct He as (n & <- & Hn).
    destruct keysOnly; [reflexivity|].
    cbn [entryFor dsq.Key dsq.Value keyToName trimSlash].
    apply (listing_In st (trimSlash p) Hwf) in Hn. destruct Hn as (Hin & _).
    destruct (memGet_In st n Hin) as (v & Ev). now rewrite Ev.
Qed.

(** *** The cursor a query leaves *)

Lemma window_prefix (o l : Z) (S : list string) :
  exists rest, zdrop o S = window o l S ++ rest.
Proof.
  unfold window. destruct (l =? 0).
  - exists []. now rewrite app_nil_r.
  - exists (zdrop l (zdrop o S)). now rewrite ztake_zdrop.
Qed.

Lemma cursor_after_window (L : list string) (o l : Z) :
  0 <= o ->
  window o l L <> [] ->
  exists S1 S2,
    L = S1 ++ last (window o l L) ""%string :: S2
    /\ len S1 + 1 = o + len (window o l L).
Proof.
  intros Ho Hw. destruct (window_prefix o l L) as (rest & E).
  set (w := window o l L) in *.
  assert (Hlen : o < len L).
  { destruct (Z.lt_ge_cases o (len L)) as [H|H]; [exact H|].
    rewrite zdrop_all in E by lia. destruct w; [congruence|discriminate]. }
  exists (ztake o L ++ removelast w), rest. split.
  - rewrite <- (ztake_zdrop o L) at 1. rewrite E.
    rewrite (last_split w ""%string Hw) at 1.
    now rewrite <- !app_assoc.
  - rewrite len_app, len_ztake by lia.
    rewrite (last_split w ""%string Hw) at 2. rewrite len_app.
    rewrite Z.min_l by lia. unfold len at 3. cbn [List.length]. lia.
Qed.

Lemma cacheHit_true (qu : dsq.Query) (c : QueryCache) :
  cacheHit qu c = true ->
  prefix c = trimSlash (dsq.Prefix qu)
  /\ name c <> ""%string
  /\ index c <= dsq.Offset qu.
Proof.
  unfold cacheHit. intros H.
  apply andb_true_iff in H. destruct H as [H H3].
  apply andb_true_iff in H. destruct H as [H1 H2].
  apply String.eqb_eq in H1. apply negb_true_iff, String.eqb_neq in H2.
  apply Z.leb_le in H3. now repeat split.
Qed.

(** X13: the cursor stays right.  On a fixed container, a query that does
    not resume, or resumes exactly at the cursor's index, and is read to its
    end leaves a cursor that is right again: cleared, unchanged, or naming
    the name listed under its prefix at the position it records. *)
Theorem cursor_stays_valid (intSize : Z) (st : memState) (qu : dsq.Query)
  (s : SwiftContainer memState) :
  wfStore st ->
  conn s = st ->
  dsq.Orders qu = None -> dsq.Filters qu = None ->
  cacheHit qu (cache s) = false \/ index (cache s) = dsq.Offset qu ->
  let p := trimSlash (dsq.Prefix qu) in
  let marker := if cacheHit qu (cache s) then name (cache s) else ""%string in
  let o := if cacheHit qu (cache s) then 0 else dsq.Offset qu in
  inRange intSize qu o (listing p marker st) ->
  validCursor st (cache s) ->
  forall fuel,
    (List.length st < fuel)%nat ->
    exists es s',
      runQuery intSize fuel qu s = Some (es, s')
      /\ conn s' = st
      /\ validCursor st (cache s').
Proof.
  intros Hwf Hc Ho Hf Hhit p marker o R Hv fuel Hfuel.
  pose proof (length_window o (dsq.Limit qu) (listing p marker st)) as Hw.
  pose proof (length_listing p marker st) as Hl.
  destruct (runQuery_paging intSize st qu s Hwf Hc Ho Hf Hhit R fuel
              ltac:(fold p marker o; lia)) as (s' & Er & Hc' & Hcache).
  fold p marker o in Er, Hcache.
  eexists. exists s'. split; [exact Er|]. split; [exact Hc'|].
  rewrite Hcache. unfold cacheFrom. rewrite remaining_0.
  set (w := window o (dsq.Limit qu) (listing p marker st)) in *.
  destruct w as [|x w'] eqn:Ew; [exact Hv|].
  destruct (writesCache o (dsq.Limit qu) (listing p marker st)); [|exact Hv].
  rewrite <- Ew. rewrite Z.add_0_l.
  assert (Hne : w <> []) by (rewrite Ew; discriminate).
  right. cbn [prefix name index].
  pose proof (range_skip _ _ _ _ R) as Rskip.
  destruct (cursor_after_window (listing p marker st) o (dsq.Limit qu) Rskip Hne)
    as (T1 & T2 & ET & HT).
  fold w in ET, HT.
  subst marker o. destruct (cacheHit qu (cache s)) eqn:Eh.
  - destruct Hhit as [Hhit|Hidx]; [discriminate|].
    destruct (cacheHit_true _ _ Eh) as (Hp & Hn & _). fold p in Hp.
    destruct Hv as [Hv|(S1 & S2 & ES & HS)]; [contradiction|].
    rewrite Hp in ES.
    pose proof (listing_after st p Hwf _ _ _ _ ES) as E2.
    exists (S1 ++ name (cache s) :: T1), T2. split.
    + rewrite ES, <- E2, ET. rewrite <- app_assoc. reflexivity.
    + rewrite len_app, len_cons. lia.
  - exists T1, T2. split; [exact ET|exact HT].
Qed.

(** X14: resuming from a right cursor changes nothing in what a query
    returns.  When the cursor is right and the query starts exactly at its
    index, the entries are those of the window [offset, offset + limit) of
    the whole listing of the prefix: the same entries the query returns
    after the cache was invalidated. *)
Theorem resume_is_transparent (intSize : Z) (st : memState) (qu : dsq.Query)
  (s : SwiftContainer memState) :
  wfStore st ->
  conn s = st ->
  dsq.Orders qu = None -> dsq.Filters qu = None ->
  intSize = 32 \/ intSize = 64 ->
  0 <= dsq.Limit qu ->
  dsq.Offset qu + dsq.Limit qu <= maxIntOf intSize ->
  dsq.Offset qu + len st <= maxIntOf intSize ->
  validCursor st (cache s) ->
  cacheHit qu (cache s) = true ->
  index (cache s) = dsq.Offset qu ->
  forall fuel,
    (List.length st < fuel)%nat ->
    exists es s' s'',
      runQuery intSize fuel qu s = Some (es, s')
      /\ runQuery intSize fuel qu (Invalidate s) = Some (es, s'')
      /\ es = map (entryFor (dsq.KeysOnly qu) st)
                (window (dsq.Offset qu) (dsq.Limit qu)
                   (listing (trimSlash (dsq.Prefix qu)) "" st)).
Proof.
  intros Hwf Hc Ho Hf Hsz Hlim Hend Hidx Hv Hhit Hexact fuel Hfuel.
  set (p := trimSlash (dsq.Prefix qu)).
  destruct (cacheHit_true _ _ Hhit) as (Hp & Hn & _). fold p in Hp.
  destruct Hv as [Hv|(S1 & S2 & ES & HS)]; [contradiction|].
  rewrite Hp in ES.
  pose proof (listing_after st p Hwf _ _ _ _ ES) as E2.
  pose proof (length_listing p "" st) as HlL.
  pose proof (length_listing p (name (cache s)) st) as Hl2.
  pose proof (len_nonneg S1) as HS1.
  assert (Hoff : 0 <= dsq.Offset qu) by lia.
  assert (Hwin : window 0 (dsq.Limit qu) S2
                 = window (dsq.Offset qu) (dsq.Limit qu) (listing p "" st)).
  { unfold window. rewrite ES.
    assert (E : zdrop (dsq.Offset qu) (S1 ++ name (cache s) :: S2) = S2).
    { rewrite zdrop_app_ge by lia.
      replace (dsq.Offset qu - len S1) with (0 + 1) by lia.
      apply (zdrop_head 0 (name (cache s) :: S2) (name (cache s)) S2); [lia|].
      now apply zdrop_0. }
    rewrite E, zdrop_0 by lia. reflexivity. }
  (* the run that resumes *)
  pose proof (runQuery_paging intSize st qu s Hwf Hc Ho Hf (or_intror Hexact))
    as H1. cbv zeta in H1. rewrite Hhit in H1. fold p in H1. rewrite E2 in H1.
  assert (R1 : inRange intSize qu 0 S2).
  { constructor; try lia; try assumption.
    rewrite <- E2. unfold len in *. lia. }
  pose proof (length_window 0 (dsq.Limit qu) S2) as Hw1.
  rewrite <- E2 in Hw1 at 2.
  destruct (H1 R1 fuel ltac:(lia)) as (s' & Er1 & _).
  (* the run after invalidation *)
  assert (Hmiss : cacheHit qu (cache (Invalidate s)) = false).
  { apply cacheHit_miss. now left. }
  pose proof (runQuery_paging intSize st qu (Invalidate s) Hwf Hc Ho Hf
                (or_introl Hmiss)) as H2.
  cbv zeta in H2. rewrite Hmiss in H2. fold p in H2.
  assert (R2 : inRange intSize qu (dsq.Offset qu) (listing p "" st)).
  { constructor; try lia; try assumption. unfold len in *. lia. }
  pose proof (length_window (dsq.Offset qu) (dsq.Limit qu) (listing p "" st)) as Hw2.
  destruct (H2 R2 fuel ltac:(lia)) as (s'' & Er2 & _).
  rewrite Hwin in Er1.
  eexists. exists s', s''. split; [exact Er1|]. split; [exact Er2|reflexivity].
Qed.

(** ** Writes, then a query *)

(** X15: a query sees what was put.  After a [Put] under a key that begins
    with the separator, whatever the cursor was before, a whole scan of a
    prefix returns the key with the value put when the key's name has the
    normalized prefix, and does not return it otherwise; for every other
    name the scan returns it exactly when it was stored under the prefix
    before. *)
Theorem Put_then_Query (intSize : Z) (k : Key) (val : bytes) (p : string)
  (s : SwiftContainer memState) :
  wfStore (conn s) ->
  wellFormedKey k -> keyToName k <> ""%string ->
  intSize = 32 \/ intSize = 64 ->
  len (conn s) + 1 <= maxIntOf intSize ->
  let s1 := snd (SwiftContainer_Put memConn k val s) in
  forall fuel,
    (Datatypes.S (List.length (conn s)) < fuel)%nat ->
    exists es s',
      runQuery intSize fuel (prefixQuery p 0 0 false) s1 = Some (es, s')
      /\ (String.prefix (trimSlash p) (keyToName k) = true ->
          In (dsq.mkEntry k val) es)
      /\ (String.prefix (trimSlash p) (keyToName k) = false ->
          ~ In k (keysOf es))
      /\ (forall n, n <> keyToName k ->
          (In (String "/"%char n) (keysOf es)
           <-> In n (map fst (conn s)) /\ String.prefix (trimSlash p) n = true)).
Proof.
  intros Hwf Hk Hne Hsz Hlen s1 fuel Hfuel.
  set (st1 := memPut (keyToName k) val (conn s)).
  assert (Hc1 : conn s1 = st1).
  { subst s1. unfold SwiftContainer_Put. rewrite call_trace. reflexivity. }
  assert (Hn1 : name (cache s1) = ""%string).
  { subst s1. unfold SwiftContainer_Put. rewrite call_trace. reflexivity. }
  assert (Hwf1 : wfStore st1) by now apply wfStore_memPut.
  assert (Hlen1 : (List.length st1 <= Datatypes.S (List.length (conn s)))%nat).
  { subst st1. clear. induction (conn s) as [|[m w] rest IH]; cbn [memPut].
    - cbn. lia.
    - destruct (String.compare (keyToName k) m); cbn [List.length] in *; lia. }
  destruct (scan_all intSize st1 p false s1 Hwf1 Hc1 Hsz
              ltac:(unfold len in *; lia)
              ltac:(apply cacheHit_miss; now left) fuel ltac:(lia))
    as (s' & Er & _).
  eexists. exists s'. split; [exact Er|].
  destruct Hk as [r Hk]. split; [|split].
  - intros Hp. apply in_map_iff. exists (keyToName k). split.
    + unfold entryFor. subst st1. rewrite memGet_memPut_same.
      rewrite Hk. reflexivity.
    + apply listing_all_In. split; [|exact Hp].
      apply names_memPut. now left.
  - intros Hp Hin. rewrite Hk in Hin. apply keys_of_scan in Hin.
    apply listing_all_In in Hin. rewrite Hk in Hp. cbn [keyToName trimSlash] in Hp.
    destruct Hin as [_ Hin]. congruence.
  - intros n Hn. rewrite keys_of_scan, listing_all_In. subst st1.
    rewrite names_memPut. intuition.
Qed.

(** X16: a query does not see what was deleted.  After a [Delete] under a
    key, whatever the cursor was before and whatever the deletion returned,
    a whole scan of a prefix does not return the key; every other name is
    returned exactly when it is stored under the prefix. *)
Theorem Delete_then_Query (intSize : Z) (k : Key) (p : string)
  (keysOnly : bool) (s : SwiftContainer memState) :
  wfStore (conn s) ->
  wellFormedKey k ->
  intSize = 32 \/ intSize = 64 ->
  len (conn s) <= maxIntOf intSize ->
  let s1 := snd (SwiftContainer_Delete memConn k s) in
  forall fuel,
    (List.length (conn s) < fuel)%nat ->
    exists es s',
      runQuery intSize fuel (prefixQuery p 0 0 keysOnly) s1 = Some (es, s')
      /\ ~ In k (keysOf es)
      /\ (forall n, n <> keyToName k ->
          (In (String "/"%char n) (keysOf es)
           <-> In n (map fst (conn s)) /\ String.prefix (trimSlash p) n = true)).
Proof.
  intros Hwf Hk Hsz Hlen s1 fuel Hfuel.
  set (st1 := snd (swift.ObjectDelete memConn (Container s) (keyToName k) (conn s))).
  assert (Hc1 : conn s1 = st1).
  { subst s1. unfold SwiftContainer_Delete. rewrite call_trace. reflexivity. }
  assert (Hn1 : name (cache s1) = ""%string).
  { subst s1. unfold SwiftContainer_Delete. rewrite call_trace. reflexivity. }
  assert (Hnames : forall x, In x (map fst st1)
                             <-> x <> keyToName k /\ In x (map fst (conn s))).
  { intros x. subst st1. cbn [memConn swift.ObjectDelete].
    destruct (memGet (keyToName k) (conn s)) eqn:E; cbn [snd].
    - apply names_memRemove. apply Hwf.
    - split; [|tauto]. intros Hx. split; [|exact Hx]. intros ->.
      destruct (memGet_In (conn s) _ Hx) as (v & Ev). congruence. }
  assert (Hwf1 : wfStore st1).
  { subst st1. cbn [memConn swift.ObjectDelete].
    destruct (memGet (keyToName k) (conn s)); cbn [snd];
      [now apply wfStore_memRemove|exact Hwf]. }
  assert (Hlen1 : (List.length st1 <= List.length (conn s))%nat).
  { subst st1. cbn [memConn swift.ObjectDelete].
    destruct (memGet (keyToName k) (conn s)); cbn [snd]; [|lia].
    clear. induction (conn s) as [|[m w] rest IH]; cbn [memRemove]; [lia|].
    destruct (String.eqb (keyToName k) m); cbn [List.length] in *; lia. }
  destruct (scan_all intSize st1 p keysOnly s1 Hwf1 Hc1 Hsz
              ltac:(unfold len in *; lia)
              ltac:(apply cacheHit_miss; now left) fuel ltac:(lia))
    as (s' & Er & _).
  eexists. exists s'. split; [exact Er|].
  destruct Hk as [r Hk]. split.
  - intros Hin. rewrite Hk in Hin. apply keys_of_scan in Hin.
    apply listing_all_In in Hin. destruct Hin as [Hin _].
    apply Hnames in Hin. rewrite Hk in Hin. cbn [keyToName trimSlash] in Hin. tauto.
  - intros n Hn. rewrite keys_of_scan, listing_all_In, Hnames. tauto.
Qed.

(** ** The properties on the test data *)

Lemma Query_lists_prefix_witness :
  wfStore testStore
  /\ exists es s',
      runQuery 64 7 (prefixQuery "/a/b" 0 0 false) (newSwift testStore)
      = Some (es, s')
      /\ NoDup (keysOf es).
Proof.
  split; [exact wfStore_testStore|].
  destruct (Query_lists_prefix 64 testStore "/a/b" false (newSwift testStore)
              wfStore_testStore eq_refl (or_intror eq_refl)
              ltac:(vm_compute; discriminate) (or_introl eq_refl)
              7%nat ltac:(vm_compute; lia))
    as (es & s' & E & _ & _ & ND & _).
  exists es, s'. split; assumption.
Defined.

Lemma validCursor_test : validCursor testStore (mkCache "a/" 2 "a/b/c").
Proof.
  right. exists ["a/b"%string], ["a/b/d"; "a/c"; "a/d"]%string.
  split; vm_compute; reflexivity.
Qed.

Lemma cursor_stays_valid_witness :
  wfStore testStore
  /\ validCursor testStore (mkCache "a/" 2 "a/b/c")
  /\ exists es s',
      runQuery 64 7 (prefixQuery "/a/" 2 2 true)
        (withCache testStore (mkCache "a/" 2 "a/b/c")) = Some (es, s')
      /\ validCursor testStore (cache s').
Proof.
  split; [exact wfStore_testStore|]. split; [exact validCursor_test|].
  assert (R : inRange 64 (prefixQuery "/a/" 2 2 true) 0
                (listing "a/" "a/b/c" testStore)).
  { constructor; [right; reflexivity|vm_compute; discriminate..]. }
  destruct (cursor_stays_valid 64 testStore (prefixQuery "/a/" 2 2 true)
              (withCache testStore (mkCache "a/" 2 "a/b/c"))
              wfStore_testStore eq_refl eq_refl eq_refl
              (or_intror eq_refl) R validCursor_test 7%nat ltac:(vm_compute; lia))
    as (es & s' & E & _ & V).
  exists es, s'. split; assumption.
Defined.

Lemma resume_is_transparent_witness :
  wfStore testStore
  /\ validCursor testStore (mkCache "a/" 2 "a/b/c")
  /\ exists es s' s'',
      runQuery 64 7 (prefixQuery "/a/" 2 2 true)
        (withCache testStore (mkCache "a/" 2 "a/b/c")) = Some (es, s')
      /\ runQuery 64 7 (prefixQuery "/a/" 2 2 true)
           (Invalidate (withCache testStore (mkCache "a/" 2 "a/b/c")))
         = Some (es, s'')
      /\ keysOf es = ["/a/b/d"; "/a/c"]%string.
Proof.
  split; [exact wfStore_testStore|]. split; [exact validCursor_test|].
  destruct (resume_is_transparent 64 testStore (prefixQuery "/a/" 2 2 true)
              (withCache testStore (mkCache "a/" 2 "a/b/c"))
              wfStore_testStore eq_refl eq_refl eq_refl
              (or_intror eq_refl) ltac:(vm_compute; discriminate)
              ltac:(vm_compute; discriminate) ltac:(vm_compute; discriminate)
              validCursor_test eq_refl eq_refl 7%nat ltac:(vm_compute; lia))
    as (es & s' & s'' & E1 & E2 & Ees).
  exists es, s', s''. split; [exact E1|]. split; [exact E2|].
  rewrite Ees. vm_compute. reflexivity.
Defined.

Lemma Put_then_Query_witness :
  wfStore (conn (newSwift testStore))
  /\ exists es s',
      runQuery 64 8 (prefixQuery "/a/b" 0 0 false)
        (snd (SwiftContainer_Put memConn "/a/b/e"%string (value "abe")
                (newSwift testStore)))
      = Some (es, s')
      /\ In (dsq.mkEntry "/a/b/e" (value "abe")) es.
Proof.
  split; [exact wfStore_testStore|].
  destruct (Put_then_Query 64 "/a/b/e"%string (value "abe") "/a/b"
              (newSwift testStore) wfStore_testStore
              (ex_intro _ "a/b/e"%string eq_refl) ltac:(discriminate)
              (or_intror eq_refl) ltac:(vm_compute; discriminate)
              8%nat ltac:(vm_compute; lia))
    as (es & s' & E & Hin & _).
  exists es, s'. split; [exact E|]. apply Hin. reflexivity.
Defined.

Lemma Delete_then_Query_witness :
  wfStore (conn (newSwift testStore))
  /\ exists es s',
      runQuery 64 7 (prefixQuery "/a/b" 0 0 true)
        (snd (SwiftContainer_Delete memConn "/a/b/c"%string (newSwift testStore)))
      = Some (es, s')
      /\ ~ In "/a/b/c"%string (keysOf es).
Proof.
  split; [exact wfStore_testStore|].
  destruct (Delete_then_Query 64 "/a/b/c"%string "/a/b" true
              (newSwift testStore) wfStore_testStore
              (ex_intro _ "a/b/c"%string eq_refl)
              (or_intror eq_refl) ltac:(vm_compute; discriminate)
              7%nat ltac:(vm_compute; lia))
    as (es & s' & E & Hin & _).
  exists es, s'. split; assumption.
Defined.

(** ** A batch on the in-memory container *)

Lemma sorted_bulkPut (es : list tar.Entry) :
  forall st : memState,
    StronglySorted (fun a b => String.ltb a b = true) (map fst st) ->
    StronglySorted (fun a b => String.ltb a b = true)
      (map fst (fold_left
                  (fun acc e =>
                     memPut (lstripSlash (tar.Name (tar.hdr e))) (tar.body e) acc)
                  es st)).
Proof.
  induction es as [|e es IH]; intros st Hs; cbn [fold_left]; [exact Hs|].
  apply IH. now apply sorted_memPut.
Qed.

Lemma bulkDelete_absent (ns : list string) (n : string) :
  forall st : memState,
    memGet n st = None ->
    memGet n (fold_left (fun acc m => memRemove m acc) ns st) = None.
Proof.
  induction ns as [|m ns IH]; intros st H; cbn [fold_left]; [exact H|].
  apply IH. apply memGet_absent. intros Hin.
  apply names_memRemove_incl in Hin.
  destruct (memGet_In st n Hin) as (v & Ev). congruence.
Qed.

Lemma bulkDelete_removes (ns : list string) (n : string) :
  forall st : memState,
    StronglySorted (fun a b => String.ltb a b = true) (map fst st) ->
    In n ns ->
    memGet n (fold_left (fun acc m => memRemove m acc) ns st) = None.
Proof.
  induction ns as [|m ns IH]; intros st Hs Hin; [contradiction|].
  cbn [fold_left]. destruct (String.eqb_spec m n) as [->|Hne].
  - apply bulkDelete_absent. now apply memGet_memRemove_same.
  - destruct Hin as [E|Hin]; [contradiction|].
    apply IH; [now apply sorted_memRemove|exact Hin].
Qed.

Lemma delNames_In (k : Key) (ops : list batchOp) :
  In (OpDelete k) ops -> In (keyToName k) (delNames ops).
Proof.
  induction ops as [|[k' v|k'] ops IH]; cbn [In delNames]; [tauto| |].
  - intros [E|H]; [discriminate|now apply IH].
  - intros [E|H]; [inversion E; now left|right; now apply IH].
Qed.

Section MemBatch.

Variable encodable : tar.Header -> bool.

(** The container after the commit of a batch: the records put, then the
    names deleted. *)
Lemma Commit_memConn (ops : list batchOp) (s : SwiftContainer memState) :
  let b := fst (applyOps encodable ops SwiftContainer_Batch s) in
  let out := swiftBatch_Commit memConn b s in
  fst (fst out) = None
  /\ conn (snd out)
     = fold_left (fun acc n => memRemove n acc) (delNames ops)
         (fold_left
            (fun acc e =>
               memPut (lstripSlash (tar.Name (tar.hdr e))) (tar.body e) acc)
            (putRecords encodable ops) (conn s)).
Proof.
  intros b out.
  assert (Hidle0 : idleWriter SwiftContainer_Batch) by (intros tw E; discriminate).
  destruct (applyOps_spec encodable ops SwiftContainer_Batch s Hidle0)
    as (_ & Hd & Hb & Hn & Hi).
  fold b in Hd, Hb, Hn, Hi.
  cbn [delKeys bufferOf tarWriter SwiftContainer_Batch app] in Hd, Hb.
  assert (Hdel : forall (b1 : swiftBatch) (s1 : SwiftContainer memState),
             delKeys b1 = delNames ops ->
             fst (fst (commitDeletes memConn b1 s1)) = None
             /\ conn (snd (commitDeletes memConn b1 s1))
                = fold_left (fun acc n => memRemove n acc) (delNames ops) (conn s1)).
  { intros b1 s1 E. unfold commitDeletes. rewrite E.
    destruct (delNames ops) as [|n ns] eqn:En.
    - cbn. split; reflexivity.
    - change (0 <? len (n :: ns)) with (0 <? Z.of_nat (Datatypes.S (List.length ns))).
      destruct (Z.ltb_spec 0 (Z.of_nat (Datatypes.S (List.length ns)))); [|lia].
      rewrite call_trace. cbn. split; reflexivity. }
  subst out. unfold swiftBatch_Commit.
  destruct (tarWriter b) as [tw|] eqn:Etw.
  - destruct (Hi tw Etw) as [Hnb Herr].
    unfold bufferOf in Hb. rewrite Etw in Hb.
    unfold tar.Close, tar.Flush. rewrite Herr, Hnb. cbn [Z.ltb Z.compare tar.entries].
    rewrite call_trace. cbn [fst snd memConn swift.BulkUpload Invalidate conn].
    rewrite Hb.
    match goal with |- context [commitDeletes memConn ?b1 ?s1] =>
      destruct (Hdel b1 s1 Hd) as [H1 H2] end.
    split; [exact H1|]. rewrite H2. reflexivity.
  - unfold bufferOf in Hb. rewrite Etw in Hb. rewrite <- Hb.
    destruct (Hdel b (Invalidate s) Hd) as [H1 H2].
    split; [exact H1|]. rewrite H2. reflexivity.
Qed.

(** X17: in a batch the deletions win.  [Commit] uploads every record put
    and only then deletes every name recorded, in whatever order the [Put]
    and [Delete] calls were issued on the batch: after the commit, a key
    that was deleted in the batch is absent, also when it was put in the
    same batch after the deletion. *)
Theorem batch_delete_wins (ops : list batchOp) (k : Key)
  (s : SwiftContainer memState) :
  wfStore (conn s) ->
  In (OpDelete k) ops ->
  let b := fst (applyOps encodable ops SwiftContainer_Batch s) in
  let out := swiftBatch_Commit memConn b s in
  fst (fst out) = None
  /\ fst (SwiftContainer_Has memConn k (snd out)) = Ok false
  /\ fst (SwiftContainer_Get memConn k (snd out)) = Err ErrNotFound.
Proof.
  intros [Hs _] Hin b out.
  destruct (Commit_memConn ops s) as [H1 H2]. fold b out in H1, H2.
  split; [exact H1|].
  assert (Hg : memGet (keyToName k) (conn (snd out)) = None).
  { rewrite H2. apply bulkDelete_removes.
    - now apply sorted_bulkPut.
    - now apply delNames_In. }
  unfold SwiftContainer_Has, SwiftContainer_Get. rewrite !call_trace.
  cbn [fst snd memConn swift.Object_ swift.ObjectGetBytes].
  rewrite Hg. split; reflexivity.
Qed.

End MemBatch.

Lemma batch_delete_wins_witness :
  wfStore (conn (newSwift testStore))
  /\ fst (SwiftContainer_Has memConn "/a/z"%string
            (snd (swiftBatch_Commit memConn
                    (fst (applyOps (fun _ => true)
                            [OpDelete "/a/z"%string; OpPut "/a/z"%string (value "z")]
                            SwiftContainer_Batch (newSwift testStore)))
                    (newSwift testStore))))
     = Ok false.
Proof.
  split; [exact wfStore_testStore|].
  apply (batch_delete_wins (fun _ => true)
           [OpDelete "/a/z"%string; OpPut "/a/z"%string (value "z")]
           "/a/z"%string (newSwift testStore) wfStore_testStore).
  now left.
Defined.

(** ** The plugin's configuration *)

Section PluginConfig.

Variable float64 : Type.
Variable intOfFloat : float64 -> Z.

Lemma asString_Some (v : option (plugin.Value float64)) (s : string) :
  plugin.asString v = Some s <-> v = Some (plugin.VString s).
Proof.
  destruct v as [[s'|f|]|]; cbn; split; intros H; try discriminate;
    inversion H; reflexivity.
Qed.

(** What an accepted map holds. *)
Lemma parser_Ok_inv (m : plugin.ConfigMap float64) (c : plugin.SwiftConfig) :
  plugin.DatastoreConfigParser intOfFloat m = Ok c ->
  m "userName"%string = Some (plugin.VString (plugin.UserName c))
  /\ m "container"%string = Some (plugin.VString (plugin.Container c))
  /\ m "apiKey"%string = Some (plugin.VString (plugin.ApiKey c))
  /\ m "authUrl"%string = Some (plugin.VString (plugin.AuthUrl c))
  /\ plugin.optionalString (m "tenant"%string) (plugin.Tenant c)
  /\ plugin.optionalString (m "tenantId"%string) (plugin.TenantId c)
  /\ plugin.optionalString (m "region"%string) (plugin.Region c)
  /\ plugin.optionalNumber intOfFloat (m "authVersion"%string)
       (plugin.AuthVersion c).
Proof.
  unfold plugin.DatastoreConfigParser, plugin.optionalString,
    plugin.optionalNumber.
  destruct c as [u a au av t ti r co]. cbn [plugin.UserName plugin.Container
    plugin.ApiKey plugin.AuthUrl plugin.Tenant plugin.TenantId plugin.Region
    plugin.AuthVersion].
  destruct (m "userName"%string) as [[s1|?|]|]; cbn [plugin.asString];
    try discriminate.
  destruct (m "container"%string) as [[s2|?|]|]; cbn [plugin.asString];
    try discriminate.
  destruct (m "apiKey"%string) as [[s3|?|]|]; cbn [plugin.asString];
    try discriminate.
  destruct (m "authUrl"%string) as [[s4|?|]|]; cbn [plugin.asString];
    try discriminate.
  destruct (m "tenant"%string) as [[s5|?|]|]; cbn [plugin.asString];
    try discriminate;
    (destruct (m "tenantId"%string) as [[s6|?|]|]; cbn [plugin.asString];
     try discriminate;
     (destruct (m "region"%string) as [[s7|?|]|]; cbn [plugin.asString];
      try discriminate;
      (destruct (m "authVersion"%string) as [[s8|f|]|];
       try discriminate;
       intros E; inversion E; subst;
       repeat (split; [first [reflexivity | now left | now right]|]);
       first [now left | right; now exists f]))).
Qed.

(** X18: the configuration parser accepts a map exactly when [userName],
    [container], [apiKey] and [authUrl] are strings, [tenant], [tenantId]
    and [region] are absent or strings, and [authVersion] is absent or a
    number.  The configuration then holds these values, the empty string
    for an absent optional entry and version 0 for an absent
    [authVersion]. *)
Theorem parser_accepts (m : plugin.ConfigMap float64) (c : plugin.SwiftConfig) :
  plugin.DatastoreConfigParser intOfFloat m = Ok c
  <-> m "userName"%string = Some (plugin.VString (plugin.UserName c))
      /\ m "container"%string = Some (plugin.VString (plugin.Container c))
      /\ m "apiKey"%string = Some (plugin.VString (plugin.ApiKey c))
      /\ m "authUrl"%string = Some (plugin.VString (plugin.AuthUrl c))
      /\ plugin.optionalString (m "tenant"%string) (plugin.Tenant c)
      /\ plugin.optionalString (m "tenantId"%string) (plugin.TenantId c)
      /\ plugin.optionalString (m "region"%string) (plugin.Region c)
      /\ plugin.optionalNumber intOfFloat (m "authVersion"%string)
           (plugin.AuthVersion c).
Proof.
  split; [apply parser_Ok_inv|].
  unfold plugin.DatastoreConfigParser, plugin.optionalString,
    plugin.optionalNumber.
  destruct c as [u a au av t ti r co]. cbn [plugin.UserName plugin.Container
    plugin.ApiKey plugin.AuthUrl plugin.Tenant plugin.TenantId plugin.Region
    plugin.AuthVersion].
  intros (H1 & H2 & H3 & H4 & H5 & H6 & H7 & H8).
  rewrite H1, H2, H3, H4. cbn [plugin.asString].
  destruct H5 as [[-> ->]| ->]; cbn [plugin.asString];
    (destruct H6 as [[-> ->]| ->]; cbn [plugin.asString];
     (destruct H7 as [[-> ->]| ->]; cbn [plugin.asString];
      (destruct H8 as [[-> ->]|(f & -> & ->)]; reflexivity))).
Qed.

(** X19: the parser reports the first requirement that fails, in the
    order [userName], [container], [apiKey], [authUrl], [tenant],
    [tenantId], [region], [authVersion], with that requirement's message;
    a required entry of another type is reported like a missing one.  It
    accepts when no requirement fails. *)
Theorem parser_first_error (m : plugin.ConfigMap float64) :
  match find (fun c => negb (fst c)) (plugin.configChecks m) with
  | Some (_, msg) =>
      plugin.DatastoreConfigParser intOfFloat m = Err (Errorf msg)
  | None => exists c, plugin.DatastoreConfigParser intOfFloat m = Ok c
  end.
Proof.
  unfold plugin.DatastoreConfigParser, plugin.configChecks.
  destruct (m "userName"%string) as [[?|?|]|]; cbn; try reflexivity.
  destruct (m "container"%string) as [[?|?|]|]; cbn; try reflexivity.
  destruct (m "apiKey"%string) as [[?|?|]|]; cbn; try reflexivity.
  destruct (m "authUrl"%string) as [[?|?|]|]; cbn; try reflexivity.
  destruct (m "tenant"%string) as [[?|?|]|]; cbn; try reflexivity;
    (destruct (m "tenantId"%string) as [[?|?|]|]; cbn; try reflexivity;
     (destruct (m "region"%string) as [[?|?|]|]; cbn; try reflexivity;
      (destruct (m "authVersion"%string) as [[?|?|]|]; cbn; try reflexivity;
       eexists; reflexivity))).
Qed.

(** X20: the disk specification of a parsed configuration is made of the
    authentication URL (under the key [apiUrl]), the container and the
    tenant, and of nothing else: two accepted maps have the same
    specification exactly when they agree on these three, an absent tenant
    counting as the empty one.  User name, key, tenant id, region and
    version do not enter it. *)
Theorem DiskSpec_of_parsed (m m' : plugin.ConfigMap float64)
  (c c' : plugin.SwiftConfig) :
  plugin.DatastoreConfigParser intOfFloat m = Ok c ->
  plugin.DatastoreConfigParser intOfFloat m' = Ok c' ->
  (plugin.DiskSpec c = plugin.DiskSpec c'
      <-> m "authUrl"%string = m' "authUrl"%string
          /\ m "container"%string = m' "container"%string
          /\ (m "tenant"%string = m' "tenant"%string
              \/ (m "tenant"%string = None
                  /\ m' "tenant"%string = Some (plugin.VString ""))
              \/ (m "tenant"%string = Some (plugin.VString "")
                  /\ m' "tenant"%string = None))).
Proof.
  intros H H'. apply parser_Ok_inv in H, H'.
  destruct H as (_ & H2 & _ & H4 & H5 & _).
  destruct H' as (_ & H2' & _ & H4' & H5' & _).
  unfold plugin.DiskSpec. rewrite H2, H4, H2', H4'. split.
  - intros E. inversion E as [[E1 E2 E3]]. split; [reflexivity|].
    split; [reflexivity|].
    destruct H5 as [[-> Ht]| ->]; destruct H5' as [[-> Ht']| ->].
    + now left.
    + right. left. split; [reflexivity|]. congruence.
    + right. right. split; [|reflexivity]. congruence.
    + left. congruence.
  - intros (E1 & E2 & E3). inversion E1. inversion E2.
    assert (Et : plugin.Tenant c = plugin.Tenant c').
    { destruct H5 as [[Hm Ht]|Hm]; destruct H5' as [[Hm' Ht']|Hm'];
        destruct E3 as [E3|[[E3 E3']|[E3 E3']]]; congruence. }
    now rewrite Et.
Qed.

End PluginConfig.

Lemma DiskSpec_of_parsed_witness :
  plugin.DiskSpec (plugin.mkConfig "user" "secret" "https://auth" 2 "" "" "" "box")
  = plugin.DiskSpec (plugin.mkConfig "user" "rotated" "https://auth" 2 "" "" "" "box").
Proof.
  apply (DiskSpec_of_parsed Z (fun z => z) plugin.exampleConfig
           (fun key => if String.eqb key "apiKey"
                       then Some (plugin.VString "rotated")
                       else plugin.exampleConfig key));
    [reflexivity|reflexivity|].
  split; [reflexivity|]. split; [reflexivity|]. now left.
Defined.
